(** * Active Inference core: beliefs, observation models, policy search.

    A shallow embedding of the TypeScript sources
    ([models/belief.model.ts], [beliefs/discrete.belief.ts],
    [beliefs/gaussian.belief.ts], [observation/*.ts], [factory.ts],
    [helpers/math.helpers.ts], [models/agent.model.ts]).

    Conventions of the embedding.
    - A JavaScript [number] is a mathematical real ([R]): rounding, the
      infinities and NaN are not represented.  Where JavaScript would
      produce NaN (arithmetic on [undefined], [0/0]) the embedding has
      some real value about which no theorem speaks.  The one
      exception is [computeRisk], which returns a [number] that can be
      NaN: there the default of an absent preference decides it.
    - A plain JavaScript object used as a record ([Distribution],
      [Preferences], [ObservationMatrix], ...) is an insertion-ordered
      list of (key, value) pairs without repeated keys; [Object.keys]
      is the list of first components.  Keys are strings that are not
      canonical array indices (those would be enumerated first).
    - [get] reads own properties.  In JavaScript a read of a key the
      object does not own finds the member of [Object.prototype] of
      that name, if there is one ([inherited]).  Theorems about absent
      keys exclude such names in their hypotheses; [computeRisk] and
      [learn] of the Dirichlet observation model, whose outcome on
      such names is stated below, read along the prototype chain
      ([read]).
    - The 32-bit state of the generator is an integer ([Z]) with the
      wrap-around of [| 0], [>>> 0] and [Math.imul] written out.
    - A call that can raise returns a [result]; a method that mutates
      [this] returns the new object next to its result. *)

From Stdlib Require Import Reals Lra Lia List String ZArith Bool Permutation.
Import ListNotations.
Open Scope R_scope.

(** ** JavaScript objects as ordered key/value lists *)

Module JsObject.

Definition Obj (V : Type) : Type := list (string * V).

Definition keys {V} (o : Obj V) : list string := map fst o.

(** [o[k]]: the value stored under [k], [None] for [undefined]. *)
Fixpoint get {V} (o : Obj V) (k : string) : option V :=
  match o with
  | [] => None
  | (k', v) :: rest => if string_dec k' k then Some v else get rest k
  end.

(** [o[k] = v]: overwrite in place when the key exists, otherwise
    append the new property at the end of the enumeration order. *)
Fixpoint set {V} (o : Obj V) (k : string) (v : V) : Obj V :=
  match o with
  | [] => [(k, v)]
  | (k', v') :: rest =>
      if string_dec k' k then (k', v) :: rest else (k', v') :: set rest k v
  end.

(** [x ?? d] *)
Definition nullish {V} (x : option V) (d : V) : V :=
  match x with Some v => v | None => d end.

(** ToNumber of a property read: [undefined] would be NaN, which the
    real-valued embedding cannot represent (see the conventions). *)
Definition to_number (x : option R) : R := nullish x 0.

(** Representation invariant of an object: no key occurs twice. *)
Definition wf {V} (o : Obj V) : Prop := NoDup (keys o).

(** The names of the members of [Object.prototype], which every plain
    object inherits. *)
Definition prototype_members : list string :=
  ["constructor"; "__defineGetter__"; "__defineSetter__"; "hasOwnProperty";
   "__lookupGetter__"; "__lookupSetter__"; "isPrototypeOf";
   "propertyIsEnumerable"; "toString"; "valueOf"; "__proto__";
   "toLocaleString"]%string.

Definition inherited (k : string) : bool :=
  existsb (String.eqb k) prototype_members.

(** What a read [o[k]] finds along the prototype chain: a property of
    the object itself, the member of [Object.prototype] of that name
    (a built-in function, or the prototype object for [__proto__]), or
    [undefined]. *)
Inductive property (V : Type) : Type :=
| Own (v : V)
| Inherited
| Undefined.
Arguments Own {V} v.
Arguments Inherited {V}.
Arguments Undefined {V}.

Definition read {V} (o : Obj V) (k : string) : property V :=
  match get o k with
  | Some v => Own v
  | None => if inherited k then Inherited else Undefined
  end.

End JsObject.

Import JsObject.

(** ** Outcome of a call that can raise *)

Inductive js_error : Type :=
| TypeError.

Inductive result (T : Type) : Type :=
| Ok (v : T)
| Throw (e : js_error).
Arguments Ok {T} v.
Arguments Throw {T} e.

(** ** Numbers that can be NaN

    NaN is the result of arithmetic on a value that is not a number,
    and of arithmetic on NaN. *)

Inductive number : Type :=
| Num (r : R)
| NaN.

(** [a - b] and [x * b]. *)
Definition number_minus (a b : number) : number :=
  match a, b with
  | Num x, Num y => Num (x - y)
  | _, _ => NaN
  end.

Definition number_times (x : R) (b : number) : number :=
  match b with
  | Num y => Num (x * y)
  | NaN => NaN
  end.

(** The real the embedding goes on with where the code goes on with a
    number that may be NaN (see the conventions). *)
Definition number_value (n : number) : R :=
  match n with
  | Num r => r
  | NaN => 0
  end.

(** ** helpers/math.helpers.ts *)

Module Random.

Local Open Scope Z_scope.

(** ToInt32 and ToUint32 of an integer-valued number. *)
Definition toInt32 (z : Z) : Z := (z + 2147483648) mod 4294967296 - 2147483648.
Definition toUint32 (z : Z) : Z := z mod 4294967296.

(** [a | b], [a ^ b], [a >>> n], [Math.imul(a, b)]. *)
Definition bor (a b : Z) : Z := toInt32 (Z.lor (toInt32 a) (toInt32 b)).
Definition bxor (a b : Z) : Z := toInt32 (Z.lxor (toInt32 a) (toInt32 b)).
Definition ushr (a n : Z) : Z := Z.shiftr (toUint32 a) n.
Definition imul (a b : Z) : Z := toInt32 (toInt32 a * toInt32 b).

(** [class Random]: the only field is the 32-bit [state]. *)
Record t : Type := { state : Z }.

Definition constructor (seed : Z) : t := {| state := seed |}.

(** The state after one [next()]. *)
Definition advance (r : t) : t :=
  let s := bor (state r) 0 in
  {| state := bor (s + 0x6d2b79f5) 0 |}.

(** The integer [(t ^ (t >>> 14)) >>> 0] computed from the new state. *)
Definition output (s : Z) : Z :=
  let t := imul (bxor s (ushr s 15)) (bor 1 s) in
  let t := bxor (t + imul (bxor t (ushr t 7)) (bor 61 t)) t in
  ushr (bxor t (ushr t 14)) 0.

Definition next (r : t) : R * t :=
  let r' := advance r in
  ((IZR (output (state r')) / 4294967296)%R, r').

Definition reset (r : t) (seed : Z) : t := {| state := seed |}.

End Random.

Module LinearAlgebra.

(** [arr.reduce((a, b) => a + b)] without initial value: raises on []. *)
Definition reduce_sum (arr : list R) : result R :=
  match arr with
  | [] => Throw TypeError
  | x :: xs => Ok (fold_left Rplus xs x)
  end.

(** [Math.max(...arr)] on a non-empty array ([-Infinity] on the empty
    one is not a real; [softmax] raises there before using it). *)
Definition max_of (x : R) (xs : list R) : R := fold_left Rmax xs x.

Definition softmax (arr : list R) (beta : R) : result (list R) :=
  let max := match arr with [] => 0 | x :: xs => max_of x xs end in
  let exps := map (fun x => exp (beta * (x - max))) arr in
  match reduce_sum exps with
  | Throw e => Throw e
  | Ok sum => Ok (map (fun x => x / sum) exps)
  end.

Definition softmin (arr : list R) (beta : R) : result (list R) :=
  softmax (map (fun x => - x) arr) beta.

Definition normalize (arr : list R) : list R :=
  let sum := fold_left Rplus arr 0 in
  map (fun x => x / sum) arr.

End LinearAlgebra.

(** ** models/belief.model.ts *)

Definition Distribution : Type := Obj R.
Definition Preferences : Type := Obj R.

(** The abstract members of [abstract class Belief<S>]. *)
Class Belief (B : Type) : Type := {
  states : B -> list string;
  probability : B -> string -> R;
  update : B -> Distribution -> B;
  copy : B -> B
}.

Module BeliefBase.
Section Methods.
Context {B : Type} `{Belief B}.

(** [argmax()]: [None] is the [undefined] of [this.states[0]] on an
    empty state list. *)
Definition argmax (b : B) : option string :=
  fst (fold_left
         (fun (acc : option string * R) state =>
            let '(maxState, maxProb) := acc in
            let prob := probability b state in
            if Rlt_dec maxProb prob then (Some state, prob) else acc)
         (states b) (hd_error (states b), 0)).

(** The floor substituted by [other.probability(state) || 1e-10]. *)
Definition kl_floor : R := 1 / 10000000000.

Definition kl (b other : B) : R :=
  fold_left
    (fun result state =>
       let p := probability b state in
       let q := let q0 := probability other state in
                if Req_dec_T q0 0 then kl_floor else q0 in
       if Rlt_dec 0 p then result + p * ln (p / q) else result)
    (states b) 0.

Definition entropy (b : B) : R :=
  fold_left
    (fun result state =>
       let p := probability b state in
       if Rlt_dec 0 p then result - p * ln p else result)
    (states b) 0.

End Methods.
End BeliefBase.

(** ** beliefs/discrete.belief.ts *)

Module DiscreteBelief.

Record t : Type := { distribution : Distribution }.

Definition constructor (d : Distribution) : t := {| distribution := d |}.

Definition states (b : t) : list string := keys (distribution b).

Definition probability (b : t) (state : string) : R :=
  nullish (get (distribution b) state) 0.

(** First loop of [update]: fills [newDist] and accumulates [sum]. *)
Definition update_products (b : t) (likelihood : Distribution)
  : Distribution * R :=
  fold_left
    (fun (acc : Distribution * R) state =>
       let '(newDist, sum) := acc in
       let newDist :=
         set newDist state
           (to_number (get (distribution b) state)
            * nullish (get likelihood state) 0) in
       (newDist, sum + to_number (get newDist state)))
    (states b) ([], 0).

(** Second loop of [update]: [newDist[state] /= sum]. *)
Definition update_divide (b : t) (newDist : Distribution) (sum : R)
  : Distribution :=
  fold_left
    (fun newDist state =>
       set newDist state (to_number (get newDist state) / sum))
    (states b) newDist.

Definition update (b : t) (likelihood : Distribution) : t :=
  let '(newDist, sum) := update_products b likelihood in
  let newDist :=
    if Rlt_dec 0 sum then update_divide b newDist sum else newDist in
  constructor newDist.

(** [{ ...obj }] *)
Definition spread {V} (o : Obj V) : Obj V :=
  fold_left (fun acc kv => set acc (fst kv) (snd kv)) o [].

Definition copy (b : t) : t := constructor (spread (distribution b)).

End DiscreteBelief.

#[export] Instance DiscreteBelief_Belief : Belief DiscreteBelief.t := {
  states := DiscreteBelief.states;
  probability := DiscreteBelief.probability;
  update := DiscreteBelief.update;
  copy := DiscreteBelief.copy
}.

(** ** beliefs/gaussian.belief.ts *)

Module GaussianBelief.

Record t : Type := { mean : R; variance : R }.

(** [new GaussianBelief(mean, variance)]: the constructor only stores
    its two parameter properties. *)
Definition constructor (mean variance : R) : t :=
  {| mean := mean; variance := variance |}.

Definition entropy (b : t) : R :=
  (1 / 2) * ln (2 * PI * Rtrigo_def.exp 1 * variance b).

Definition copy (b : t) : t := constructor (mean b) (variance b).

End GaussianBelief.

(** ** observation/gaussian.observation.ts *)

Module GaussianObservation.

Record config : Type := {
  cfg_scale : R;
  cfg_bias : option R;
  cfg_noise : R
}.

Record t : Type := { scale : R; bias : R; noise : R }.

Definition constructor (c : config) : t :=
  {| scale := cfg_scale c;
     bias := nullish (cfg_bias c) 0;
     noise := cfg_noise c |}.

(** Kalman-filter update. *)
Definition update (m : t) (belief : GaussianBelief.t) (observation : R)
  : GaussianBelief.t :=
  let c := scale m in
  let predictedObs := c * GaussianBelief.mean belief + bias m in
  let S := c * c * GaussianBelief.variance belief + noise m in
  let K := (c * GaussianBelief.variance belief) / S in
  GaussianBelief.constructor
    (GaussianBelief.mean belief + K * (observation - predictedObs))
    ((1 - K * c) * GaussianBelief.variance belief).

Definition expectedObservation (m : t) (belief : GaussianBelief.t) : R :=
  scale m * GaussianBelief.mean belief + bias m.

End GaussianObservation.

(** ** models/observation.model.ts, observation/discrete.observation.ts *)

Definition ObservationMatrix : Type := Obj (Obj R).

(** [interface IObservationModel<O, S>] as seen by its readers. *)
Class IObservationModel (M : Type) : Type := {
  observations : M -> list string;
  om_probability : M -> string -> string -> R;
  getLikelihood : M -> string -> Distribution
}.

(** [matrix[observation]?.[state] ?? 0] and [matrix[observation] ?? {}],
    on own properties.  (For a key that names a member of
    [Object.prototype] and is no row of the matrix, the code goes on
    with that member, which is not a distribution; theorems about
    unknown keys exclude such names.) *)
Definition matrix_probability (matrix : ObservationMatrix)
  (observation state : string) : R :=
  match get matrix observation with
  | None => 0
  | Some row => nullish (get row state) 0
  end.

Definition matrix_likelihood (matrix : ObservationMatrix)
  (observation : string) : Distribution :=
  nullish (get matrix observation) [].

Module DiscreteObservation.

Record t : Type := { matrix : ObservationMatrix }.

Definition constructor (m : ObservationMatrix) : t := {| matrix := m |}.

Definition observations (m : t) : list string := keys (matrix m).

Definition states (m : t) : list string :=
  match observations m with
  | [] => []
  | firstObs :: _ => keys (nullish (get (matrix m) firstObs) [])
  end.

Definition getLikelihood (m : t) (observation : string) : Distribution :=
  matrix_likelihood (matrix m) observation.

Definition probability (m : t) (observation state : string) : R :=
  matrix_probability (matrix m) observation state.

End DiscreteObservation.

#[export] Instance DiscreteObservation_model
  : IObservationModel DiscreteObservation.t := {
  observations := DiscreteObservation.observations;
  om_probability := DiscreteObservation.probability;
  getLikelihood := DiscreteObservation.getLikelihood
}.

(** ** observation/dirichlet.observation.ts *)

Module DirichletObservation.

Definition ObservationConcentrations : Type := Obj (Obj R).

(** [concentrations] and the private cache [_matrix] ([None] = null). *)
Record t : Type := {
  concentrations : ObservationConcentrations;
  _matrix : option ObservationMatrix
}.

(** The constructor rebuilds the outer object and spreads every row. *)
Definition constructor (concentrations : ObservationConcentrations) : t :=
  {| concentrations :=
       fold_left
         (fun acc obs =>
            set acc obs
              (DiscreteBelief.spread (nullish (get concentrations obs) [])))
         (keys concentrations) [];
     _matrix := None |}.

Definition observations (m : t) : list string := keys (concentrations m).

Definition states (m : t) : list string :=
  match observations m with
  | [] => []
  | firstObs :: _ => keys (nullish (get (concentrations m) firstObs) [])
  end.

(** [this.concentrations[o][s]] read as a number. *)
Definition cell (c : ObservationConcentrations) (o s : string) : R :=
  to_number (get (nullish (get c o) []) s).

(** [normalize()]: column sums, then one row per observation. *)
Definition colSum (m : t) (s : string) : R :=
  fold_left (fun acc o => acc + cell (concentrations m) o s)
    (observations m) 0.

Definition normalize (m : t) : ObservationMatrix :=
  fold_left
    (fun matrix o =>
       set matrix o
         (fold_left
            (fun row s =>
               set row s
                 (if Rlt_dec 0 (colSum m s)
                  then cell (concentrations m) o s / colSum m s
                  else 0))
            (states m) []))
    (observations m) [].

(** The [matrix] getter: fills the cache on first read. *)
Definition matrix (m : t) : ObservationMatrix * t :=
  match _matrix m with
  | Some cached => (cached, m)
  | None =>
      let computed := normalize m in
      (computed,
       {| concentrations := concentrations m; _matrix := Some computed |})
  end.

Definition getLikelihood (m : t) (observation : string) : Distribution * t :=
  let '(mat, m') := matrix m in (matrix_likelihood mat observation, m').

Definition probability (m : t) (observation state : string) : R * t :=
  let '(mat, m') := matrix m in (matrix_probability mat observation state, m').

(** The properties of a built-in function that a strict-mode
    increment cannot touch: [name] and [length] are read-only, and
    reading [caller] or [arguments] raises. *)
Definition function_guarded (state : string) : bool :=
  existsb (String.eqb state) ["name"; "length"; "caller"; "arguments"]%string.

(** One iteration of the loop of [learn]:
    [this.concentrations[observation][state] += posteriorBelief[state] ?? 0].
    Reading a property of the missing row [undefined] raises.  For a
    key that names a member of [Object.prototype] the row read is that
    member: the increment lands on the built-in, which is no part of
    the model, and raises only on a guarded property of a function. *)
Definition learn_step (observation : string) (posteriorBelief : Distribution)
  (c : ObservationConcentrations) (state : string)
  : result ObservationConcentrations :=
  match read c observation with
  | Undefined => Throw TypeError
  | Inherited =>
      if String.eqb observation "__proto__" then Ok c
      else if function_guarded state then Throw TypeError else Ok c
  | Own row =>
      Ok (set c observation
            (set row state
               (to_number (get row state)
                + nullish (get posteriorBelief state) 0)))
  end.

Fixpoint learn_loop (observation : string) (posteriorBelief : Distribution)
  (c : ObservationConcentrations) (sts : list string)
  : result unit * ObservationConcentrations :=
  match sts with
  | [] => (Ok tt, c)
  | state :: rest =>
      match learn_step observation posteriorBelief c state with
      | Throw e => (Throw e, c)
      | Ok c' => learn_loop observation posteriorBelief c' rest
      end
  end.

(** [learn]: the outcome and the object as the call leaves it; the
    cache is dropped only when the loop completes. *)
Definition learn (m : t) (observation : string)
  (posteriorBelief : Distribution) : result unit * t :=
  match learn_loop observation posteriorBelief (concentrations m) (states m)
  with
  | (Ok _, c) => (Ok tt, {| concentrations := c; _matrix := None |})
  | (Throw e, c) => (Throw e, {| concentrations := c; _matrix := _matrix m |})
  end.

End DirichletObservation.

(** A Dirichlet model read through the interface: the value of the
    getter, whether served from the cache or computed. *)
#[export] Instance DirichletObservation_model
  : IObservationModel DirichletObservation.t := {
  observations := DirichletObservation.observations;
  om_probability := fun m o s => fst (DirichletObservation.probability m o s);
  getLikelihood := fun m o => fst (DirichletObservation.getLikelihood m o)
}.

(** ** transition/discrete.transition.ts *)

Module DiscreteTransition.

Definition TransitionMatrix : Type := Obj (Obj (Obj R)).

(** [belief.states], before this module's own [states] shadows it. *)
Definition belief_states {B : Type} `{Belief B} (belief : B) : list string :=
  states belief.

Record t : Type := { matrix : TransitionMatrix }.

Definition constructor (m : TransitionMatrix) : t := {| matrix := m |}.

Definition actions (m : t) : list string := keys (matrix m).

Definition states (m : t) : list string :=
  match actions m with
  | [] => []
  | firstAction :: _ => keys (nullish (get (matrix m) firstAction) [])
  end.

(** [this.matrix[action]?.[state] ?? {}] *)
Definition getTransition (m : t) (state action : string) : Distribution :=
  match get (matrix m) action with
  | None => []
  | Some rows => nullish (get rows state) []
  end.

Definition predict {B : Type} `{Belief B} (m : t) (belief : B)
  (action : string) : DiscreteBelief.t :=
  let newDist : Distribution :=
    fold_left (fun nd state => set nd state 0) (states m) [] in
  let newDist :=
    fold_left
      (fun nd currentState =>
         let transition := getTransition m currentState action in
         let currentProb := probability belief currentState in
         fold_left
           (fun nd nextState =>
              set nd nextState
                (to_number (get nd nextState)
                 + to_number (get transition nextState) * currentProb))
           (keys transition) nd)
      (belief_states belief) newDist in
  DiscreteBelief.constructor newDist.

End DiscreteTransition.

(** ** factory.ts: discrete EFE helpers *)

Module Factory.
Section DiscreteEFE.
Context {B : Type} `{Belief B} {M : Type} `{IObservationModel M}.

Definition computeAmbiguity (predictedBelief : B) (observationModel : M) : R :=
  fold_left
    (fun ambiguity state =>
       let stateProb := probability predictedBelief state in
       fold_left
         (fun ambiguity obs =>
            let obsProb := om_probability observationModel obs state in
            if Rlt_dec 0 obsProb then
              if Rlt_dec 0 stateProb
              then ambiguity - stateProb * obsProb * ln obsProb
              else ambiguity
            else ambiguity)
         (observations observationModel) ambiguity)
    (states predictedBelief) 0.

(** Inner loop of [computeRisk]: Q(o). *)
Definition expectedObsProb (predictedBelief : B) (observationModel : M)
  (obs : string) : R :=
  fold_left
    (fun acc state =>
       acc + om_probability observationModel obs state
             * probability predictedBelief state)
    (states predictedBelief) 0.

(** [preferences[obs] ?? -10] as the product of [computeRisk] converts
    it to a number: an inherited member is not nullish, so the default
    is not taken, and a function or object converts to NaN. *)
Definition preferredLogProb (preferences : Preferences) (obs : string)
  : number :=
  match read preferences obs with
  | Own v => Num v
  | Undefined => Num (-10)
  | Inherited => NaN
  end.

Definition computeRisk (predictedBelief : B) (observationModel : M)
  (preferences : Preferences) : number :=
  fold_left
    (fun risk obs =>
       let e := expectedObsProb predictedBelief observationModel obs in
       let preferredLogProb := preferredLogProb preferences obs in
       if Rlt_dec 0 e
       then number_minus risk (number_times e preferredLogProb)
       else risk)
    (observations observationModel) (Num 0).

Definition exportBelief (belief : B) : Distribution :=
  fold_left (fun result state => set result state (probability belief state))
    (states belief) [].

(** The scorer [createAgent] hands to the generic agent: ambiguity +
    risk.  Where the risk is NaN so is the score in the code; the
    agent's arithmetic is on reals, and the embedding goes on with
    the real of [number_value] there (see the conventions). *)
Definition discreteEFE (observationModel : M) (preferences : Preferences)
  (predicted : B) : R :=
  computeAmbiguity predicted observationModel
  + number_value (computeRisk predicted observationModel preferences).

End DiscreteEFE.
End Factory.

(** ** models/agent.model.ts *)

(** Action selection shared verbatim by the historical and the generic
    [act]: softmin, habits, one draw, first action of the policy. *)
Module Selection.

Definition getPolicyHabit (habits : Obj R) (policy : list string) : R :=
  match keys habits with
  | [] => 1
  | _ => fold_left (fun prior action => prior * nullish (get habits action) 1)
           policy 1
  end.

Fixpoint sampleLoop (rand : R) (probs : list R) (i : Z) (cumulative : R)
  : option Z :=
  match probs with
  | [] => None
  | p :: rest =>
      let cumulative := cumulative + p in
      if Rlt_dec rand cumulative then Some i
      else sampleLoop rand rest (i + 1)%Z cumulative
  end.

Definition sampleIndex (random : Random.t) (probs : list R) : Z * Random.t :=
  let '(rand, random') := Random.next random in
  (match sampleLoop rand probs 0%Z 0 with
   | Some i => i
   | None => (Z.of_nat (List.length probs) - 1)%Z
   end, random').

(** [arr[idx]] for an integer index. *)
Definition index {T} (arr : list T) (idx : Z) : option T :=
  if (idx <? 0)%Z then None else nth_error arr (Z.to_nat idx).

(** From [LinearAlgebra.softmin(policyEFEs, precision)] to the
    returned action.  [Ok None] is [undefined] (first element of an
    empty policy); the generator is threaded through. *)
Definition select (precision : R) (habits : Obj R) (random : Random.t)
  (policies : list (list string)) (policyEFEs : list R)
  : result (option string) * Random.t :=
  match LinearAlgebra.softmin policyEFEs precision with
  | Throw e => (Throw e, random)
  | Ok policyProbs =>
      let policyProbs :=
        match keys habits with
        | [] => policyProbs
        | _ => LinearAlgebra.normalize
                 (map (fun pi => fst pi * getPolicyHabit habits (snd pi))
                    (combine policyProbs policies))
        end in
      let '(idx, random') := sampleIndex random policyProbs in
      match index policies idx with
      | None => (Throw TypeError, random')
      | Some policy => (Ok (hd_error policy), random')
      end
  end.

End Selection.

(** The generic [Agent<A, B, O>] (second class of agent.model.ts).
    [W] is the mutable state of the models the agent holds by
    reference (the concentrations of learnable models); the models'
    methods read it and only [_afterObserve] changes it. *)
Module Agent.
Section Generic.
Variables B Obs W : Type.

Record Models : Type := {
  belief_copy : B -> B;
  actions : W -> list string;
  predict : W -> B -> string -> B;
  om_update : W -> B -> Obs -> B;
  computeEFE : W -> B -> R;
  afterObserve :
    option (Obs -> B -> option string -> option B -> W -> result unit * W)
}.

Variable models : Models.

Record t : Type := {
  _belief : B;
  _random : Random.t;
  _planningHorizon : Z;
  _precision : R;
  _habits : Obj R;
  _beamWidth : Z;
  _previousBelief : option B;
  _previousAction : option string
}.

(** [random ?? new Random()]: without a generator the seed is
    [Date.now()], the clock value [now] at construction.  The
    horizon and the beam width are integers, so [Math.floor] is the
    identity on them. *)
Definition constructor (belief : B) (random : option Random.t) (now : Z)
  (planningHorizon : Z) (precision : R) (habits : Obj R) (beamWidth : Z)
  : t :=
  {| _belief := belief_copy models belief;
     _random := nullish random (Random.constructor now);
     _planningHorizon := Z.max 1 planningHorizon;
     _precision := Rmax 0 precision;
     _habits := habits;
     _beamWidth := Z.max 0 beamWidth;
     _previousBelief := None;
     _previousAction := None |}.

Definition belief (ag : t) : B := belief_copy models (_belief ag).

Definition with_belief (ag : t) (b : B) : t :=
  {| _belief := b;
     _random := _random ag;
     _planningHorizon := _planningHorizon ag;
     _precision := _precision ag;
     _habits := _habits ag;
     _beamWidth := _beamWidth ag;
     _previousBelief := _previousBelief ag;
     _previousAction := _previousAction ag |}.

Definition with_random (ag : t) (r : Random.t) : t :=
  {| _belief := _belief ag;
     _random := r;
     _planningHorizon := _planningHorizon ag;
     _precision := _precision ag;
     _habits := _habits ag;
     _beamWidth := _beamWidth ag;
     _previousBelief := _previousBelief ag;
     _previousAction := _previousAction ag |}.

Definition with_previous (ag : t) (b : option B) (a : option string) : t :=
  {| _belief := _belief ag;
     _random := _random ag;
     _planningHorizon := _planningHorizon ag;
     _precision := _precision ag;
     _habits := _habits ag;
     _beamWidth := _beamWidth ag;
     _previousBelief := b;
     _previousAction := a |}.

Definition observe (ag : t) (w : W) (observation : Obs) : t :=
  with_belief ag (om_update models w (_belief ag) observation).

Definition resetBelief (ag : t) (b : B) : t :=
  with_belief ag (belief_copy models b).

(** A beam entry [{ policy, efe, belief }]. *)
Record Beam : Type := { policy : list string; efe : R; beam_belief : B }.

Definition initialBeams (ag : t) (w : W) : list Beam :=
  map (fun action =>
         let predicted := predict models w (_belief ag) action in
         {| policy := [action];
            efe := computeEFE models w predicted;
            beam_belief := predicted |})
    (actions models w).

Definition expand (w : W) (beams : list Beam) : list Beam :=
  flat_map
    (fun beam =>
       map (fun action =>
              let predicted := predict models w (beam_belief beam) action in
              {| policy := policy beam ++ [action];
                 efe := efe beam + computeEFE models w predicted;
                 beam_belief := predicted |})
         (actions models w))
    beams.

(** [nextBeams.sort((a, b) => a.efe - b.efe)]: a stable sort,
    ascending in [efe]. *)
Fixpoint insertBeam (x : Beam) (sorted : list Beam) : list Beam :=
  match sorted with
  | [] => [x]
  | y :: rest =>
      if Rle_dec (efe x) (efe y) then x :: sorted
      else y :: insertBeam x rest
  end.

Definition sortBeams (beams : list Beam) : list Beam :=
  fold_right insertBeam [] beams.

Definition prune (beamWidth : Z) (nextBeams : list Beam) : list Beam :=
  if ((0 <? beamWidth) && (beamWidth <? Z.of_nat (List.length nextBeams)))%Z
  then firstn (Z.to_nat beamWidth) (sortBeams nextBeams)
  else nextBeams.

(** The loop [for (depth = 1; depth < horizon; depth++)]. *)
Fixpoint searchLoop (w : W) (beamWidth : Z) (iterations : nat)
  (beams : list Beam) : list Beam :=
  match iterations with
  | 0%nat => beams
  | S n => searchLoop w beamWidth n (prune beamWidth (expand w beams))
  end.

Definition search (ag : t) (w : W) : list Beam :=
  searchLoop w (_beamWidth ag) (Z.to_nat (_planningHorizon ag - 1))
    (initialBeams ag w).

Definition act (ag : t) (w : W) : result (option string) * t :=
  let beams := search ag w in
  let policies := map policy beams in
  let policyEFEs := map efe beams in
  let '(r, random') :=
    Selection.select (_precision ag) (_habits ag) (_random ag)
      policies policyEFEs in
  (r, with_random ag random').

(** [step]: a raise in the callback or in [act] leaves the agent as
    it is at that point. *)
Definition step (ag : t) (w : W) (observation : Obs)
  : result (option string) * t * W :=
  let ag := observe ag w observation in
  let '(cb, w) :=
    match afterObserve models with
    | None => (Ok tt, w)
    | Some f =>
        f observation (_belief ag) (_previousAction ag)
          (_previousBelief ag) w
    end in
  match cb with
  | Throw e => (Throw e, ag, w)
  | Ok _ =>
      match act ag w with
      | (Throw e, ag) => (Throw e, ag, w)
      | (Ok action, ag) =>
          (Ok action, with_previous ag (Some (_belief ag)) action, w)
      end
  end.

End Generic.
End Agent.

(** The historical discrete [Agent<A, O, S>] (first class of
    agent.model.ts): policies are enumerated recursively and each is
    evaluated from the current belief.  Its private [computeAmbiguity]
    and [computeRisk] have the bodies of the exported helpers. *)
Module LegacyAgent.
Section Discrete.
Context {B : Type} `{Belief B} {M : Type} `{IObservationModel M}.

Variable transition_actions : list string.
Variable transition_predict : B -> string -> B.
Variable observationModel : M.
Variable preferences : Preferences.

Record t : Type := {
  _belief : B;
  _random : Random.t;
  _planningHorizon : Z;
  _precision : R;
  _habits : Obj R
}.

Fixpoint generatePolicies (depth : nat) : list (list string) :=
  match depth with
  | 0%nat => map (fun a => [a]) transition_actions
  | S d =>
      match d with
      | 0%nat => map (fun a => [a]) transition_actions
      | S _ =>
          let subPolicies := generatePolicies d in
          flat_map
            (fun action => map (fun sub => action :: sub) subPolicies)
            transition_actions
      end
  end.

Definition evaluatePolicy (ag : t) (policy : list string) : R :=
  fst (fold_left
         (fun (acc : R * B) action =>
            let '(totalEFE, currentBelief) := acc in
            let predicted := transition_predict currentBelief action in
            (totalEFE
             + (Factory.computeAmbiguity predicted observationModel
                + number_value
                    (Factory.computeRisk predicted observationModel
                       preferences)),
             predicted))
         policy (0, _belief ag)).

Definition act (ag : t) : result (option string) * t :=
  let policies := generatePolicies (Z.to_nat (_planningHorizon ag)) in
  let policyEFEs := map (evaluatePolicy ag) policies in
  let '(r, random') :=
    Selection.select (_precision ag) (_habits ag) (_random ag)
      policies policyEFEs in
  (r, {| _belief := _belief ag;
         _random := random';
         _planningHorizon := _planningHorizon ag;
         _precision := _precision ag;
         _habits := _habits ag |}).

End Discrete.
End LegacyAgent.

(** ** factory.ts: wiring *)

Module Create.
Section Wiring.
Variables B Obs W : Type.

(** The fields of [AgentConfig] / [GaussianAgentConfig] that are
    not models ([None] = the property is absent). *)
Record config : Type := {
  cfg_belief : B;
  cfg_seed : option Z;
  cfg_planningHorizon : option Z;
  cfg_precision : option R;
  cfg_habits : option (Obj R);
  cfg_beamWidth : option Z
}.

(** [config.seed !== undefined ? new Random(config.seed) : new Random()];
    [now] is what [Date.now()] returns at that moment. *)
Definition newRandom (seed : option Z) (now : Z) : Random.t :=
  match seed with
  | Some s => Random.constructor s
  | None => Random.constructor now
  end.

Definition createAgent (models : Agent.Models B Obs W) (c : config)
  (now : Z) : Agent.t B :=
  Agent.constructor B Obs W models (cfg_belief c)
    (Some (newRandom (cfg_seed c) now)) now
    (nullish (cfg_planningHorizon c) 1%Z)
    (nullish (cfg_precision c) 1)
    (nullish (cfg_habits c) [])
    (nullish (cfg_beamWidth c) 0%Z).

(** Outcome of evaluating [new Agent(...)]: the constructor body has
    no [throw] and calls only [belief.copy()], [Math.max] and
    [Math.floor]. *)
Definition new_Agent (models : Agent.Models B Obs W) (belief : B)
  (random : option Random.t) (now : Z) (planningHorizon : Z)
  (precision : R) (habits : Obj R) (beamWidth : Z)
  : result (Agent.t B) :=
  Ok (Agent.constructor B Obs W models belief random now planningHorizon
        precision habits beamWidth).

(** A client driving one agent. *)
Inductive call : Type :=
| CallObserve (observation : Obs)
| CallAct
| CallStep (observation : Obs).

(** The actions (or raises) a sequence of calls produces, and the
    agent and models it leaves. *)
Fixpoint run (models : Agent.Models B Obs W) (calls : list call)
  (ag : Agent.t B) (w : W)
  : list (result (option string)) * Agent.t B * W :=
  match calls with
  | [] => ([], ag, w)
  | CallObserve o :: rest =>
      run models rest (Agent.observe B Obs W models ag w o) w
  | CallAct :: rest =>
      let '(r, ag') := Agent.act B Obs W models ag w in
      let '(out, agf, wf) := run models rest ag' w in
      (r :: out, agf, wf)
  | CallStep o :: rest =>
      let '(r, ag', w') := Agent.step B Obs W models ag w o in
      let '(out, agf, wf) := run models rest ag' w' in
      (r :: out, agf, wf)
  end.

End Wiring.

(** Outcome of evaluating [new GaussianBelief(mean, variance)]: the
    constructor has an empty body. *)
Definition new_GaussianBelief (mean variance : R) : result GaussianBelief.t :=
  Ok (GaussianBelief.constructor mean variance).

(** The models [createAgent] packages for a discrete agent: the scorer
    is ambiguity + risk on the observation model as it is in [w]. *)
Definition discreteModels {B M : Type} `{Belief B} `{IObservationModel M}
  (Obs W : Type)
  (actions : W -> list string) (predict : W -> B -> string -> B)
  (om_update : W -> B -> Obs -> B) (observationModel : W -> M)
  (preferences : Preferences)
  (afterObserve :
     option (Obs -> B -> option string -> option B -> W -> result unit * W))
  : Agent.Models B Obs W :=
  {| Agent.belief_copy := copy;
     Agent.actions := actions;
     Agent.predict := predict;
     Agent.om_update := om_update;
     Agent.computeEFE :=
       fun w predicted =>
         Factory.discreteEFE (observationModel w) preferences predicted;
     Agent.afterObserve := afterObserve |}.

End Create.

(** ** Sums as the specification writes them *)

(** [sum_over l f] is Σ_{s ∈ l} f(s). *)
Definition sum_over (l : list string) (f : string -> R) : R :=
  fold_right (fun s acc => f s + acc) 0 l.

(** Σ of a list of numbers. *)
Definition total_of (l : list R) : R := fold_right Rplus 0 l.

(** * Properties *)

(** ** Objects *)

Module JsObjectFacts.

Lemma get_set_same {V} (o : Obj V) k v : get (set o k v) k = Some v.
Proof.
  induction o as [|[k' v'] rest IH]; simpl.
  - destruct (string_dec k k); congruence.
  - destruct (string_dec k' k) as [E|N]; simpl.
    + destruct (string_dec k' k); congruence.
    + destruct (string_dec k' k); [contradiction|exact IH].
Qed.

Lemma get_set_other {V} (o : Obj V) k k' v :
  k <> k' -> get (set o k v) k' = get o k'.
Proof.
  intros Hne. induction o as [|[k0 v0] rest IH]; simpl.
  - destruct (string_dec k k'); [contradiction|reflexivity].
  - destruct (string_dec k0 k) as [E|N]; simpl.
    + subst k0. destruct (string_dec k k'); [contradiction|reflexivity].
    + destruct (string_dec k0 k'); [reflexivity|exact IH].
Qed.

Lemma get_in_keys {V} (o : Obj V) k : In k (keys o) <-> get o k <> None.
Proof.
  induction o as [|[k0 v0] rest IH]; simpl.
  - split; [tauto|congruence].
  - destruct (string_dec k0 k) as [E|N].
    + split; [congruence|auto].
    + rewrite <- IH. split; [intros [H|H]; [contradiction|exact H]|auto].
Qed.

Lemma get_some_in_keys {V} (o : Obj V) k v : get o k = Some v -> In k (keys o).
Proof. intros H. apply get_in_keys. congruence. Qed.

Lemma get_none_not_in {V} (o : Obj V) k : get o k = None <-> ~ In k (keys o).
Proof.
  rewrite get_in_keys.
  destruct (get o k); split; intro H;
    first [congruence | tauto | exfalso; apply H; discriminate].
Qed.

Lemma keys_set_present {V} (o : Obj V) k v :
  In k (keys o) -> keys (set o k v) = keys o.
Proof.
  induction o as [|[k0 v0] rest IH]; simpl; [tauto|].
  intros Hin. destruct (string_dec k0 k) as [E|N]; simpl.
  - reflexivity.
  - f_equal. apply IH. destruct Hin; [contradiction|assumption].
Qed.

Lemma keys_set_absent {V} (o : Obj V) k v :
  ~ In k (keys o) -> keys (set o k v) = keys o ++ [k].
Proof.
  induction o as [|[k0 v0] rest IH]; simpl; [reflexivity|].
  intros Hnin. destruct (string_dec k0 k) as [E|N]; simpl.
  - exfalso. auto.
  - f_equal. apply IH. tauto.
Qed.

Lemma wf_set {V} (o : Obj V) k v : wf o -> wf (set o k v).
Proof.
  unfold wf. intros H.
  destruct (in_dec string_dec k (keys o)) as [Hin|Hnin].
  - rewrite keys_set_present; assumption.
  - rewrite keys_set_absent by assumption.
    apply NoDup_app; simpl; auto.
    + constructor; [tauto|constructor].
    + intros x Hx [E|[]]. subst. contradiction.
Qed.

(** Reading an own key found by enumeration. *)
Lemma get_cons_head {V} (k : string) (v : V) rest : get ((k, v) :: rest) k = Some v.
Proof. simpl. destruct (string_dec k k); congruence. Qed.

Lemma get_cons_tail {V} (k k' : string) (v : V) rest :
  k <> k' -> get ((k, v) :: rest) k' = get rest k'.
Proof. intros. simpl. destruct (string_dec k k'); [contradiction|reflexivity]. Qed.

Lemma get_app_notin {V} (pre o : Obj V) k :
  ~ In k (keys pre) -> get (pre ++ o) k = get o k.
Proof.
  induction pre as [|[k0 v0] pre IH]; simpl; [reflexivity|].
  intros Hn. destruct (string_dec k0 k); [exfalso; auto|apply IH; tauto].
Qed.

Lemma set_app_notin {V} (pre o : Obj V) k v :
  ~ In k (keys pre) -> set (pre ++ o) k v = pre ++ set o k v.
Proof.
  induction pre as [|[k0 v0] pre IH]; simpl; [reflexivity|].
  intros Hn. destruct (string_dec k0 k); [exfalso; auto|].
  f_equal. apply IH. tauto.
Qed.

Lemma set_absent {V} (o : Obj V) k v :
  ~ In k (keys o) -> set o k v = o ++ [(k, v)].
Proof.
  intros Hn. rewrite <- (app_nil_r o) at 1.
  rewrite set_app_notin by assumption. reflexivity.
Qed.

Lemma keys_app {V} (a b : Obj V) : keys (a ++ b) = keys a ++ keys b.
Proof. unfold keys. apply map_app. Qed.

(** Building an object by assigning fresh keys in order. *)
Lemma build_fresh {V} (f : string -> V) (ks : list string) :
  forall acc : Obj V,
    NoDup (keys acc ++ ks) ->
    fold_left (fun o k => set o k (f k)) ks acc
    = acc ++ map (fun k => (k, f k)) ks.
Proof.
  induction ks as [|k ks IH]; intros acc Hnd; simpl.
  - now rewrite app_nil_r.
  - assert (Hk : ~ In k (keys acc)).
    { intro Hin. apply NoDup_remove_2 in Hnd. apply Hnd.
      apply in_or_app. now left. }
    rewrite set_absent by assumption.
    rewrite IH.
    + now rewrite <- app_assoc.
    + rewrite keys_app. simpl. now rewrite <- app_assoc.
Qed.

(** Rewriting every own property in place, in enumeration order. *)
Lemma rewrite_in_place (g : R -> R) (rest : Obj R) :
  forall pre : Obj R,
    NoDup (keys (pre ++ rest)) ->
    fold_left (fun o k => set o k (g (to_number (get o k)))) (keys rest)
      (pre ++ rest)
    = pre ++ map (fun kv => (fst kv, g (snd kv))) rest.
Proof.
  induction rest as [|[k v] rest IH]; intros pre Hnd; simpl.
  - reflexivity.
  - assert (Hk : ~ In k (keys pre)).
    { rewrite keys_app in Hnd. simpl in Hnd.
      apply NoDup_remove_2 in Hnd. intro Hin. apply Hnd.
      apply in_or_app. now left. }
    rewrite get_app_notin by assumption.
    rewrite set_app_notin by assumption.
    rewrite get_cons_head. simpl.
    destruct (string_dec k k) as [_|N]; [|congruence].
    change (pre ++ (k, g v) :: rest) with (pre ++ [(k, g v)] ++ rest).
    rewrite app_assoc. rewrite IH.
    + now rewrite <- app_assoc.
    + rewrite <- app_assoc. simpl.
      rewrite keys_app in *. simpl in *. exact Hnd.
Qed.

Lemma get_map_values {V U} (h : string -> V -> U) (o : Obj V) k :
  get (map (fun kv => (fst kv, h (fst kv) (snd kv))) o) k
  = option_map (h k) (get o k).
Proof.
  induction o as [|[k0 v0] o IH]; simpl; [reflexivity|].
  destruct (string_dec k0 k); [subst; reflexivity|exact IH].
Qed.

Lemma get_tabulate {V} (f : string -> V) (ks : list string) k :
  get (map (fun k => (k, f k)) ks) k = if in_dec string_dec k ks then Some (f k) else None.
Proof.
  induction ks as [|k0 ks IH]; simpl; [reflexivity|].
  destruct (string_dec k0 k) as [E|N].
  - subst. reflexivity.
  - rewrite IH. destruct (in_dec string_dec k ks); reflexivity.
Qed.

Lemma keys_tabulate {V} (f : string -> V) (ks : list string) :
  keys (map (fun k => (k, f k)) ks) = ks.
Proof.
  unfold keys. rewrite map_map. simpl. apply map_id.
Qed.

Lemma keys_map_values {V U} (h : string * V -> U) (o : Obj V) :
  keys (map (fun kv => (fst kv, h kv)) o) = keys o.
Proof. unfold keys. rewrite map_map. reflexivity. Qed.

End JsObjectFacts.

Import JsObjectFacts.

(** ** Sums *)

Lemma fold_left_plus_sum_over (f : string -> R) (l : list string) (a : R) :
  fold_left (fun acc s => acc + f s) l a = a + sum_over l f.
Proof.
  revert a. induction l as [|s l IH]; intro a; simpl; [lra|].
  rewrite IH. lra.
Qed.

Lemma sum_over_ext (f g : string -> R) (l : list string) :
  (forall s, In s l -> f s = g s) -> sum_over l f = sum_over l g.
Proof.
  induction l as [|s l IH]; intro Hfg; simpl; [reflexivity|].
  rewrite Hfg by (now left). rewrite IH; [reflexivity|].
  intros. apply Hfg. now right.
Qed.

Lemma sum_over_scale (f : string -> R) (c : R) (l : list string) :
  sum_over l (fun s => f s * c) = sum_over l f * c.
Proof. induction l as [|s l IH]; simpl; [lra|]. rewrite IH. lra. Qed.

Lemma sum_over_nonneg (f : string -> R) (l : list string) :
  (forall s, In s l -> 0 <= f s) -> 0 <= sum_over l f.
Proof.
  induction l as [|s l IH]; intro Hf; simpl; [lra|].
  assert (0 <= f s) by (apply Hf; now left).
  assert (0 <= sum_over l f) by (apply IH; intros; apply Hf; now right).
  lra.
Qed.

Lemma sum_over_zero_all (f : string -> R) (l : list string) :
  (forall s, In s l -> 0 <= f s) -> sum_over l f = 0 ->
  forall s, In s l -> f s = 0.
Proof.
  induction l as [|s0 l IH]; intros Hf Hz s Hin; simpl in *; [tauto|].
  assert (0 <= f s0) by (apply Hf; now left).
  assert (0 <= sum_over l f)
    by (apply sum_over_nonneg; intros; apply Hf; now right).
  destruct Hin as [E|Hin].
  - subst. lra.
  - apply IH; auto. lra.
Qed.

Lemma sum_over_permutation (f : string -> R) (l l' : list string) :
  Permutation l l' -> sum_over l f = sum_over l' f.
Proof.
  induction 1; simpl; lra.
Qed.

(** ** DiscreteBelief.update *)

Section DiscreteUpdate.
Variable b : DiscreteBelief.t.
Variable likelihood : Distribution.

(** likelihood(s)·prior(s), in the order the code multiplies. *)
Let weighted (s : string) : R :=
  DiscreteBelief.probability b s * nullish (get likelihood s) 0.

Lemma update_products_eq :
  wf (DiscreteBelief.distribution b) ->
  DiscreteBelief.update_products b likelihood
  = (map (fun k => (k, weighted k)) (DiscreteBelief.states b),
     sum_over (DiscreteBelief.states b) weighted).
Proof.
  intro Hwf. unfold DiscreteBelief.update_products.
  assert (G : forall ks (acc : Distribution) sum,
             NoDup (keys acc ++ ks) ->
             fold_left
               (fun (acc : Distribution * R) state =>
                  let '(newDist, sum) := acc in
                  let newDist :=
                    set newDist state
                      (to_number (get (DiscreteBelief.distribution b) state)
                       * nullish (get likelihood state) 0) in
                  (newDist, sum + to_number (get newDist state)))
               ks (acc, sum)
             = (acc ++ map (fun k => (k, weighted k)) ks,
                sum + sum_over ks weighted)).
  { induction ks as [|k ks IH]; intros acc sum Hnd; simpl.
    - rewrite app_nil_r. f_equal. lra.
    - rewrite get_set_same. simpl.
      assert (Hk : ~ In k (keys acc)).
      { intro Hin. apply NoDup_remove_2 in Hnd. apply Hnd.
        apply in_or_app. now left. }
      rewrite set_absent by assumption.
      rewrite IH.
      + rewrite <- app_assoc. simpl. f_equal.
        unfold weighted, DiscreteBelief.probability, to_number. lra.
      + rewrite keys_app. simpl. now rewrite <- app_assoc. }
  rewrite G by exact Hwf.
  simpl. f_equal. lra.
Qed.

Lemma update_divide_eq (sum : R) :
  wf (DiscreteBelief.distribution b) ->
  DiscreteBelief.update_divide b
    (map (fun k => (k, weighted k)) (DiscreteBelief.states b)) sum
  = map (fun k => (k, weighted k / sum)) (DiscreteBelief.states b).
Proof.
  intro Hwf. unfold DiscreteBelief.update_divide.
  set (nd := map (fun k => (k, weighted k)) (DiscreteBelief.states b)).
  assert (Hk : keys nd = DiscreteBelief.states b) by apply keys_tabulate.
  rewrite <- Hk at 1.
  pose proof (rewrite_in_place (fun v => v / sum) nd []) as HR.
  simpl in HR. rewrite HR.
  - unfold nd. rewrite map_map. reflexivity.
  - rewrite Hk. exact Hwf.
Qed.

Lemma update_eq :
  wf (DiscreteBelief.distribution b) ->
  DiscreteBelief.distribution (DiscreteBelief.update b likelihood)
  = let total := sum_over (DiscreteBelief.states b) weighted in
    if Rlt_dec 0 total
    then map (fun k => (k, weighted k / total)) (DiscreteBelief.states b)
    else map (fun k => (k, weighted k)) (DiscreteBelief.states b).
Proof.
  intro Hwf. unfold DiscreteBelief.update.
  rewrite update_products_eq by assumption. simpl.
  destruct (Rlt_dec 0 (sum_over (DiscreteBelief.states b) weighted)).
  - simpl. now apply update_divide_eq.
  - reflexivity.
Qed.

Lemma weighted_outside (s : string) :
  ~ In s (DiscreteBelief.states b) -> weighted s = 0.
Proof.
  intro Hn. unfold weighted, DiscreteBelief.probability.
  apply get_none_not_in in Hn. rewrite Hn. simpl. lra.
Qed.

(** C2.  Bayesian update of a discrete belief: the posterior has the
    prior's states; when Σ_s likelihood(s)·prior(s) is positive,
    posterior(s) is likelihood(s)·prior(s) divided by that sum and the
    posterior sums to 1; when the sum is 0 (probabilities and
    likelihoods being non-negative) the call still returns, and the
    returned distribution assigns 0 to every state. *)
Theorem update_posterior :
  wf (DiscreteBelief.distribution b) ->
  let post := DiscreteBelief.update b likelihood in
  let total :=
    sum_over (DiscreteBelief.states b)
      (fun s => nullish (get likelihood s) 0 * DiscreteBelief.probability b s)
  in
  DiscreteBelief.states post = DiscreteBelief.states b /\
  (0 < total ->
     (forall s,
        DiscreteBelief.probability post s
        = nullish (get likelihood s) 0 * DiscreteBelief.probability b s
          / total) /\
     sum_over (DiscreteBelief.states post) (DiscreteBelief.probability post)
     = 1) /\
  ((forall s, 0 <= DiscreteBelief.probability b s) ->
   (forall s, 0 <= nullish (get likelihood s) 0) ->
   total = 0 -> forall s, DiscreteBelief.probability post s = 0).
Proof.
  intros Hwf post total.
  assert (Ht : total = sum_over (DiscreteBelief.states b) weighted).
  { apply sum_over_ext. intros. unfold weighted. lra. }
  assert (Hd := update_eq Hwf). fold post in Hd. simpl in Hd.
  rewrite <- Ht in Hd.
  destruct (Rlt_dec 0 total) as [Hpos|Hnpos].
  - assert (Hprob : forall s,
              DiscreteBelief.probability post s = weighted s / total).
    { intro s. unfold DiscreteBelief.probability at 1. rewrite Hd.
      rewrite get_tabulate.
      destruct (in_dec string_dec s (DiscreteBelief.states b)) as [Hin|Hn].
      - reflexivity.
      - simpl. rewrite weighted_outside by assumption. lra. }
    assert (Hst : DiscreteBelief.states post = DiscreteBelief.states b).
    { unfold DiscreteBelief.states at 1. rewrite Hd. apply keys_tabulate. }
    split; [exact Hst|]. split.
    + intros _. split.
      * intro s. rewrite Hprob. unfold weighted. lra.
      * rewrite Hst.
        rewrite (sum_over_ext _ (fun s => weighted s * / total)).
        -- rewrite sum_over_scale. rewrite <- Ht. field. lra.
        -- intros s _. rewrite Hprob. reflexivity.
    + intros _ _ Hz. lra.
  - split; [|split].
    + unfold DiscreteBelief.states at 1. rewrite Hd. apply keys_tabulate.
    + intro. contradiction.
    + intros Hp Hl Hz s.
      assert (Hw : forall s0, 0 <= weighted s0).
      { intro s0. unfold weighted. apply Rmult_le_pos; auto. }
      unfold DiscreteBelief.probability at 1. rewrite Hd.
      rewrite get_tabulate.
      destruct (in_dec string_dec s (DiscreteBelief.states b)) as [Hin|Hn];
        simpl; [|reflexivity].
      apply (sum_over_zero_all weighted (DiscreteBelief.states b)); auto.
      lra.
Qed.

End DiscreteUpdate.

Definition example_prior : DiscreteBelief.t :=
  DiscreteBelief.constructor [("a"%string, 1 / 2); ("b"%string, 1 / 2)].

Definition example_likelihood : Distribution :=
  [("a"%string, 9 / 10); ("b"%string, 1 / 10)].

Ltac nodup_strings :=
  repeat (constructor; [simpl; intuition discriminate|]); constructor.

Ltac lookup_cases s :=
  cbv [example_prior example_likelihood DiscreteBelief.probability
       DiscreteBelief.distribution DiscreteBelief.constructor
       get nullish to_number];
  repeat match goal with
         | |- context [string_dec ?k s] => destruct (string_dec k s)
         end;
  try lra.

Definition example_zero_likelihood : Distribution :=
  [("a"%string, 0); ("b"%string, 0)].

Lemma update_posterior_witness :
  sum_over
    (DiscreteBelief.states (DiscreteBelief.update example_prior example_likelihood))
    (DiscreteBelief.probability
       (DiscreteBelief.update example_prior example_likelihood))
  = 1 /\
  forall s,
    DiscreteBelief.probability
      (DiscreteBelief.update example_prior example_zero_likelihood) s = 0.
Proof.
  assert (Hwf : wf (DiscreteBelief.distribution example_prior))
    by (unfold wf; simpl; nodup_strings).
  split.
  - refine (proj2 (proj1 (proj2
              (update_posterior example_prior example_likelihood Hwf)) _)).
    cbv [sum_over DiscreteBelief.states example_prior example_likelihood
         DiscreteBelief.constructor DiscreteBelief.distribution keys map fst
         fold_right DiscreteBelief.probability].
    simpl. lra.
  - refine (proj2 (proj2
              (update_posterior example_prior example_zero_likelihood Hwf))
              _ _ _).
    + intro s. lookup_cases s.
    + intro s. cbv [example_zero_likelihood get nullish].
      repeat match goal with
             | |- context [string_dec ?k s] => destruct (string_dec k s)
             end; lra.
    + cbv [sum_over DiscreteBelief.states example_prior
           example_zero_likelihood DiscreteBelief.constructor
           DiscreteBelief.distribution keys map fst fold_right
           DiscreteBelief.probability].
      simpl. lra.
Defined.

(** ** GaussianObservation.update (Kalman) *)

Section Kalman.
Import GaussianObservation.

(** The gain as the documentation writes it. *)
Definition kalman_gain (m : t) (prior : GaussianBelief.t) : R :=
  GaussianBelief.variance prior * scale m
  / (scale m * scale m * GaussianBelief.variance prior + noise m).

Lemma kalman_gain_unit_scale (m : t) (prior : GaussianBelief.t) :
  scale m = 1 -> 0 < noise m -> 0 < GaussianBelief.variance prior ->
  0 < kalman_gain m prior < 1.
Proof.
  intros Hc Hn Hv. unfold kalman_gain. rewrite Hc.
  replace (1 * 1 * GaussianBelief.variance prior + noise m)
    with (GaussianBelief.variance prior + noise m) by ring.
  rewrite Rmult_1_r.
  set (v := GaussianBelief.variance prior) in *.
  set (n := noise m) in *.
  assert (0 < v + n) by lra.
  split.
  - apply Rdiv_lt_0_compat; lra.
  - apply (Rmult_lt_reg_r (v + n)); [lra|].
    unfold Rdiv. rewrite Rmult_assoc, Rinv_l by lra. lra.
Qed.

(** C3 (amended).  The Kalman update returns posterior mean
    μ + K·(y − c·μ − b) and posterior variance (1 − K·c)·σ² with
    K = σ²·c / (c²·σ² + R).  With scale 1, bias 0, noise R > 0,
    variance σ² > 0 and y ≠ μ the posterior mean lies strictly
    between μ and y (so it is strictly closer to y); with scale 1,
    R > 0 and σ² > 0 the posterior variance is strictly below σ²,
    whatever the bias. *)
Theorem kalman_update_posterior
  (m : t) (prior : GaussianBelief.t) (y : R) :
  let post := update m prior y in
  let mu := GaussianBelief.mean prior in
  let var := GaussianBelief.variance prior in
  let K := kalman_gain m prior in
  GaussianBelief.mean post = mu + K * (y - scale m * mu - bias m) /\
  GaussianBelief.variance post = (1 - K * scale m) * var /\
  (scale m = 1 -> 0 < noise m -> 0 < var ->
     GaussianBelief.variance post < var) /\
  (scale m = 1 -> bias m = 0 -> 0 < noise m -> 0 < var -> y <> mu ->
     (mu < GaussianBelief.mean post < y \/ y < GaussianBelief.mean post < mu)
     /\ Rabs (y - GaussianBelief.mean post) < Rabs (y - mu)).
Proof.
  intros post mu var K.
  assert (HK : (scale m * GaussianBelief.variance prior)
               / (scale m * scale m * GaussianBelief.variance prior + noise m)
               = K).
  { unfold K, kalman_gain. f_equal. ring. }
  assert (Hmean : GaussianBelief.mean post
                  = mu + K * (y - scale m * mu - bias m)).
  { unfold post, update. simpl. rewrite HK. fold mu. ring. }
  assert (Hvar : GaussianBelief.variance post = (1 - K * scale m) * var).
  { unfold post, update. simpl. rewrite HK. reflexivity. }
  split; [exact Hmean|]. split; [exact Hvar|]. split.
  - intros Hc Hn Hv. rewrite Hvar, Hc.
    destruct (kalman_gain_unit_scale m prior Hc Hn Hv) as [HK0 HK1].
    fold K in HK0, HK1. nra.
  - intros Hc Hb Hn Hv Hy. rewrite Hmean, Hc, Hb.
    destruct (kalman_gain_unit_scale m prior Hc Hn Hv) as [HK0 HK1].
    fold K in HK0, HK1.
    destruct (Rtotal_order mu y) as [Hlt|[Heq|Hgt]].
    + split; [left; split; nra|].
      rewrite !Rabs_pos_eq by nra. nra.
    + exfalso. apply Hy. now symmetry.
    + split; [right; split; nra|].
      rewrite !Rabs_left by nra. nra.
Qed.

End Kalman.

(** The scenario of the test suite: prior N(1, 0.1), scale 1, bias 0,
    noise 0.1, observation 3.2. *)
Definition kalman_example_model : GaussianObservation.t :=
  GaussianObservation.constructor
    {| GaussianObservation.cfg_scale := 1;
       GaussianObservation.cfg_bias := None;
       GaussianObservation.cfg_noise := 1 / 10 |}.

Definition kalman_example_prior : GaussianBelief.t :=
  GaussianBelief.constructor 1 (1 / 10).

Lemma kalman_update_posterior_witness :
  GaussianBelief.variance
    (GaussianObservation.update kalman_example_model kalman_example_prior
       (32 / 10))
  < 1 / 10 /\
  Rabs (32 / 10
        - GaussianBelief.mean
            (GaussianObservation.update kalman_example_model
               kalman_example_prior (32 / 10)))
  < Rabs (32 / 10 - 1).
Proof.
  pose proof (kalman_update_posterior kalman_example_model
                kalman_example_prior (32 / 10)) as H.
  simpl in H. destruct H as (_ & _ & Hv & Hm).
  split.
  - apply Hv; simpl; lra.
  - apply Hm; simpl; lra.
Defined.

(** With a non-zero bias the posterior mean need not move toward the
    observation: scale 1, bias 2.2, noise 0.1, prior N(1, 0.1) and
    y = 3.2 leave the mean at 1. *)
Lemma kalman_bias_counterexample :
  ~ (forall (m : GaussianObservation.t) (prior : GaussianBelief.t) (y : R),
       GaussianObservation.scale m = 1 ->
       0 < GaussianObservation.noise m ->
       0 < GaussianBelief.variance prior ->
       y <> GaussianBelief.mean prior ->
       Rabs (y - GaussianBelief.mean (GaussianObservation.update m prior y))
       < Rabs (y - GaussianBelief.mean prior)).
Proof.
  intro H.
  specialize (H {| GaussianObservation.scale := 1;
                   GaussianObservation.bias := 22 / 10;
                   GaussianObservation.noise := 1 / 10 |}
                (GaussianBelief.constructor 1 (1 / 10)) (32 / 10)).
  simpl in H.
  assert (Hlt : Rabs (32 / 10 -
                      (1 + 1 * (1 / 10) / (1 * 1 * (1 / 10) + 1 / 10)
                           * (32 / 10 - (1 * 1 + 22 / 10))))
                < Rabs (32 / 10 - 1)).
  { apply H; lra. }
  replace (32 / 10 -
           (1 + 1 * (1 / 10) / (1 * 1 * (1 / 10) + 1 / 10)
                * (32 / 10 - (1 * 1 + 22 / 10))))
    with (32 / 10 - 1) in Hlt by field.
  lra.
Qed.

(** ** Risk *)

Section Risk.
Context {B : Type} `{Belief B} {M : Type} `{IObservationModel M}.
Variable Q : B.
Variable observationModel : M.
Variable preferences : Preferences.








End Risk.

Definition risk_example_belief : DiscreteBelief.t :=
  DiscreteBelief.constructor [("a"%string, 1 / 2); ("b"%string, 1 / 2)].

Definition risk_example_model : DiscreteObservation.t :=
  DiscreteObservation.constructor
    [("o1"%string, [("a"%string, 1); ("b"%string, 0)]);
     ("o2"%string, [("a"%string, 0); ("b"%string, 1)])].

Definition risk_example_preferences : Preferences := [("o1"%string, 0)].

Ltac risk_example_probability o s :=
  cbv [om_probability DiscreteObservation_model DiscreteObservation.probability
       matrix_probability DiscreteObservation.matrix
       DiscreteObservation.constructor get nullish];
  repeat match goal with
         | |- context [string_dec ?k o] => destruct (string_dec k o)
         | |- context [string_dec ?k s] => destruct (string_dec k s)
         end; lra.







(** ** DirichletObservation.learn *)

Module DirichletObservationFacts.
Import DirichletObservation.

(** Shape promised by [Record<O, Record<S, number>>]: no repeated
    key, and every row carries exactly the states of the first row. *)
Definition well_formed (m : t) : Prop :=
  wf (concentrations m) /\
  forall o row,
    get (concentrations m) o = Some row ->
    wf row /\ forall s, In s (keys row) <-> In s (states m).

(** The cache, when filled, holds the normalisation of the current
    concentrations. *)
Definition cache_ok (m : t) : Prop :=
  forall mat, _matrix m = Some mat -> mat = normalize m.

Lemma in_keys_get {V} (o : Obj V) k :
  In k (keys o) -> exists v, get o k = Some v.
Proof.
  intro Hin. apply get_in_keys in Hin.
  destruct (get o k) as [v|]; [now exists v|congruence].
Qed.

Lemma states_nodup (m : t) : well_formed m -> NoDup (states m).
Proof.
  intros [_ Hrows]. unfold states, observations.
  destruct (keys (concentrations m)) as [|firstObs l] eqn:Hk; [constructor|].
  assert (Hin : In firstObs (keys (concentrations m))) by (rewrite Hk; now left).
  destruct (in_keys_get _ _ Hin) as [row Hrow].
  rewrite Hrow. simpl. apply (Hrows _ _ Hrow).
Qed.

Section Learn.
Variable observation : string.
Variable posteriorBelief : Distribution.

Let increment (s : string) : R := nullish (get posteriorBelief s) 0.

Lemma learn_loop_present :
  forall sts c row,
    get c observation = Some row ->
    NoDup sts ->
    (forall s, In s sts -> In s (keys row)) ->
    exists c' row',
      learn_loop observation posteriorBelief c sts = (Ok tt, c') /\
      keys c' = keys c /\
      get c' observation = Some row' /\
      (forall o, o <> observation -> get c' o = get c o) /\
      keys row' = keys row /\
      (forall s, In s sts ->
                 get row' s = Some (to_number (get row s) + increment s)) /\
      (forall s, ~ In s sts -> get row' s = get row s).
Proof.
  induction sts as [|s rest IH]; intros c row Hrow Hnd Hsub; simpl.
  - exists c, row. repeat split; auto. intros s [].
  - unfold learn_step, read. rewrite Hrow.
    set (row1 := set row s (to_number (get row s)
                            + nullish (get posteriorBelief s) 0)).
    set (c1 := set c observation row1).
    assert (Hs : In s (keys row)) by (apply Hsub; now left).
    assert (Hk1 : keys row1 = keys row) by (apply keys_set_present; exact Hs).
    inversion Hnd as [|? ? Hnotin Hnd']; subst.
    destruct (IH c1 row1) as (c' & row' & Hl & Hkc & Hg & Hoth & Hkr & Hin & Hout).
    + unfold c1. apply get_set_same.
    + exact Hnd'.
    + intros s' Hs'. rewrite Hk1. apply Hsub. now right.
    + exists c', row'. split; [exact Hl|]. split.
      { rewrite Hkc. unfold c1. apply keys_set_present.
        eapply get_some_in_keys; eauto. }
      split; [exact Hg|]. split.
      { intros o Ho. rewrite Hoth by assumption.
        unfold c1. apply get_set_other. congruence. }
      split; [congruence|]. split.
      * intros s' [E|Hs'].
        -- subst s'. rewrite Hout by assumption.
           unfold row1. rewrite get_set_same. reflexivity.
        -- rewrite Hin by assumption. unfold row1.
           rewrite get_set_other; [reflexivity|].
           intro E. subst. contradiction.
      * intros s' Hs'. rewrite Hout by (intro; apply Hs'; now right).
        unfold row1. apply get_set_other.
        intro E. apply Hs'. now left.
Qed.

Lemma learn_loop_absent :
  forall sts c,
    get c observation = None -> inherited observation = false ->
    sts <> [] ->
    learn_loop observation posteriorBelief c sts = (Throw TypeError, c).
Proof.
  intros [|s rest] c Hnone Hname Hne; [congruence|].
  simpl. unfold learn_step, read. rewrite Hnone, Hname. reflexivity.
Qed.

End Learn.

(** Reading a key [normalize] never wrote. *)
Lemma get_fold_set_other {V} (f : string -> V) (l : list string) k :
  ~ In k l ->
  forall acc : Obj V,
    get (fold_left (fun o x => set o x (f x)) l acc) k = get acc k.
Proof.
  intro Hn. induction l as [|x l IH]; intro acc; simpl; [reflexivity|].
  rewrite IH by (intro; apply Hn; now right).
  apply get_set_other. intro E. apply Hn. now left.
Qed.

Lemma normalize_unknown (m : t) (o : string) :
  ~ In o (observations m) -> get (normalize m) o = None.
Proof.
  intro Hn. unfold normalize.
  rewrite (get_fold_set_other
             (fun o =>
                fold_left
                  (fun row s =>
                     set row s
                       (if Rlt_dec 0 (colSum m s)
                        then cell (concentrations m) o s / colSum m s
                        else 0))
                  (states m) [])) by assumption.
  reflexivity.
Qed.

End DirichletObservationFacts.

Import DirichletObservationFacts.

(** C6.  For a configured observation o* and a posterior with
    non-negative values, [learn] completes and performs
    a[o*][s] += posterior(s) for every state s: the entries of row o*
    with posterior(s) > 0 strictly increase, every row of another
    observation is left as it was, no entry decreases, and the cached
    matrix is dropped. *)
Theorem learn_conjugate_increment
  (m : DirichletObservation.t) (observation : string)
  (posteriorBelief : Distribution) :
  well_formed m ->
  In observation (DirichletObservation.observations m) ->
  (forall s, 0 <= nullish (get posteriorBelief s) 0) ->
  exists m',
    DirichletObservation.learn m observation posteriorBelief = (Ok tt, m') /\
    DirichletObservation.observations m' = DirichletObservation.observations m /\
    (forall s, In s (DirichletObservation.states m) ->
       DirichletObservation.cell (DirichletObservation.concentrations m')
         observation s
       = DirichletObservation.cell (DirichletObservation.concentrations m)
           observation s
         + nullish (get posteriorBelief s) 0) /\
    (forall s, In s (DirichletObservation.states m) ->
       0 < nullish (get posteriorBelief s) 0 ->
       DirichletObservation.cell (DirichletObservation.concentrations m)
         observation s
       < DirichletObservation.cell (DirichletObservation.concentrations m')
           observation s) /\
    (forall o, o <> observation ->
       get (DirichletObservation.concentrations m') o
       = get (DirichletObservation.concentrations m) o) /\
    (forall o s,
       DirichletObservation.cell (DirichletObservation.concentrations m) o s
       <= DirichletObservation.cell (DirichletObservation.concentrations m') o s)
    /\ DirichletObservation._matrix m' = None.
Proof.
  intros Hwf Hin Hpos.
  destruct (in_keys_get _ _ Hin) as [row Hrow].
  destruct Hwf as [Hwfc Hrows].
  destruct (Hrows _ _ Hrow) as [Hwfrow Hkeys].
  assert (Hnd : NoDup (DirichletObservation.states m))
    by (apply states_nodup; split; assumption).
  destruct (learn_loop_present observation posteriorBelief
              (DirichletObservation.states m)
              (DirichletObservation.concentrations m) row Hrow Hnd)
    as (c' & row' & Hl & Hkc & Hg & Hoth & Hkr & Hinc & Hout).
  { intros s Hs. now apply Hkeys. }
  exists {| DirichletObservation.concentrations := c';
            DirichletObservation._matrix := None |}.
  assert (Hcell : forall s, In s (DirichletObservation.states m) ->
            DirichletObservation.cell c' observation s
            = DirichletObservation.cell (DirichletObservation.concentrations m)
                observation s
              + nullish (get posteriorBelief s) 0).
  { intros s Hs. unfold DirichletObservation.cell.
    rewrite Hg, Hrow. simpl. rewrite Hinc by assumption. reflexivity. }
  unfold DirichletObservation.learn. rewrite Hl. simpl.
  split; [reflexivity|]. split.
  { unfold DirichletObservation.observations. simpl. exact Hkc. }
  split; [exact Hcell|]. split.
  { intros s Hs Hp. rewrite Hcell by assumption. lra. }
  split; [exact Hoth|]. split; [|reflexivity].
  intros o s. destruct (string_dec o observation) as [E|N].
  - subst o.
    destruct (in_dec string_dec s (DirichletObservation.states m)) as [Hs|Hs].
    + rewrite Hcell by assumption. specialize (Hpos s). lra.
    + unfold DirichletObservation.cell. rewrite Hg, Hrow. simpl.
      rewrite Hout by assumption. lra.
  - unfold DirichletObservation.cell. rewrite Hoth by assumption. lra.
Qed.

(** The model of the test suite and the posterior it learns from. *)
Definition learn_example_model : DirichletObservation.t :=
  {| DirichletObservation.concentrations :=
       [("see_safe"%string, [("safe"%string, 5); ("danger"%string, 5)]);
        ("see_danger"%string, [("safe"%string, 5); ("danger"%string, 5)])];
     DirichletObservation._matrix := None |}.

Definition learn_example_posterior : Distribution :=
  [("safe"%string, 9 / 10); ("danger"%string, 1 / 10)].

Lemma learn_example_well_formed : well_formed learn_example_model.
Proof.
  split.
  - unfold wf. simpl. nodup_strings.
  - intros o row.
    cbv [learn_example_model DirichletObservation.concentrations get].
    destruct (string_dec "see_safe" o);
      [|destruct (string_dec "see_danger" o); [|discriminate]];
      intro E; injection E as <-;
      (split; [unfold wf; simpl; nodup_strings|intro s; simpl; tauto]).
Qed.

Lemma learn_conjugate_increment_witness :
  exists m',
    DirichletObservation.learn learn_example_model "see_safe"
      learn_example_posterior = (Ok tt, m') /\
    DirichletObservation.cell (DirichletObservation.concentrations m')
      "see_safe" "safe" = 59 / 10 /\
    DirichletObservation.cell (DirichletObservation.concentrations m')
      "see_danger" "safe" = 5.
Proof.
  destruct (learn_conjugate_increment learn_example_model "see_safe"
              learn_example_posterior)
    as (m' & Hl & _ & Hinc & _ & Hoth & _).
  - exact learn_example_well_formed.
  - simpl. now left.
  - intro s. cbv [learn_example_posterior get nullish].
    repeat match goal with
           | |- context [string_dec ?k s] => destruct (string_dec k s)
           end; lra.
  - exists m'. split; [exact Hl|]. split.
    + rewrite Hinc by (simpl; now left).
      unfold DirichletObservation.cell. simpl. lra.
    + unfold DirichletObservation.cell.
      rewrite Hoth by discriminate. simpl. reflexivity.
Defined.

(** C10 (amended).  On a model with at least one state, [learn] with
    an observation key that is absent from the concentrations and is
    not the name of a member of [Object.prototype] raises at the first
    increment (the row read is [undefined]) and leaves the model
    untouched, cache included; the read side tolerates the same key:
    [probability] returns 0 and [getLikelihood] the empty
    distribution. *)
Theorem learn_unknown_observation_raises
  (m : DirichletObservation.t) (observation : string)
  (posteriorBelief : Distribution) :
  ~ In observation (DirichletObservation.observations m) ->
  inherited observation = false ->
  DirichletObservation.states m <> [] ->
  DirichletObservation.learn m observation posteriorBelief
  = (Throw TypeError, m) /\
  (cache_ok m ->
   (forall s, fst (DirichletObservation.probability m observation s) = 0) /\
   fst (DirichletObservation.getLikelihood m observation) = []).
Proof.
  intros Habs Hname Hne.
  assert (Hnone : get (DirichletObservation.concentrations m) observation = None)
    by (apply get_none_not_in; exact Habs).
  split.
  - unfold DirichletObservation.learn.
    rewrite learn_loop_absent by assumption.
    destruct m; reflexivity.
  - intro Hcache.
    assert (Hmat : get (fst (DirichletObservation.matrix m)) observation = None).
    { unfold DirichletObservation.matrix.
      destruct (DirichletObservation._matrix m) as [cached|] eqn:Hc; simpl.
      - rewrite (Hcache cached Hc). now apply normalize_unknown.
      - now apply normalize_unknown. }
    unfold DirichletObservation.probability, DirichletObservation.getLikelihood.
    destruct (DirichletObservation.matrix m) as [mat m'] eqn:Hm.
    simpl in *. unfold matrix_probability, matrix_likelihood.
    rewrite Hmat. split; reflexivity.
Qed.

Lemma learn_unknown_observation_raises_witness :
  DirichletObservation.learn learn_example_model "see_nothing"
    learn_example_posterior
  = (Throw TypeError, learn_example_model) /\
  fst (DirichletObservation.probability learn_example_model
         "see_nothing" "safe") = 0.
Proof.
  destruct (learn_unknown_observation_raises learn_example_model
              "see_nothing" learn_example_posterior) as (Hl & Hread).
  - simpl. intuition discriminate.
  - reflexivity.
  - simpl. discriminate.
  - split; [exact Hl|]. apply Hread.
    intros mat Hm. simpl in Hm. discriminate.
Defined.

(** Two absent keys that [learn] accepts.  On a model without states
    the loop body never runs, so the key is not looked at.  And the
    key [toString] names a member of [Object.prototype]: the row read
    is that built-in function, not [undefined], so nothing raises,
    the model's own concentrations stay as they are and the cache is
    dropped. *)
Lemma learn_unknown_observation_counterexample :
  ~ (forall (m : DirichletObservation.t) (observation : string)
            (posteriorBelief : Distribution),
       ~ In observation (DirichletObservation.observations m) ->
       fst (DirichletObservation.learn m observation posteriorBelief)
       = Throw TypeError) /\
  ~ In "toString"%string (DirichletObservation.observations learn_example_model)
  /\
  DirichletObservation.states learn_example_model <> [] /\
  DirichletObservation.learn learn_example_model "toString"
    learn_example_posterior
  = (Ok tt,
     {| DirichletObservation.concentrations :=
          DirichletObservation.concentrations learn_example_model;
        DirichletObservation._matrix := None |}).
Proof.
  split; [|split; [|split]].
  - intro H.
    specialize (H (DirichletObservation.constructor []) "ghost"%string []).
    simpl in H. specialize (H (fun x => x)). discriminate.
  - simpl. intuition discriminate.
  - simpl. discriminate.
  - reflexivity.
Qed.

(** ** Kullback-Leibler divergence *)

Lemma sum_over_le (f g : string -> R) (l : list string) :
  (forall s, In s l -> f s <= g s) -> sum_over l f <= sum_over l g.
Proof.
  induction l as [|s l IH]; intro Hfg; simpl; [lra|].
  assert (f s <= g s) by (apply Hfg; now left).
  assert (sum_over l f <= sum_over l g) by (apply IH; intros; apply Hfg; now right).
  lra.
Qed.

Lemma sum_over_minus (f g : string -> R) (l : list string) :
  sum_over l (fun s => f s - g s) = sum_over l f - sum_over l g.
Proof. induction l as [|s l IH]; simpl; [lra|]. rewrite IH. lra. Qed.

Lemma ln_le_minus_1 (x : R) : 0 < x -> ln x <= x - 1.
Proof.
  intro Hx. pose proof (exp_ineq1_le (ln x)) as H.
  rewrite exp_ln in H by assumption. lra.
Qed.

(** One term of Gibbs' inequality: p·ln(p/q) ≥ p − q. *)
Lemma kl_term_lower_bound (p q : R) :
  0 < p -> 0 < q -> p - q <= p * ln (p / q).
Proof.
  intros Hp Hq.
  assert (Hqp : 0 < q / p) by (apply Rdiv_lt_0_compat; assumption).
  assert (Hinv : p / q = / (q / p)) by (field; lra).
  rewrite Hinv, ln_Rinv by assumption.
  pose proof (ln_le_minus_1 (q / p) Hqp) as Hln.
  assert (Hmul : p * ln (q / p) <= p * (q / p - 1))
    by (apply Rmult_le_compat_l; lra).
  replace (p * (q / p - 1)) with (q - p) in Hmul by (field; lra).
  lra.
Qed.

Section KL.
Context {B : Type} `{Belief B}.

(** The summand of [kl] at one state. *)
Definition kl_term (b other : B) (state : string) : R :=
  let p := probability b state in
  let q := let q0 := probability other state in
           if Req_dec_T q0 0 then BeliefBase.kl_floor else q0 in
  if Rlt_dec 0 p then p * ln (p / q) else 0.

Lemma kl_as_sum (b other : B) :
  BeliefBase.kl b other = sum_over (states b) (kl_term b other).
Proof.
  unfold BeliefBase.kl.
  assert (G : forall l a,
             fold_left
               (fun result state =>
                  let p := probability b state in
                  let q := let q0 := probability other state in
                           if Req_dec_T q0 0 then BeliefBase.kl_floor else q0 in
                  if Rlt_dec 0 p then result + p * ln (p / q) else result)
               l a
             = a + sum_over l (kl_term b other)).
  { induction l as [|s l IH]; intro a; simpl; [lra|].
    rewrite IH. unfold kl_term.
    destruct (Rlt_dec 0 (probability b s)); lra. }
  rewrite G. lra.
Qed.

Lemma kl_self (b : B) : BeliefBase.kl b b = 0.
Proof.
  rewrite kl_as_sum.
  rewrite (sum_over_ext _ (fun _ => 0)).
  - induction (states b) as [|s l IH]; simpl; [reflexivity|]. rewrite IH. lra.
  - intros s _. unfold kl_term.
    destruct (Rlt_dec 0 (probability b s)) as [Hp|Hn]; [|reflexivity].
    destruct (Req_dec_T (probability b s) 0) as [E|N]; [lra|].
    replace (probability b s / probability b s) with 1 by (field; lra).
    rewrite ln_1. lra.
Qed.

End KL.

(** A valid discrete belief: well-formed, non-negative, total mass 1. *)
Definition valid_belief (b : DiscreteBelief.t) : Prop :=
  wf (DiscreteBelief.distribution b) /\
  (forall s, 0 <= DiscreteBelief.probability b s) /\
  sum_over (DiscreteBelief.states b) (DiscreteBelief.probability b) = 1.

Definition same_states (p q : DiscreteBelief.t) : Prop :=
  forall s, In s (DiscreteBelief.states p) <-> In s (DiscreteBelief.states q).

(** Where the floor is not used, [kl] is the divergence: kl(p, p) = 0
    for every discrete belief p; and for valid discrete beliefs p and
    q over the same states, kl(p, q) ≥ 0 whenever q is positive on
    every state where p is (so that the floor 1e-10 is never
    substituted on a state that carries p-mass). *)
Theorem kl_gibbs :
  (forall p : DiscreteBelief.t, BeliefBase.kl p p = 0) /\
  (forall p q : DiscreteBelief.t,
     valid_belief p -> valid_belief q -> same_states p q ->
     (forall s, 0 < DiscreteBelief.probability p s ->
                0 < DiscreteBelief.probability q s) ->
     0 <= BeliefBase.kl p q).
Proof.
  split; [intro p; apply kl_self|].
  intros p q (Hwp & Hpp & Hsp) (Hwq & Hpq & Hsq) Hsame Hsupp.
  rewrite kl_as_sum.
  assert (Hterm : forall s,
            DiscreteBelief.probability p s - DiscreteBelief.probability q s
            <= kl_term p q s).
  { intro s. unfold kl_term. simpl.
    destruct (Rlt_dec 0 (DiscreteBelief.probability p s)) as [Hp|Hn].
    - specialize (Hsupp s Hp).
      destruct (Req_dec_T (DiscreteBelief.probability q s) 0) as [E|N]; [lra|].
      now apply kl_term_lower_bound.
    - specialize (Hpp s). specialize (Hpq s). lra. }
  assert (Hperm : Permutation (DiscreteBelief.states p) (DiscreteBelief.states q))
    by (apply NoDup_Permutation; assumption).
  assert (Hq1 : sum_over (DiscreteBelief.states p) (DiscreteBelief.probability q)
                = 1).
  { rewrite (sum_over_permutation _ _ _ Hperm). exact Hsq. }
  pose proof (sum_over_le
                (fun s => DiscreteBelief.probability p s
                          - DiscreteBelief.probability q s)
                (kl_term p q) (DiscreteBelief.states p)
                (fun s _ => Hterm s)) as Hle.
  rewrite sum_over_minus in Hle.
  simpl in *. lra.
Qed.

Definition kl_example_q : DiscreteBelief.t :=
  DiscreteBelief.constructor [("a"%string, 9 / 10); ("b"%string, 1 / 10)].

Ltac belief_lookup s :=
  cbv [DiscreteBelief.probability DiscreteBelief.distribution
       DiscreteBelief.constructor get nullish];
  repeat match goal with
         | |- context [string_dec ?k s] => destruct (string_dec k s)
         end;
  try lra.

Ltac belief_total :=
  cbv [sum_over DiscreteBelief.states DiscreteBelief.distribution
       DiscreteBelief.constructor keys map fst fold_right
       DiscreteBelief.probability];
  simpl; try lra.

Lemma kl_gibbs_witness : 0 <= BeliefBase.kl example_prior kl_example_q.
Proof.
  apply (proj2 kl_gibbs).
  - split; [unfold wf; simpl; nodup_strings|].
    split; [intro s; unfold example_prior; belief_lookup s|].
    unfold example_prior. belief_total.
  - split; [unfold wf; simpl; nodup_strings|].
    split; [intro s; unfold kl_example_q; belief_lookup s|].
    unfold kl_example_q. belief_total.
  - intro s. simpl. tauto.
  - intro s. unfold example_prior, kl_example_q. belief_lookup s.
Defined.

(** p puts mass 1e-10 on a state that q excludes: the floor replaces
    q there, the second summand vanishes and the first is negative. *)
Definition kl_counter_p : DiscreteBelief.t :=
  DiscreteBelief.constructor
    [("a"%string, 1 - 1 / 10000000000); ("b"%string, 1 / 10000000000)].

Definition kl_counter_q : DiscreteBelief.t :=
  DiscreteBelief.constructor [("a"%string, 1); ("b"%string, 0)].

Lemma kl_counter_value :
  BeliefBase.kl kl_counter_p kl_counter_q
  = (1 - 1 / 10000000000) * ln (1 - 1 / 10000000000).
Proof.
  rewrite kl_as_sum.
  cbv [sum_over states DiscreteBelief_Belief DiscreteBelief.states
       kl_counter_p DiscreteBelief.distribution DiscreteBelief.constructor
       keys map fst fold_right kl_term probability kl_counter_q
       DiscreteBelief.probability BeliefBase.kl_floor].
  simpl.
  destruct (Rlt_dec 0 (1 - 1 / 10000000000)) as [_|N]; [|exfalso; lra].
  destruct (Req_dec_T 1 0) as [E|_]; [exfalso; lra|].
  destruct (Rlt_dec 0 (1 / 10000000000)) as [_|N]; [|exfalso; lra].
  destruct (Req_dec_T 0 0) as [_|N]; [|exfalso; lra].
  replace (1 / 10000000000 / (1 / 10000000000)) with 1 by (field; lra).
  rewrite ln_1.
  replace ((1 - 1 / 10000000000) / 1) with (1 - 1 / 10000000000) by field.
  lra.
Qed.

(** C8.  The floor breaks Gibbs' inequality, against the docstring of
    [kl] ("non-negative, 0 if identical"): p = {a: 1 − 1e-10,
    b: 1e-10} and q = {a: 1, b: 0} are valid beliefs over the same
    states, [kl] substitutes 1e-10 for q(b) = 0, so the term of b
    vanishes, and the result is (1 − 1e-10)·ln(1 − 1e-10) < 0. *)
Theorem kl_floor_breaks_gibbs :
  valid_belief kl_counter_p /\
  valid_belief kl_counter_q /\
  same_states kl_counter_p kl_counter_q /\
  BeliefBase.kl kl_counter_p kl_counter_q
  = (1 - 1 / 10000000000) * ln (1 - 1 / 10000000000) /\
  BeliefBase.kl kl_counter_p kl_counter_q < 0.
Proof.
  split.
  { split; [unfold wf; simpl; nodup_strings|].
    split; [intro s; unfold kl_counter_p; belief_lookup s|].
    unfold kl_counter_p. belief_total. }
  split.
  { split; [unfold wf; simpl; nodup_strings|].
    split; [intro s; unfold kl_counter_q; belief_lookup s|].
    unfold kl_counter_q. belief_total. }
  split; [intro s; simpl; tauto|].
  split; [apply kl_counter_value|].
  rewrite kl_counter_value.
  assert (Hln : ln (1 - 1 / 10000000000) < 0).
  { rewrite <- ln_1. apply ln_increasing; lra. }
  nra.
Qed.

(** Hence the inequality does not hold for all valid beliefs. *)
Lemma kl_gibbs_counterexample :
  ~ (forall p q : DiscreteBelief.t,
       valid_belief p -> valid_belief q -> same_states p q ->
       0 <= BeliefBase.kl p q).
Proof.
  intro H. specialize (H kl_counter_p kl_counter_q).
  rewrite kl_counter_value in H.
  assert (Hln : ln (1 - 1 / 10000000000) < 0).
  { rewrite <- ln_1. apply ln_increasing; lra. }
  assert (Hneg : (1 - 1 / 10000000000) * ln (1 - 1 / 10000000000) < 0) by nra.
  apply (Rlt_not_le _ _ Hneg). apply H.
  - split; [unfold wf; simpl; nodup_strings|].
    split; [intro s; unfold kl_counter_p; belief_lookup s|].
    unfold kl_counter_p. belief_total.
  - split; [unfold wf; simpl; nodup_strings|].
    split; [intro s; unfold kl_counter_q; belief_lookup s|].
    unfold kl_counter_q. belief_total.
  - intro s. simpl. tauto.
Qed.

(** ** Policy enumeration *)

Lemma flat_map_map {X Y Z : Type} (f : Y -> list Z) (g : X -> Y) (l : list X) :
  flat_map f (map g l) = flat_map (fun x => f (g x)) l.
Proof. induction l as [|x l IH]; simpl; [reflexivity|]. now rewrite IH. Qed.

Lemma map_flat_map {X Y Z : Type} (f : Y -> Z) (g : X -> list Y) (l : list X) :
  map f (flat_map g l) = flat_map (fun x => map f (g x)) l.
Proof.
  induction l as [|x l IH]; simpl; [reflexivity|].
  now rewrite map_app, IH.
Qed.

Lemma flat_map_flat_map {X Y Z : Type} (f : Y -> list Z) (g : X -> list Y)
  (l : list X) :
  flat_map f (flat_map g l) = flat_map (fun x => flat_map f (g x)) l.
Proof.
  induction l as [|x l IH]; simpl; [reflexivity|].
  now rewrite flat_map_app, IH.
Qed.

Lemma flat_map_ext_all {X Y : Type} (f g : X -> list Y) (l : list X) :
  (forall x, f x = g x) -> flat_map f l = flat_map g l.
Proof.
  intro H. induction l as [|x l IH]; simpl; [reflexivity|].
  now rewrite H, IH.
Qed.

Lemma length_flat_map_const {X Y : Type} (f : X -> list Y) (l : list X) (n : nat) :
  (forall x, List.length (f x) = n) ->
  List.length (flat_map f l) = (List.length l * n)%nat.
Proof.
  intro H. induction l as [|x l IH]; simpl; [reflexivity|].
  rewrite length_app, H, IH. reflexivity.
Qed.

Section Policies.
Variable actions : list string.

(** One more step for every policy, as the beam search appends. *)
Definition extend_all (ps : list (list string)) : list (list string) :=
  flat_map (fun p => map (fun a => p ++ [a]) actions) ps.

(** Policies of length n+1 built by the beam search without pruning. *)
Fixpoint beam_policies (n : nat) : list (list string) :=
  match n with
  | 0%nat => map (fun a => [a]) actions
  | S n' => extend_all (beam_policies n')
  end.

(** Policies of length n+1 built by prefixing, as the recursion does. *)
Fixpoint prefixed_policies (n : nat) : list (list string) :=
  match n with
  | 0%nat => map (fun a => [a]) actions
  | S n' =>
      flat_map (fun a => map (fun sub => a :: sub) (prefixed_policies n'))
        actions
  end.

Lemma extend_all_cons (a : string) (ps : list (list string)) :
  extend_all (map (fun sub => a :: sub) ps)
  = map (fun sub => a :: sub) (extend_all ps).
Proof.
  unfold extend_all. rewrite flat_map_map, map_flat_map.
  apply flat_map_ext_all. intro p. rewrite map_map. reflexivity.
Qed.

Lemma extend_all_prefixed (n : nat) :
  extend_all (prefixed_policies n) = prefixed_policies (S n).
Proof.
  induction n as [|n IH].
  - simpl. unfold extend_all. rewrite flat_map_map.
    apply flat_map_ext_all. intro a. simpl. rewrite map_map. reflexivity.
  - change (prefixed_policies (S n))
      with (flat_map (fun a => map (fun sub => a :: sub) (prefixed_policies n))
              actions).
    unfold extend_all at 1. rewrite flat_map_flat_map.
    change (prefixed_policies (S (S n)))
      with (flat_map
              (fun a => map (fun sub => a :: sub) (prefixed_policies (S n)))
              actions).
    apply flat_map_ext_all. intro a.
    fold (extend_all (map (fun sub => a :: sub) (prefixed_policies n))).
    rewrite extend_all_cons, IH. reflexivity.
Qed.

Lemma beam_policies_prefixed (n : nat) :
  beam_policies n = prefixed_policies n.
Proof.
  induction n as [|n IH]; [reflexivity|].
  simpl beam_policies. rewrite IH. apply extend_all_prefixed.
Qed.

Lemma length_prefixed_policies (n : nat) :
  List.length (prefixed_policies n) = (List.length actions ^ S n)%nat.
Proof.
  induction n as [|n IH].
  - simpl. rewrite length_map. lia.
  - change (prefixed_policies (S n))
      with (flat_map (fun a => map (fun sub => a :: sub) (prefixed_policies n))
              actions).
    rewrite (length_flat_map_const _ _ (List.length (prefixed_policies n))).
    + rewrite IH. simpl. lia.
    + intro a. apply length_map.
Qed.

End Policies.

(** ** Beam search without pruning *)

Section UnprunedSearch.
Variables B Obs W : Type.
Variable models : Agent.Models B Obs W.
Variable w : W.

Local Notation "'Beam'" := (Agent.Beam B).
Local Notation "'predict'" := (Agent.predict B Obs W models w).
Local Notation "'score'" := (Agent.computeEFE B Obs W models w).
Local Notation "'acts'" := (Agent.actions B Obs W models w).

(** Following a policy from a belief: cumulative score and belief. *)
Definition follow_step (acc : R * B) (action : string) : R * B :=
  let '(total, current) := acc in
  let predicted := predict current action in
  (total + score predicted, predicted).

Definition follow (b0 : B) (p : list string) : R * B :=
  fold_left follow_step p (0, b0).

Definition beam_of (b0 : B) (p : list string) : Beam :=
  {| Agent.policy := p;
     Agent.efe := fst (follow b0 p);
     Agent.beam_belief := snd (follow b0 p) |}.

(** The beliefs obtained by iterating [predict] along a policy. *)
Fixpoint trajectory (b : B) (p : list string) : list B :=
  match p with
  | [] => []
  | action :: rest =>
      let predicted := predict b action in
      predicted :: trajectory predicted rest
  end.

Lemma follow_from (p : list string) :
  forall total b,
    fst (fold_left follow_step p (total, b))
    = total + total_of (map score (trajectory b p)).
Proof.
  induction p as [|a p IH]; intros total b; simpl; [lra|].
  rewrite IH. lra.
Qed.

Lemma follow_is_sum_of_scores (b0 : B) (p : list string) :
  fst (follow b0 p) = total_of (map score (trajectory b0 p)).
Proof. unfold follow. rewrite follow_from. lra. Qed.

Lemma initialBeams_eq (ag : Agent.t B) :
  Agent.initialBeams B Obs W models ag w
  = map (beam_of (Agent._belief B ag)) (beam_policies acts 0).
Proof.
  unfold Agent.initialBeams. simpl. rewrite map_map.
  apply map_ext. intro a. unfold beam_of, follow. simpl.
  f_equal. lra.
Qed.

Lemma expand_eq (b0 : B) (ps : list (list string)) :
  Agent.expand B Obs W models w (map (beam_of b0) ps)
  = map (beam_of b0) (extend_all acts ps).
Proof.
  unfold Agent.expand, extend_all.
  rewrite flat_map_map, map_flat_map.
  apply flat_map_ext_all. intro p. rewrite map_map.
  apply map_ext. intro a.
  unfold beam_of, follow. simpl. rewrite fold_left_app. simpl.
  destruct (fold_left follow_step p (0, b0)) as [e b]. reflexivity.
Qed.

Lemma prune_zero (beams : list Beam) : Agent.prune B 0 beams = beams.
Proof. reflexivity. Qed.

Lemma searchLoop_unpruned (b0 : B) (n : nat) :
  forall k,
    Agent.searchLoop B Obs W models w 0 n
      (map (beam_of b0) (beam_policies acts k))
    = map (beam_of b0) (beam_policies acts (n + k)).
Proof.
  induction n as [|n IH]; intro k; simpl; [reflexivity|].
  rewrite prune_zero, expand_eq.
  change (extend_all acts (beam_policies acts k))
    with (beam_policies acts (S k)).
  rewrite IH. now replace (n + S k)%nat with (S (n + k)) by lia.
Qed.

(** Without pruning the surviving beams are all the policies of the
    horizon's length, each with its score along its trajectory. *)
Lemma search_unpruned (ag : Agent.t B) :
  Agent._beamWidth B ag = 0%Z ->
  Agent.search B Obs W models ag w
  = map (beam_of (Agent._belief B ag))
      (prefixed_policies acts (Z.to_nat (Agent._planningHorizon B ag - 1))).
Proof.
  intro Hw. unfold Agent.search. rewrite Hw, initialBeams_eq.
  rewrite searchLoop_unpruned, Nat.add_0_r.
  now rewrite beam_policies_prefixed.
Qed.

End UnprunedSearch.

(** ** Equivalence with the historical recursive formulation *)

Section Equivalence.
Context {B : Type} `{Belief B} {M : Type} `{IObservationModel M}.
Variables Obs W : Type.
Variable actions : W -> list string.
Variable predict : W -> B -> string -> B.
Variable om_update : W -> B -> Obs -> B.
Variable observationModel : W -> M.
Variable preferences : Preferences.
Variable afterObserve :
  option (Obs -> B -> option string -> option B -> W -> result unit * W).

Local Notation "'models'" :=
  (Create.discreteModels Obs W actions predict om_update observationModel
     preferences afterObserve).

(** The historical agent holding the same belief, generator, horizon,
    precision and habits. *)
Definition legacy_of (ag : Agent.t B) : LegacyAgent.t :=
  {| LegacyAgent._belief := Agent._belief B ag;
     LegacyAgent._random := Agent._random B ag;
     LegacyAgent._planningHorizon := Agent._planningHorizon B ag;
     LegacyAgent._precision := Agent._precision B ag;
     LegacyAgent._habits := Agent._habits B ag |}.

Lemma generatePolicies_prefixed (acts : list string) (n : nat) :
  LegacyAgent.generatePolicies acts (S n) = prefixed_policies acts n.
Proof.
  induction n as [|n IH]; [reflexivity|].
  change (LegacyAgent.generatePolicies acts (S (S n)))
    with (flat_map
            (fun action =>
               map (fun sub => action :: sub)
                 (LegacyAgent.generatePolicies acts (S n)))
            acts).
  rewrite IH. reflexivity.
Qed.

Lemma evaluatePolicy_follow (ag : Agent.t B) (w : W) (p : list string) :
  LegacyAgent.evaluatePolicy (predict w) (observationModel w) preferences
    (legacy_of ag) p
  = fst (follow B Obs W models w (Agent._belief B ag) p).
Proof. reflexivity. Qed.

(** C1.  With beam width 0 and horizon h ≥ 1 the beam search of the
    generic agent ends with exactly the |actions|^h policies that
    [generatePolicies] enumerates, in the same order, each carrying
    the cumulative EFE that [evaluatePolicy] assigns it, which is the
    sum of the per-step scores of the beliefs obtained by iterating
    [predict] along the policy from the current belief; consequently
    [act] returns the same action and leaves the same generator state
    in both formulations. *)
Theorem beam_search_unpruned_equivalent (ag : Agent.t B) (w : W) :
  Agent._beamWidth B ag = 0%Z ->
  (1 <= Agent._planningHorizon B ag)%Z ->
  let h := Z.to_nat (Agent._planningHorizon B ag) in
  let beams := Agent.search B Obs W models ag w in
  let policies := LegacyAgent.generatePolicies (actions w) h in
  let evaluate :=
    LegacyAgent.evaluatePolicy (predict w) (observationModel w) preferences
      (legacy_of ag) in
  let legacy_act :=
    LegacyAgent.act (actions w) (predict w) (observationModel w) preferences
      (legacy_of ag) in
  map (Agent.policy B) beams = policies /\
  map (Agent.efe B) beams = map evaluate policies /\
  List.length beams = (List.length (actions w) ^ h)%nat /\
  (forall p, In p policies ->
     List.length p = h /\
     evaluate p
     = total_of
         (map (Factory.discreteEFE (observationModel w) preferences)
            (trajectory B Obs W models w (Agent._belief B ag) p))) /\
  fst (Agent.act B Obs W models ag w) = fst legacy_act /\
  Agent._random B (snd (Agent.act B Obs W models ag w))
  = LegacyAgent._random (snd legacy_act).
Proof.
  intros Hw Hh h beams policies evaluate legacy_act.
  assert (Hn : h = S (Z.to_nat (Agent._planningHorizon B ag - 1))).
  { unfold h. lia. }
  assert (Hpol : policies
                 = prefixed_policies (actions w)
                     (Z.to_nat (Agent._planningHorizon B ag - 1))).
  { unfold policies. rewrite Hn. apply generatePolicies_prefixed. }
  assert (Hbeams : beams
                   = map (beam_of B Obs W models w (Agent._belief B ag)) policies).
  { unfold beams. rewrite (search_unpruned B Obs W models w ag Hw).
    rewrite Hpol. reflexivity. }
  assert (H1 : map (Agent.policy B) beams = policies).
  { rewrite Hbeams, map_map. simpl. apply map_id. }
  assert (H2 : map (Agent.efe B) beams = map evaluate policies).
  { rewrite Hbeams, map_map. apply map_ext. intro p. reflexivity. }
  split; [exact H1|]. split; [exact H2|]. split.
  { rewrite Hbeams, length_map, Hpol, length_prefixed_policies.
    rewrite Hn. reflexivity. }
  split.
  { intros p Hp. split.
    - rewrite Hpol in Hp. rewrite Hn. clear - Hp.
      revert p Hp.
      induction (Z.to_nat (Agent._planningHorizon B ag - 1)) as [|n IH];
        intros p Hp; simpl in Hp.
      + apply in_map_iff in Hp. destruct Hp as (a & <- & _). reflexivity.
      + apply in_flat_map in Hp. destruct Hp as (a & _ & Hp).
        apply in_map_iff in Hp. destruct Hp as (sub & <- & Hsub).
        simpl. f_equal. now apply IH.
    - unfold evaluate. rewrite evaluatePolicy_follow.
      apply follow_is_sum_of_scores. }
  unfold legacy_act, Agent.act, LegacyAgent.act.
  fold beams. rewrite H1, H2.
  change (LegacyAgent.generatePolicies (actions w)
            (Z.to_nat (LegacyAgent._planningHorizon (legacy_of ag))))
    with policies.
  change (LegacyAgent.evaluatePolicy (predict w) (observationModel w)
            preferences (legacy_of ag))
    with evaluate.
  simpl.
  destruct (Selection.select (Agent._precision B ag) (Agent._habits B ag)
              (Agent._random B ag) policies (map evaluate policies))
    as [r random'].
  split; reflexivity.
Qed.

End Equivalence.

(** A two-state world with a fixed transition matrix. *)
Module Example.

Definition transition : DiscreteTransition.t :=
  DiscreteTransition.constructor
    [("stay"%string,
      [("l"%string, [("l"%string, 1); ("r"%string, 0)]);
       ("r"%string, [("l"%string, 0); ("r"%string, 1)])]);
     ("go"%string,
      [("l"%string, [("l"%string, 0); ("r"%string, 1)]);
       ("r"%string, [("l"%string, 1); ("r"%string, 0)])])].

Definition observation : DiscreteObservation.t :=
  DiscreteObservation.constructor
    [("see_l"%string, [("l"%string, 1); ("r"%string, 0)]);
     ("see_r"%string, [("l"%string, 0); ("r"%string, 1)])].

Definition preferences : Preferences := [("see_l"%string, 0)].

Definition prior : DiscreteBelief.t :=
  DiscreteBelief.constructor [("l"%string, 1 / 2); ("r"%string, 1 / 2)].

(** Modelled from the spec: the method [update(belief, observation)],
    which the generic agent calls on its observation model and the
    discrete observation classes under src/ do not define.  It is
    taken as the specification words the perception step, the Bayesian
    posterior of the belief under the likelihood of the observation,
    which is what [observe] of the historical agent computes.  Only
    [observe] and [step] use it; the other components are the classes'
    own methods. *)
Definition models : Agent.Models DiscreteBelief.t string unit :=
  Create.discreteModels string unit
    (fun _ => DiscreteTransition.actions transition)
    (fun _ b a => DiscreteTransition.predict transition b a)
    (fun _ b o => update b (getLikelihood observation o))
    (fun _ => observation)
    preferences None.

Definition config (seed : option Z) (horizon : Z)
  : Create.config DiscreteBelief.t :=
  {| Create.cfg_belief := prior;
     Create.cfg_seed := seed;
     Create.cfg_planningHorizon := Some horizon;
     Create.cfg_precision := None;
     Create.cfg_habits := None;
     Create.cfg_beamWidth := None |}.

Definition agent : Agent.t DiscreteBelief.t :=
  Create.createAgent DiscreteBelief.t string unit models (config (Some 42%Z) 2) 0.

End Example.

Lemma beam_search_unpruned_equivalent_witness :
  map (Agent.policy DiscreteBelief.t)
    (Agent.search DiscreteBelief.t string unit Example.models Example.agent tt)
  = [["stay"; "stay"]; ["stay"; "go"]; ["go"; "stay"]; ["go"; "go"]]%string.
Proof.
  refine (eq_trans
            (proj1 (beam_search_unpruned_equivalent string unit
                      (fun _ => DiscreteTransition.actions Example.transition)
                      (fun _ b a =>
                         DiscreteTransition.predict Example.transition b a)
                      (fun _ b o =>
                         update b (getLikelihood Example.observation o))
                      (fun _ => Example.observation)
                      Example.preferences None Example.agent tt _ _)) _).
  - reflexivity.
  - simpl. lia.
  - reflexivity.
Defined.

(** ** Action selection *)

Module SelectionFacts.
Import Selection.

Lemma softmin_empty (beta : R) : LinearAlgebra.softmin [] beta = Throw TypeError.
Proof. reflexivity. Qed.

Lemma softmin_nonempty (arr : list R) (beta : R) :
  arr <> [] ->
  exists probs,
    LinearAlgebra.softmin arr beta = Ok probs /\
    List.length probs = List.length arr.
Proof.
  destruct arr as [|x xs]; [congruence|]. intros _.
  unfold LinearAlgebra.softmin, LinearAlgebra.softmax. simpl.
  eexists. split; [reflexivity|].
  simpl. now rewrite !length_map.
Qed.

Lemma sampleLoop_bounds (rand : R) (probs : list R) :
  forall i cumulative j,
    sampleLoop rand probs i cumulative = Some j ->
    (i <= j < i + Z.of_nat (List.length probs))%Z.
Proof.
  induction probs as [|p rest IH]; intros i c j Hj; simpl in *; [discriminate|].
  destruct (Rlt_dec rand (c + p)).
  - injection Hj as <-. lia.
  - apply IH in Hj. lia.
Qed.

Lemma sampleIndex_advances (random : Random.t) (probs : list R) :
  snd (sampleIndex random probs) = Random.advance random.
Proof. reflexivity. Qed.

Lemma sampleIndex_bounds (random : Random.t) (probs : list R) :
  probs <> [] ->
  (0 <= fst (sampleIndex random probs) < Z.of_nat (List.length probs))%Z.
Proof.
  intro Hne. unfold sampleIndex. simpl.
  destruct (sampleLoop _ probs 0%Z 0) as [j|] eqn:Hj.
  - apply sampleLoop_bounds in Hj. lia.
  - destruct probs; [congruence|]. simpl List.length. lia.
Qed.

Lemma index_in_range {T} (arr : list T) (idx : Z) :
  (0 <= idx < Z.of_nat (List.length arr))%Z ->
  exists x, index arr idx = Some x /\ In x arr.
Proof.
  intros [Hlo Hhi]. unfold index.
  destruct (idx <? 0)%Z eqn:E; [lia|].
  destruct (nth_error arr (Z.to_nat idx)) as [x|] eqn:Hn.
  - exists x. split; [reflexivity|]. eapply nth_error_In; eauto.
  - apply nth_error_None in Hn. lia.
Qed.

Lemma select_empty (precision : R) (habits : Obj R) (random : Random.t) :
  select precision habits random [] [] = (Throw TypeError, random).
Proof. reflexivity. Qed.

(** On a non-empty list of policies the selection draws once and
    returns the head of one of them. *)
Lemma select_nonempty (precision : R) (habits : Obj R) (random : Random.t)
  (policies : list (list string)) (policyEFEs : list R) :
  policies <> [] ->
  List.length policyEFEs = List.length policies ->
  exists policy,
    In policy policies /\
    select precision habits random policies policyEFEs
    = (Ok (hd_error policy), Random.advance random).
Proof.
  intros Hne Hlen.
  assert (Hne' : policyEFEs <> []).
  { destruct policyEFEs; [|congruence]. destruct policies; [congruence|].
    simpl in Hlen. discriminate. }
  destruct (softmin_nonempty policyEFEs precision Hne') as (probs & Hs & Hl).
  unfold select. rewrite Hs.
  set (probs' :=
         match keys habits with
         | [] => probs
         | _ :: _ =>
             LinearAlgebra.normalize
               (map (fun pi => fst pi * getPolicyHabit habits (snd pi))
                  (combine probs policies))
         end).
  assert (Hl' : List.length probs' = List.length policies).
  { unfold probs'. destruct (keys habits).
    - congruence.
    - unfold LinearAlgebra.normalize.
      rewrite !length_map, length_combine. lia. }
  assert (Hp : probs' <> []).
  { destruct probs'; [|congruence]. destruct policies; [congruence|].
    simpl in Hl'. discriminate. }
  pose proof (sampleIndex_bounds random probs' Hp) as Hb.
  pose proof (sampleIndex_advances random probs') as Ha.
  destruct (sampleIndex random probs') as [idx random'].
  simpl in Hb, Ha. subst random'.
  rewrite Hl' in Hb.
  destruct (index_in_range policies idx Hb) as (policy & Hi & Hin).
  rewrite Hi. exists policy. split; [exact Hin|reflexivity].
Qed.

End SelectionFacts.

(** ** What [act] returns and what it changes *)

Section ActFrame.
Variables B Obs W : Type.
Variable models : Agent.Models B Obs W.
Variable w : W.

Local Notation "'acts'" := (Agent.actions B Obs W models w).

(** The policy of a beam starts with one of the model's actions. *)
Definition headed_by_action (beam : Agent.Beam B) : Prop :=
  exists a rest, Agent.policy B beam = a :: rest /\ In a acts.

Lemma initialBeams_headed (ag : Agent.t B) :
  Forall headed_by_action (Agent.initialBeams B Obs W models ag w).
Proof.
  unfold Agent.initialBeams. apply Forall_forall. intros beam Hin.
  apply in_map_iff in Hin. destruct Hin as (a & <- & Ha).
  exists a, []. split; [reflexivity|exact Ha].
Qed.

Lemma expand_headed (beams : list (Agent.Beam B)) :
  Forall headed_by_action beams ->
  Forall headed_by_action (Agent.expand B Obs W models w beams).
Proof.
  intro Hall. apply Forall_forall. intros beam Hin.
  unfold Agent.expand in Hin. apply in_flat_map in Hin.
  destruct Hin as (b0 & Hb0 & Hin).
  apply in_map_iff in Hin. destruct Hin as (a' & <- & _).
  rewrite Forall_forall in Hall.
  destruct (Hall b0 Hb0) as (a & rest & Hp & Ha).
  exists a, (rest ++ [a']). simpl. rewrite Hp. split; [reflexivity|exact Ha].
Qed.

Lemma in_insertBeam (x y : Agent.Beam B) (l : list (Agent.Beam B)) :
  In x (Agent.insertBeam B y l) -> x = y \/ In x l.
Proof.
  induction l as [|z l IH]; simpl.
  - intros [E|[]]. now left.
  - destruct (Rle_dec (Agent.efe B y) (Agent.efe B z)).
    + intros [E|H]; [now left|now right].
    + intros [E|H]; [right; now left|].
      destruct (IH H); [now left|right; now right].
Qed.

Lemma in_sortBeams (x : Agent.Beam B) (l : list (Agent.Beam B)) :
  In x (Agent.sortBeams B l) -> In x l.
Proof.
  induction l as [|y l IH]; simpl; [tauto|].
  intro H. apply in_insertBeam in H. destruct H; [now left|right; auto].
Qed.

Lemma in_firstn {T} (n : nat) (l : list T) (x : T) :
  In x (firstn n l) -> In x l.
Proof.
  revert l. induction n as [|n IH]; intros [|y l]; simpl; try tauto.
  intros [E|H]; [now left|right; auto].
Qed.

Lemma in_prune (beamWidth : Z) (l : list (Agent.Beam B)) (x : Agent.Beam B) :
  In x (Agent.prune B beamWidth l) -> In x l.
Proof.
  unfold Agent.prune.
  destruct ((0 <? beamWidth)%Z && (beamWidth <? Z.of_nat (List.length l))%Z);
    [|tauto].
  intro H. apply in_firstn in H. now apply in_sortBeams.
Qed.

Lemma insertBeam_nonempty (y : Agent.Beam B) (l : list (Agent.Beam B)) :
  Agent.insertBeam B y l <> [].
Proof.
  destruct l as [|z l]; simpl; [discriminate|].
  destruct (Rle_dec (Agent.efe B y) (Agent.efe B z)); discriminate.
Qed.

Lemma prune_nonempty (beamWidth : Z) (l : list (Agent.Beam B)) :
  l <> [] -> Agent.prune B beamWidth l <> [].
Proof.
  intro Hne. unfold Agent.prune.
  destruct ((0 <? beamWidth)%Z && (beamWidth <? Z.of_nat (List.length l))%Z)
    eqn:E; [|exact Hne].
  apply andb_prop in E. destruct E as [Hpos _].
  apply Z.ltb_lt in Hpos.
  destruct l as [|y l]; [congruence|].
  change (Agent.sortBeams B (y :: l))
    with (Agent.insertBeam B y (Agent.sortBeams B l)).
  destruct (Agent.insertBeam B y (Agent.sortBeams B l)) as [|z s] eqn:Hs.
  - exfalso. eapply insertBeam_nonempty; eauto.
  - destruct (Z.to_nat beamWidth) as [|k] eqn:Hk; [lia|]. simpl. discriminate.
Qed.

Lemma expand_nonempty (beams : list (Agent.Beam B)) :
  acts <> [] -> beams <> [] -> Agent.expand B Obs W models w beams <> [].
Proof.
  intros Ha Hb. unfold Agent.expand.
  destruct beams as [|b0 beams]; [congruence|]. simpl.
  destruct acts as [|a l]; [congruence|]. simpl. discriminate.
Qed.

Lemma searchLoop_invariant (beamWidth : Z) (n : nat) :
  forall beams,
    acts <> [] -> beams <> [] -> Forall headed_by_action beams ->
    Agent.searchLoop B Obs W models w beamWidth n beams <> [] /\
    Forall headed_by_action
      (Agent.searchLoop B Obs W models w beamWidth n beams).
Proof.
  induction n as [|n IH]; intros beams Ha Hne Hall; simpl; [now split|].
  apply IH; [exact Ha| |].
  - apply prune_nonempty. now apply expand_nonempty.
  - apply Forall_forall. intros x Hx. apply in_prune in Hx.
    pose proof (expand_headed beams Hall) as He.
    rewrite Forall_forall in He. now apply He.
Qed.

Lemma searchLoop_nil (beamWidth : Z) (n : nat) :
  acts = [] ->
  Agent.searchLoop B Obs W models w beamWidth n [] = [].
Proof.
  intro Ha. induction n as [|n IH]; simpl; [reflexivity|].
  unfold Agent.prune. simpl.
  destruct ((0 <? beamWidth)%Z && (beamWidth <? 0)%Z) eqn:E; [|exact IH].
  apply andb_prop in E. destruct E as [E1 E2].
  apply Z.ltb_lt in E1. apply Z.ltb_lt in E2. lia.
Qed.

End ActFrame.

Section ActOutcome.
Variables B Obs W : Type.
Variable models : Agent.Models B Obs W.

(** Without actions there is no beam: softmin raises on the empty
    list before the generator is touched. *)
Lemma act_no_actions (ag : Agent.t B) (w : W) :
  Agent.actions B Obs W models w = [] ->
  Agent.act B Obs W models ag w = (Throw TypeError, ag).
Proof.
  intro Ha.
  assert (Hs : Agent.search B Obs W models ag w = []).
  { unfold Agent.search, Agent.initialBeams. rewrite Ha. simpl.
    now apply searchLoop_nil. }
  unfold Agent.act. rewrite Hs. simpl.
  destruct ag; reflexivity.
Qed.

(** With at least one action [act] returns one of them and the
    generator has advanced by one draw. *)
Lemma act_with_actions (ag : Agent.t B) (w : W) :
  Agent.actions B Obs W models w <> [] ->
  exists a,
    In a (Agent.actions B Obs W models w) /\
    Agent.act B Obs W models ag w
    = (Ok (Some a),
       Agent.with_random B ag (Random.advance (Agent._random B ag))).
Proof.
  intro Ha.
  assert (Hinit : Agent.initialBeams B Obs W models ag w <> []).
  { unfold Agent.initialBeams.
    destruct (Agent.actions B Obs W models w); [congruence|]. discriminate. }
  destruct (searchLoop_invariant B Obs W models w (Agent._beamWidth B ag)
              (Z.to_nat (Agent._planningHorizon B ag - 1))
              (Agent.initialBeams B Obs W models ag w) Ha Hinit
              (initialBeams_headed B Obs W models w ag)) as [Hne Hall].
  fold (Agent.search B Obs W models ag w) in Hne, Hall.
  unfold Agent.act.
  set (beams := Agent.search B Obs W models ag w) in *.
  destruct (SelectionFacts.select_nonempty (Agent._precision B ag)
              (Agent._habits B ag) (Agent._random B ag)
              (map (Agent.policy B) beams) (map (Agent.efe B) beams))
    as (policy & Hin & Hsel).
  - destruct beams; [congruence|]. discriminate.
  - now rewrite !length_map.
  - rewrite Hsel.
    apply in_map_iff in Hin. destruct Hin as (beam & <- & Hbeam).
    rewrite Forall_forall in Hall.
    destruct (Hall beam Hbeam) as (a & rest & Hp & Hact).
    exists a. split; [exact Hact|]. rewrite Hp. reflexivity.
Qed.

(** C9 (amended).  [act] never changes the belief, the previous
    belief, the previous action or the configuration of the agent.
    When the model has at least one action it returns one of them and
    the generator has advanced by exactly one draw; with an empty
    action set it raises and the generator is left as it was. *)
Theorem act_frame (ag : Agent.t B) (w : W) :
  let r := fst (Agent.act B Obs W models ag w) in
  let ag' := snd (Agent.act B Obs W models ag w) in
  Agent._belief B ag' = Agent._belief B ag /\
  Agent._previousBelief B ag' = Agent._previousBelief B ag /\
  Agent._previousAction B ag' = Agent._previousAction B ag /\
  Agent._planningHorizon B ag' = Agent._planningHorizon B ag /\
  Agent._precision B ag' = Agent._precision B ag /\
  Agent._habits B ag' = Agent._habits B ag /\
  Agent._beamWidth B ag' = Agent._beamWidth B ag /\
  (Agent.actions B Obs W models w <> [] ->
     (exists a, r = Ok (Some a) /\ In a (Agent.actions B Obs W models w)) /\
     Agent._random B ag' = snd (Random.next (Agent._random B ag))) /\
  (Agent.actions B Obs W models w = [] ->
     r = Throw TypeError /\ Agent._random B ag' = Agent._random B ag).
Proof.
  intros r ag'.
  destruct (Agent.actions B Obs W models w) as [|a0 l] eqn:Hacts.
  - unfold r, ag'. rewrite (act_no_actions ag w Hacts). simpl.
    do 7 (split; [reflexivity|]).
    split; [intro H; congruence|intros _; split; reflexivity].
  - assert (Hne : Agent.actions B Obs W models w <> []) by congruence.
    destruct (act_with_actions ag w Hne) as (a & Hin & Hact).
    unfold r, ag'. rewrite Hact. simpl.
    do 7 (split; [reflexivity|]).
    split; [intros _|intro H; discriminate].
    split; [|reflexivity].
    exists a. split; [reflexivity|]. rewrite Hacts in Hin. exact Hin.
Qed.

End ActOutcome.

(** The example world with the action set emptied ([update] as in
    [Example.models]). *)
Definition no_action_models : Agent.Models DiscreteBelief.t string unit :=
  Create.discreteModels string unit
    (fun _ => [])
    (fun _ b a => DiscreteTransition.predict Example.transition b a)
    (fun _ b o => update b (getLikelihood Example.observation o))
    (fun _ => Example.observation)
    Example.preferences None.

Lemma act_frame_witness :
  exists a,
    fst (Agent.act DiscreteBelief.t string unit Example.models Example.agent tt)
    = Ok (Some a) /\
    In a ["stay"; "go"]%string.
Proof.
  apply (act_frame DiscreteBelief.t string unit Example.models
           Example.agent tt).
  simpl. discriminate.
Defined.

(** An agent over an empty action set: [act] raises before drawing,
    so the generator has not advanced. *)
Lemma act_frame_counterexample :
  ~ (forall (models : Agent.Models DiscreteBelief.t string unit)
            (ag : Agent.t DiscreteBelief.t) (w : unit),
       Agent._random DiscreteBelief.t
         (snd (Agent.act DiscreteBelief.t string unit models ag w))
       = snd (Random.next (Agent._random DiscreteBelief.t ag))).
Proof.
  intro H. specialize (H no_action_models Example.agent tt).
  rewrite act_no_actions in H by reflexivity.
  simpl in H. apply (f_equal Random.state) in H.
  vm_compute in H. discriminate.
Qed.

(** ** Construction *)

(** C4 (amended).  Construction performs no validation and never
    raises: [new GaussianBelief] stores any variance, and
    [new Agent] accepts any belief and models, copying the belief and
    clamping the horizon to ≥ 1 and the precision and beam width to
    ≥ 0.  An empty action set is noticed only later, when [act]
    raises inside the search. *)
Theorem construction_never_raises :
  (forall mean variance : R,
     Create.new_GaussianBelief mean variance
     = Ok {| GaussianBelief.mean := mean;
             GaussianBelief.variance := variance |}) /\
  (forall (B Obs W : Type) (models : Agent.Models B Obs W) (belief : B)
          (random : option Random.t) (now planningHorizon : Z)
          (precision : R) (habits : Obj R) (beamWidth : Z),
     exists ag,
       Create.new_Agent B Obs W models belief random now planningHorizon
         precision habits beamWidth = Ok ag /\
       Agent._belief B ag = Agent.belief_copy B Obs W models belief /\
       (1 <= Agent._planningHorizon B ag)%Z /\
       0 <= Agent._precision B ag /\
       (0 <= Agent._beamWidth B ag)%Z /\
       forall w,
         Agent.actions B Obs W models w = [] ->
         fst (Agent.act B Obs W models ag w) = Throw TypeError).
Proof.
  split; [reflexivity|].
  intros. eexists. split; [reflexivity|]. simpl.
  split; [reflexivity|]. split; [lia|]. split; [apply Rmax_l|].
  split; [lia|].
  intros w Ha. now rewrite act_no_actions.
Qed.

(** A belief over states the models do not know. *)
Definition mismatched_belief : DiscreteBelief.t :=
  DiscreteBelief.constructor [("x"%string, 1 / 2); ("y"%string, 1 / 2)].

(** A Gaussian belief with variance −1, an agent over an empty action
    set and an agent whose belief and models disagree on the states
    are all constructed without a raise. *)
Lemma construction_counterexample :
  ~ (forall mean variance : R,
       variance <= 0 ->
       exists e, Create.new_GaussianBelief mean variance = Throw e) /\
  ~ (forall (belief : DiscreteBelief.t) (random : option Random.t)
            (now planningHorizon : Z) (precision : R) (habits : Obj R)
            (beamWidth : Z),
       exists e,
         Create.new_Agent DiscreteBelief.t string unit no_action_models
           belief random now planningHorizon precision habits beamWidth
         = Throw e) /\
  ~ (exists e,
       Create.new_Agent DiscreteBelief.t string unit Example.models
         mismatched_belief (Some (Random.constructor 42)) 0%Z 1%Z 1 [] 0%Z
       = Throw e).
Proof.
  split; [|split].
  - intro H. destruct (H 0 (-1)) as [e He]; [lra|]. discriminate.
  - intro H.
    destruct (H Example.prior None 0%Z 1%Z 1 [] 0%Z) as [e He]. discriminate.
  - intros [e He]. discriminate.
Qed.

(** ** Reproducibility *)

(** Models without a learning callback are never changed by an agent,
    so agents may share them. *)
Lemma run_keeps_fixed_models (B Obs W : Type) (models : Agent.Models B Obs W)
  (calls : list (Create.call Obs)) :
  Agent.afterObserve B Obs W models = None ->
  forall (ag : Agent.t B) (w : W),
    snd (Create.run B Obs W models calls ag w) = w.
Proof.
  intro Hcb. induction calls as [|[o| |o] rest IH]; intros ag w; simpl.
  - reflexivity.
  - apply IH.
  - destruct (Agent.act B Obs W models ag w) as [r ag'].
    specialize (IH ag' w).
    destruct (Create.run B Obs W models rest ag' w) as [[out agf] wf0].
    exact IH.
  - unfold Agent.step. rewrite Hcb.
    destruct (Agent.act B Obs W models
                (Agent.observe B Obs W models ag w o) w) as [[a|e] ag'].
    + specialize (IH (Agent.with_previous B ag'
                        (Some (Agent._belief B ag')) a) w).
      destruct (Create.run B Obs W models rest _ w) as [[out agf] wf0].
      exact IH.
    + specialize (IH ag' w).
      destruct (Create.run B Obs W models rest ag' w) as [[out agf] wf0].
      exact IH.
Qed.

Section Reproducibility.
Variables B Obs W : Type.
Variable models : Agent.Models B Obs W.






End Reproducibility.

(** Without a seed the generator starts from the clock. *)
Lemma unseeded_agents_follow_the_clock :
  Agent._random DiscreteBelief.t
    (Create.createAgent DiscreteBelief.t string unit Example.models
       (Example.config None 2) 0)
  <> Agent._random DiscreteBelief.t
       (Create.createAgent DiscreteBelief.t string unit Example.models
          (Example.config None 2) 1000).
Proof. simpl. discriminate. Qed.

(** * Further properties of the helpers and models *)

(** ** LinearAlgebra.softmax, softmin, normalize *)

Module LinearAlgebraFacts.
Import LinearAlgebra.

Lemma fold_left_Rplus_total (l : list R) (a : R) :
  fold_left Rplus l a = a + total_of l.
Proof.
  revert a. induction l as [|x l IH]; intro a; simpl; [lra|].
  rewrite IH. lra.
Qed.

Lemma total_of_map_div (l : list R) (d : R) :
  total_of (map (fun x => x / d) l) = total_of l / d.
Proof.
  induction l as [|x l IH]; simpl; [lra|]. rewrite IH. lra.
Qed.

Lemma total_of_positive (l : list R) :
  l <> [] -> Forall (fun x => 0 < x) l -> 0 < total_of l.
Proof.
  intros Hne Hall. induction Hall as [|x l Hx Hall IH]; [congruence|].
  simpl. destruct l as [|y l].
  - simpl. lra.
  - assert (0 < total_of (y :: l)) by (apply IH; discriminate). lra.
Qed.

(** The exponentials and their sum behind a successful [softmax]. *)
Lemma softmax_shape (arr : list R) (beta : R) :
  arr <> [] ->
  exists (m s : R),
    0 < s /\
    s = total_of (map (fun x => exp (beta * (x - m))) arr) /\
    softmax arr beta
    = Ok (map (fun x => x / s) (map (fun x => exp (beta * (x - m))) arr)).
Proof.
  destruct arr as [|x xs]; [congruence|]. intros _.
  exists (max_of x xs).
  exists (total_of (map (fun y => exp (beta * (y - max_of x xs))) (x :: xs))).
  split; [|split; [reflexivity|]].
  - apply total_of_positive; [discriminate|].
    apply Forall_forall. intros e He. apply in_map_iff in He.
    destruct He as (y & <- & _). apply exp_pos.
  - unfold softmax. simpl. rewrite fold_left_Rplus_total. reflexivity.
Qed.

End LinearAlgebraFacts.

Import LinearAlgebraFacts.

(** X1.  [softmax] raises on the empty array; on any other array it
    returns as many numbers as it was given, all strictly positive and
    summing to 1. *)
Theorem softmax_is_distribution (arr : list R) (beta : R) :
  (arr = [] -> LinearAlgebra.softmax arr beta = Throw TypeError) /\
  (arr <> [] ->
   exists probs,
     LinearAlgebra.softmax arr beta = Ok probs /\
     List.length probs = List.length arr /\
     Forall (fun p => 0 < p) probs /\
     total_of probs = 1).
Proof.
  split; [intros ->; reflexivity|].
  intro Hne. destruct (softmax_shape arr beta Hne) as (m & s & Hs & Hsum & Heq).
  eexists. split; [exact Heq|]. split; [now rewrite !length_map|]. split.
  - apply Forall_forall. intros p Hp. apply in_map_iff in Hp.
    destruct Hp as (e & <- & He). apply in_map_iff in He.
    destruct He as (y & <- & _).
    apply Rdiv_lt_0_compat; [apply exp_pos|exact Hs].
  - rewrite total_of_map_div, <- Hsum. field. lra.
Qed.

Lemma softmax_is_distribution_witness :
  exists probs,
    LinearAlgebra.softmax [1; 2; 3] 1 = Ok probs /\
    List.length probs = 3%nat /\
    Forall (fun p => 0 < p) probs /\
    total_of probs = 1.
Proof.
  apply (proj2 (softmax_is_distribution [1; 2; 3] 1)). discriminate.
Defined.

(** X2.  With precision 0 [softmin] is uniform: every entry of a
    non-empty array gets 1/n. *)
Theorem softmin_zero_precision_uniform (arr : list R) :
  arr <> [] ->
  LinearAlgebra.softmin arr 0
  = Ok (map (fun _ => 1 / INR (List.length arr)) arr).
Proof.
  intro Hne. unfold LinearAlgebra.softmin.
  assert (Hne' : map (fun x => - x) arr <> [])
    by (destruct arr; [congruence|discriminate]).
  destruct (softmax_shape _ 0 Hne') as (m & s & Hs & Hsum & Heq).
  rewrite Heq. f_equal.
  assert (Hones : map (fun x => exp (0 * (x - m))) (map (fun x => - x) arr)
                  = map (fun _ => 1) arr).
  { rewrite map_map. apply map_ext. intro x. rewrite Rmult_0_l. apply exp_0. }
  rewrite Hones in Hsum |- *.
  assert (Hn : total_of (map (fun _ : R => 1) arr) = INR (List.length arr)).
  { clear. induction arr as [|x l IH]; [reflexivity|].
    change (total_of (map (fun _ : R => 1) (x :: l)))
      with (1 + total_of (map (fun _ : R => 1) l)).
    rewrite IH. change (List.length (x :: l)) with (S (List.length l)).
    rewrite S_INR. lra. }
  rewrite map_map. rewrite Hsum, Hn. reflexivity.
Qed.

Lemma softmin_zero_precision_uniform_witness :
  LinearAlgebra.softmin [5; 1] 0 = Ok [1 / 2; 1 / 2].
Proof.
  rewrite (softmin_zero_precision_uniform [5; 1]) by discriminate.
  simpl. repeat f_equal; lra.
Defined.

(** X3.  With a positive precision [softmin] orders its output against
    its input: an entry with a strictly lower value gets a strictly
    higher probability. *)
Theorem softmin_prefers_lower (arr probs : list R) (beta : R)
  (i j : nat) (x y : R) :
  0 < beta ->
  LinearAlgebra.softmin arr beta = Ok probs ->
  nth_error arr i = Some x ->
  nth_error arr j = Some y ->
  x < y ->
  exists p q,
    nth_error probs i = Some p /\ nth_error probs j = Some q /\ q < p.
Proof.
  intros Hb Hs Hi Hj Hxy.
  assert (Hne : map (fun x => - x) arr <> []).
  { destruct arr; [destruct i; discriminate|discriminate]. }
  unfold LinearAlgebra.softmin in Hs.
  destruct (softmax_shape _ beta Hne) as (m & s & Hpos & _ & Heq).
  rewrite Heq in Hs. injection Hs as <-.
  rewrite !map_map.
  exists (exp (beta * (- x - m)) / s), (exp (beta * (- y - m)) / s).
  split; [|split].
  - rewrite nth_error_map, Hi. reflexivity.
  - rewrite nth_error_map, Hj. reflexivity.
  - apply Rmult_lt_compat_r; [now apply Rinv_0_lt_compat|].
    apply exp_increasing. nra.
Qed.

Lemma softmin_prefers_lower_witness :
  exists probs p q,
    LinearAlgebra.softmin [3; 1] 2 = Ok probs /\
    nth_error probs 1 = Some p /\ nth_error probs 0 = Some q /\ q < p.
Proof.
  assert (Hs : exists probs, LinearAlgebra.softmin [3; 1] 2 = Ok probs)
    by (eexists; reflexivity).
  destruct Hs as [probs Hs].
  destruct (softmin_prefers_lower [3; 1] probs 2 1 0 1 3)
    as (p & q & Hp & Hq & Hlt);
    try reflexivity; try assumption; try lra.
  exists probs, p, q. repeat split; assumption.
Defined.

(** X4.  [normalize] keeps the length and, when the entries do not sum
    to 0, returns numbers that sum to 1. *)
Theorem normalize_sums_to_one (arr : list R) :
  total_of arr <> 0 ->
  List.length (LinearAlgebra.normalize arr) = List.length arr /\
  total_of (LinearAlgebra.normalize arr) = 1.
Proof.
  intro Hs. unfold LinearAlgebra.normalize.
  rewrite fold_left_Rplus_total, Rplus_0_l.
  split; [apply length_map|].
  rewrite total_of_map_div. now field.
Qed.

Lemma normalize_sums_to_one_witness :
  total_of (LinearAlgebra.normalize [2; 3; 5]) = 1.
Proof.
  apply (normalize_sums_to_one [2; 3; 5]). simpl. lra.
Defined.

(** ** Random *)

Module RandomFacts.
Import Random.
Local Open Scope Z_scope.

Lemma toInt32_range (z : Z) : -2147483648 <= toInt32 z < 2147483648.
Proof.
  unfold toInt32.
  pose proof (Z.mod_pos_bound (z + 2147483648) 4294967296 ltac:(lia)). lia.
Qed.

Lemma toInt32_periodic (z k : Z) : toInt32 (z + k * 4294967296) = toInt32 z.
Proof.
  unfold toInt32. f_equal.
  replace (z + k * 4294967296 + 2147483648)
    with (z + 2147483648 + k * 4294967296) by ring.
  apply Z.mod_add. lia.
Qed.

Lemma output_range (s : Z) : 0 <= output s < 4294967296.
Proof.
  unfold output, ushr at 1. rewrite Z.shiftr_0_r. unfold toUint32.
  apply Z.mod_pos_bound. lia.
Qed.

End RandomFacts.

(** X5.  Every draw of the generator lies in [0, 1), and the state it
    leaves is a signed 32-bit integer, whatever number the state was
    before (any seed is accepted).  Only the state modulo 2^32 matters:
    a generator whose state differs by a multiple of 2^32 produces the
    same draw and the same next state. *)
Theorem random_next_in_unit_interval (r : Random.t) :
  0 <= fst (Random.next r) < 1 /\
  (-2147483648 <= Random.state (snd (Random.next r)) < 2147483648)%Z /\
  (forall k : Z,
     Random.next (Random.constructor (Random.state r + k * 4294967296))
     = Random.next r).
Proof.
  split; [|split].
  - change (fst (Random.next r))
      with (IZR (Random.output (Random.state (Random.advance r)))
            / 4294967296).
    pose proof (RandomFacts.output_range (Random.state (Random.advance r)))
      as [Hlo Hhi].
    apply IZR_le in Hlo. apply IZR_lt in Hhi.
    set (u := IZR (Random.output (Random.state (Random.advance r)))) in *.
    split.
    + apply Rmult_le_pos; [exact Hlo|].
      apply Rlt_le, Rinv_0_lt_compat. lra.
    + apply (Rmult_lt_reg_r 4294967296); [lra|].
      unfold Rdiv. rewrite Rmult_assoc, Rinv_l by lra. lra.
  - unfold Random.next, Random.advance, Random.bor. simpl.
    apply RandomFacts.toInt32_range.
  - intro k.
    unfold Random.next, Random.advance, Random.constructor, Random.bor. simpl.
    rewrite RandomFacts.toInt32_periodic. reflexivity.
Qed.

(** ** Belief.entropy and Belief.argmax *)

Section EntropyArgmax.
Context {B : Type} `{Belief B}.

(** The summand of [entropy] at one state. *)
Definition entropy_term (b : B) (state : string) : R :=
  let p := probability b state in
  if Rlt_dec 0 p then - (p * ln p) else 0.

Lemma entropy_as_sum (b : B) :
  BeliefBase.entropy b = sum_over (states b) (entropy_term b).
Proof.
  unfold BeliefBase.entropy.
  assert (G : forall l a,
             fold_left
               (fun result state =>
                  let p := probability b state in
                  if Rlt_dec 0 p then result - p * ln p else result) l a
             = a + sum_over l (entropy_term b)).
  { induction l as [|s l IH]; intro a; simpl; [lra|].
    rewrite IH. unfold entropy_term.
    destruct (Rlt_dec 0 (probability b s)); lra. }
  rewrite G. lra.
Qed.

Lemma sum_over_const (c : R) (l : list string) :
  sum_over l (fun _ => c) = INR (List.length l) * c.
Proof.
  induction l as [|s l IH]; [simpl; lra|].
  change (sum_over (s :: l) (fun _ => c)) with (c + sum_over l (fun _ => c)).
  rewrite IH. change (List.length (s :: l)) with (S (List.length l)).
  rewrite S_INR. lra.
Qed.

(** X6.  The entropy of a belief whose probabilities do not exceed 1
    is non-negative; if moreover they are non-negative and sum to 1
    over n states, the entropy is at most ln n. *)
Theorem entropy_bounds (b : B) :
  (forall s, In s (states b) -> probability b s <= 1) ->
  0 <= BeliefBase.entropy b /\
  ((forall s, In s (states b) -> 0 <= probability b s) ->
   sum_over (states b) (probability b) = 1 ->
   BeliefBase.entropy b <= ln (INR (List.length (states b)))).
Proof.
  intro Hle. rewrite entropy_as_sum. split.
  - apply sum_over_nonneg. intros s Hs. unfold entropy_term.
    destruct (Rlt_dec 0 (probability b s)) as [Hp|Hn]; [|lra].
    assert (ln (probability b s) <= 0).
    { destruct (Req_dec (probability b s) 1) as [E|N].
      - rewrite E, ln_1. lra.
      - rewrite <- ln_1. apply Rlt_le, ln_increasing; [exact Hp|].
        specialize (Hle s Hs). lra. }
    nra.
  - intros Hnn Hsum.
    set (n := INR (List.length (states b))).
    assert (Hn : 0 < n).
    { unfold n. destruct (states b) as [|s l] eqn:Hst.
      - simpl in Hsum. lra.
      - apply lt_0_INR. simpl. lia. }
    assert (Hterm : forall s, In s (states b) ->
              entropy_term b s - probability b s * ln n
              <= / n - probability b s).
    { intros s Hs. unfold entropy_term.
      destruct (Rlt_dec 0 (probability b s)) as [Hp|Hnp].
      - set (p := probability b s) in *.
        assert (Hx : 0 < / (n * p))
          by (apply Rinv_0_lt_compat; now apply Rmult_lt_0_compat).
        pose proof (ln_le_minus_1 (/ (n * p)) Hx) as Hln.
        rewrite ln_Rinv in Hln by (now apply Rmult_lt_0_compat).
        rewrite ln_mult in Hln by assumption.
        assert (Hmul : p * (- (ln n + ln p)) <= p * (/ (n * p) - 1))
          by (apply Rmult_le_compat_l; lra).
        replace (p * (/ (n * p) - 1)) with (/ n - p) in Hmul by (field; lra).
        lra.
      - assert (probability b s = 0) by (specialize (Hnn s Hs); lra).
        replace (probability b s) with 0.
        assert (0 < / n) by now apply Rinv_0_lt_compat. lra. }
    pose proof (sum_over_le _ _ (states b) Hterm) as Hs.
    rewrite !sum_over_minus in Hs.
    rewrite sum_over_scale, sum_over_const in Hs.
    fold n in Hs. rewrite Hsum in Hs.
    replace (n * / n) with 1 in Hs by (field; lra). lra.
Qed.

(** The loop of [argmax] started after the states [pre]. *)
Lemma argmax_loop (b : B) (first : option string) (rest : list string) :
  (forall s, In s rest -> 0 <= probability b s) ->
  forall (pre : list string) (m : option string) (mp : R),
    (forall s, In s pre -> probability b s <= mp) ->
    (mp = 0 /\ m = first \/
     exists pre1 s post1,
       pre = pre1 ++ s :: post1 /\ m = Some s /\ probability b s = mp /\
       forall s', In s' pre1 -> probability b s' < mp) ->
    let r := fold_left
               (fun (acc : option string * R) state =>
                  let '(maxState, maxProb) := acc in
                  let prob := probability b state in
                  if Rlt_dec maxProb prob then (Some state, prob) else acc)
               rest (m, mp) in
    (forall s, In s (pre ++ rest) -> probability b s <= snd r) /\
    (snd r = 0 /\ fst r = first \/
     exists pre1 s post1,
       pre ++ rest = pre1 ++ s :: post1 /\ fst r = Some s /\
       probability b s = snd r /\
       forall s', In s' pre1 -> probability b s' < snd r).
Proof.
  induction rest as [|x rest IH]; intros Hnn pre m mp Hall Hinv; simpl.
  - rewrite app_nil_r. split; assumption.
  - assert (Hnn' : forall s, In s rest -> 0 <= probability b s)
      by (intros; apply Hnn; now right).
    replace (pre ++ x :: rest) with ((pre ++ [x]) ++ rest)
      by (rewrite <- app_assoc; reflexivity).
    destruct (Rlt_dec mp (probability b x)) as [Hlt|Hge].
    + apply IH; [exact Hnn'| |].
      * intros s Hs. apply in_app_or in Hs. destruct Hs as [Hs|[<-|[]]].
        -- specialize (Hall s Hs). lra.
        -- lra.
      * right. exists pre, x, []. repeat split; try reflexivity.
        intros s' Hs'. specialize (Hall s' Hs'). lra.
    + apply IH; [exact Hnn'| |].
      * intros s Hs. apply in_app_or in Hs. destruct Hs as [Hs|[<-|[]]].
        -- now apply Hall.
        -- lra.
      * destruct Hinv as [Hz|(pre1 & s & post1 & Hp & Hm & Hps & Hlt)].
        -- now left.
        -- right. exists pre1, s, (post1 ++ [x]). repeat split; auto.
           rewrite Hp, <- app_assoc. reflexivity.
Qed.

(** X7.  [argmax] of a belief without states is [undefined]; otherwise
    (probabilities being non-negative) it is a state of maximal
    probability, and the first such state in enumeration order. *)
Theorem argmax_is_first_maximum (b : B) :
  (forall s, In s (states b) -> 0 <= probability b s) ->
  (states b = [] -> BeliefBase.argmax b = None) /\
  (states b <> [] ->
   exists pre s post,
     states b = pre ++ s :: post /\
     BeliefBase.argmax b = Some s /\
     (forall s', In s' pre -> probability b s' < probability b s) /\
     (forall s', In s' post -> probability b s' <= probability b s)).
Proof.
  intro Hnn. split.
  - intro He. unfold BeliefBase.argmax. rewrite He. reflexivity.
  - intro Hne. unfold BeliefBase.argmax.
    destruct (argmax_loop b (hd_error (states b)) (states b) Hnn [] 
                (hd_error (states b)) 0) as [Hall Hinv].
    { intros s []. }
    { left. split; reflexivity. }
    simpl in Hall, Hinv.
    set (r := fold_left _ (states b) (hd_error (states b), 0)) in *.
    destruct Hinv as [[Hz Hf]|(pre1 & s & post1 & Hp & Hm & Hps & Hlt)].
    + destruct (states b) as [|s0 l] eqn:Hst; [congruence|].
      exists [], s0, l. simpl in Hf. split; [reflexivity|].
      split; [exact Hf|]. split; [intros s' []|].
      assert (H0 : probability b s0 = 0).
      { assert (probability b s0 <= 0)
          by (rewrite <- Hz; apply Hall; now left).
        assert (0 <= probability b s0) by (apply Hnn; now left). lra. }
      intros s' Hs'. rewrite H0, <- Hz. apply Hall. now right.
    + exists pre1, s, post1. split; [exact Hp|]. split; [exact Hm|].
      split.
      * intros s' Hs'. rewrite Hps. now apply Hlt.
      * intros s' Hs'. rewrite Hps. apply Hall. rewrite Hp.
        apply in_or_app. right. now right.
Qed.

End EntropyArgmax.

Lemma entropy_bounds_witness :
  0 <= BeliefBase.entropy example_prior /\
  BeliefBase.entropy example_prior <= ln 2.
Proof.
  destruct (entropy_bounds example_prior) as [H0 H1].
  - intros s _. change (DiscreteBelief.probability example_prior s <= 1).
    lookup_cases s.
  - split; [exact H0|].
    replace 2 with (INR (List.length (states example_prior)))
      by (simpl; lra).
    apply H1.
    + intros s _. change (0 <= DiscreteBelief.probability example_prior s).
      lookup_cases s.
    + unfold example_prior. belief_total.
      unfold DiscreteBelief.probability. simpl. lra.
Defined.

Lemma argmax_is_first_maximum_witness :
  exists pre s post,
    states example_prior = pre ++ s :: post /\
    BeliefBase.argmax example_prior = Some s /\
    (forall s', In s' pre ->
       probability example_prior s' < probability example_prior s) /\
    (forall s', In s' post ->
       probability example_prior s' <= probability example_prior s).
Proof.
  refine (proj2 (argmax_is_first_maximum example_prior _) _).
  - intros s _. change (0 <= DiscreteBelief.probability example_prior s).
    lookup_cases s.
  - discriminate.
Defined.

(** ** DiscreteBelief.copy, exportBelief, observation by update *)

Lemma spread_append {V} (o : Obj V) :
  forall acc : Obj V,
    NoDup (keys acc ++ keys o) ->
    fold_left (fun a kv => set a (fst kv) (snd kv)) o acc = acc ++ o.
Proof.
  induction o as [|[k v] o IH]; intros acc Hnd; simpl.
  - now rewrite app_nil_r.
  - assert (Hk : ~ In k (keys acc)).
    { intro Hin. simpl in Hnd. apply NoDup_remove_2 in Hnd. apply Hnd.
      apply in_or_app. now left. }
    rewrite set_absent by assumption. rewrite IH.
    + now rewrite <- app_assoc.
    + rewrite keys_app. simpl in *. now rewrite <- app_assoc.
Qed.

Lemma spread_id {V} (o : Obj V) : wf o -> DiscreteBelief.spread o = o.
Proof.
  intro Hwf. unfold DiscreteBelief.spread. now rewrite spread_append.
Qed.

(** Listing every own key with its value rebuilds the object. *)
Lemma tabulate_own (o : Obj R) :
  wf o -> map (fun k => (k, nullish (get o k) 0)) (keys o) = o.
Proof.
  unfold wf. induction o as [|[k v] o IH]; intro Hnd; simpl; [reflexivity|].
  inversion Hnd as [|? ? Hnotin Hnd']; subst.
  destruct (string_dec k k) as [_|N]; [|congruence]. simpl. f_equal.
  rewrite <- (IH Hnd') at 2.
  apply map_ext_in. intros k' Hk'.
  destruct (string_dec k k') as [E|_]; [subst; contradiction|reflexivity].
Qed.

(** X8.  [copy] of a discrete belief holds the same states, in the same
    order, with the same probabilities. *)
Theorem discrete_copy_round_trip (b : DiscreteBelief.t) :
  wf (DiscreteBelief.distribution b) -> DiscreteBelief.copy b = b.
Proof.
  intro Hwf. unfold DiscreteBelief.copy. rewrite spread_id by assumption.
  destruct b; reflexivity.
Qed.

Lemma discrete_copy_round_trip_witness :
  DiscreteBelief.copy example_prior = example_prior.
Proof.
  apply discrete_copy_round_trip. unfold wf. simpl. nodup_strings.
Defined.

(** X9.  [exportBelief] of a discrete belief is its distribution, so
    a belief rebuilt from the export is the belief exported. *)
Theorem exportBelief_round_trip (b : DiscreteBelief.t) :
  wf (DiscreteBelief.distribution b) ->
  Factory.exportBelief b = DiscreteBelief.distribution b /\
  DiscreteBelief.constructor (Factory.exportBelief b) = b.
Proof.
  intro Hwf.
  assert (He : Factory.exportBelief b = DiscreteBelief.distribution b).
  { unfold Factory.exportBelief.
    rewrite (build_fresh (fun k => probability b k) (states b) [])
      by exact Hwf.
    simpl. apply tabulate_own. exact Hwf. }
  split; [exact He|]. rewrite He. destruct b; reflexivity.
Qed.

Lemma exportBelief_round_trip_witness :
  DiscreteBelief.constructor (Factory.exportBelief example_prior)
  = example_prior.
Proof.
  apply exportBelief_round_trip. unfold wf. simpl. nodup_strings.
Defined.

(** X10.  An observation that is equally likely in every state (the
    same positive likelihood for all states of the belief) leaves a
    belief that sums to 1 exactly as it was. *)
Theorem update_uninformative (b : DiscreteBelief.t)
  (likelihood : Distribution) (c : R) :
  wf (DiscreteBelief.distribution b) ->
  sum_over (DiscreteBelief.states b) (DiscreteBelief.probability b) = 1 ->
  0 < c ->
  (forall s, In s (DiscreteBelief.states b) -> get likelihood s = Some c) ->
  DiscreteBelief.update b likelihood = b.
Proof.
  intros Hwf Hsum Hc Hlik.
  assert (Hw : forall s, In s (DiscreteBelief.states b) ->
            DiscreteBelief.probability b s * nullish (get likelihood s) 0
            = DiscreteBelief.probability b s * c).
  { intros s Hs. rewrite (Hlik s Hs). reflexivity. }
  assert (Htot : sum_over (DiscreteBelief.states b)
                   (fun s => DiscreteBelief.probability b s
                             * nullish (get likelihood s) 0) = c).
  { rewrite (sum_over_ext _ _ _ Hw), sum_over_scale, Hsum. lra. }
  pose proof (update_eq b likelihood Hwf) as Hd. simpl in Hd.
  rewrite Htot in Hd.
  destruct (Rlt_dec 0 c) as [_|N]; [|contradiction].
  assert (Hdist : DiscreteBelief.distribution
                    (DiscreteBelief.update b likelihood)
                  = DiscreteBelief.distribution b).
  { rewrite Hd.
    transitivity
      (map (fun k => (k, nullish (get (DiscreteBelief.distribution b) k) 0))
         (keys (DiscreteBelief.distribution b)));
      [|now apply tabulate_own].
    apply map_ext_in. intros k Hk. f_equal.
    change (In k (DiscreteBelief.states b)) in Hk.
    rewrite (Hw k Hk). unfold DiscreteBelief.probability. field. lra. }
  destruct (DiscreteBelief.update b likelihood) as [d'], b as [d].
  simpl in Hdist. now subst.
Qed.

Lemma update_uninformative_witness :
  DiscreteBelief.update example_prior
    [("a"%string, 1 / 4); ("b"%string, 1 / 4)]
  = example_prior.
Proof.
  apply (update_uninformative example_prior _ (1 / 4)).
  - unfold wf. simpl. nodup_strings.
  - unfold example_prior. belief_total.
  - lra.
  - intros s [<-|[<-|[]]]; reflexivity.
Defined.



(** ** GaussianObservation.update: invariants and composition *)

Section KalmanMore.
Import GaussianObservation.

(** The update in information form: precision and precision-weighted
    mean are both incremented. *)
Lemma kalman_information_form (m : t) (prior : GaussianBelief.t) (y : R) :
  0 < GaussianBelief.variance prior -> 0 < noise m ->
  let post := update m prior y in
  0 < GaussianBelief.variance post /\
  / GaussianBelief.variance post
  = / GaussianBelief.variance prior + scale m * scale m / noise m /\
  GaussianBelief.mean post / GaussianBelief.variance post
  = GaussianBelief.mean prior / GaussianBelief.variance prior
    + scale m * (y - bias m) / noise m.
Proof.
  intros Hv Hn post.
  set (c := scale m). set (v := GaussianBelief.variance prior) in *.
  set (n := noise m) in *. set (mu := GaussianBelief.mean prior).
  assert (HS : 0 < c * c * v + n) by nra.
  assert (Hvar : GaussianBelief.variance post = v * n / (c * c * v + n)).
  { unfold post, update. simpl. fold c v n. field. lra. }
  assert (Hmean : GaussianBelief.mean post
                  = (n * mu + c * v * (y - bias m)) / (c * c * v + n)).
  { unfold post, update. simpl. fold c v n mu. field. lra. }
  assert (Hpos : 0 < GaussianBelief.variance post).
  { rewrite Hvar. apply Rdiv_lt_0_compat; nra. }
  split; [exact Hpos|]. split.
  - rewrite Hvar. field. repeat split; lra.
  - rewrite Hvar, Hmean. field. repeat split; lra.
Qed.

(** X12.  The Kalman update keeps the variance positive and never
    increases it: for prior variance σ² > 0 and noise R > 0 the
    posterior variance is σ²·R / (c²·σ² + R), in (0, σ²]. *)
Theorem kalman_variance_invariant (m : t) (prior : GaussianBelief.t) (y : R) :
  0 < GaussianBelief.variance prior -> 0 < noise m ->
  let post := update m prior y in
  GaussianBelief.variance post
  = GaussianBelief.variance prior * noise m
    / (scale m * scale m * GaussianBelief.variance prior + noise m) /\
  0 < GaussianBelief.variance post <= GaussianBelief.variance prior.
Proof.
  intros Hv Hn post.
  set (c := scale m). set (v := GaussianBelief.variance prior) in *.
  set (n := noise m) in *.
  assert (HS : 0 < c * c * v + n) by nra.
  assert (Hvar : GaussianBelief.variance post = v * n / (c * c * v + n)).
  { unfold post, update. simpl. fold c v n. field. lra. }
  split; [exact Hvar|]. rewrite Hvar. split.
  - apply Rdiv_lt_0_compat; nra.
  - apply (Rmult_le_reg_r (c * c * v + n)); [exact HS|].
    unfold Rdiv. rewrite Rmult_assoc, Rinv_l by lra. nra.
Qed.

(** X13.  Two observations can be absorbed in either order: the
    belief after updating with y1 then y2 is the belief after updating
    with y2 then y1. *)
Theorem kalman_updates_commute (m : t) (prior : GaussianBelief.t)
  (y1 y2 : R) :
  0 < GaussianBelief.variance prior -> 0 < noise m ->
  update m (update m prior y1) y2 = update m (update m prior y2) y1.
Proof.
  intros Hv Hn.
  destruct (kalman_information_form m prior y1 Hv Hn) as (Hp1 & Hi1 & Hm1).
  destruct (kalman_information_form m prior y2 Hv Hn) as (Hp2 & Hi2 & Hm2).
  destruct (kalman_information_form m (update m prior y1) y2 Hp1 Hn)
    as (Hp12 & Hi12 & Hm12).
  destruct (kalman_information_form m (update m prior y2) y1 Hp2 Hn)
    as (Hp21 & Hi21 & Hm21).
  set (a := update m (update m prior y1) y2) in *.
  set (b := update m (update m prior y2) y1) in *.
  assert (Hvar : GaussianBelief.variance a = GaussianBelief.variance b).
  { apply Rinv_eq_reg. rewrite Hi12, Hi21, Hi1, Hi2. ring. }
  assert (Hmean : GaussianBelief.mean a = GaussianBelief.mean b).
  { assert (Hq : GaussianBelief.mean a / GaussianBelief.variance a
                 = GaussianBelief.mean b / GaussianBelief.variance b).
    { rewrite Hm12, Hm21, Hm1, Hm2. ring. }
    rewrite <- Hvar in Hq.
    apply (Rmult_eq_reg_r (/ GaussianBelief.variance a)); [exact Hq|].
    apply Rinv_neq_0_compat. lra. }
  destruct a, b. simpl in *. now subst.
Qed.

(** X14.  An observation through a sensor with non-zero scale strictly
    lowers the entropy of the belief. *)
Theorem kalman_update_reduces_entropy (m : t) (prior : GaussianBelief.t)
  (y : R) :
  0 < GaussianBelief.variance prior -> 0 < noise m -> scale m <> 0 ->
  GaussianBelief.entropy (update m prior y) < GaussianBelief.entropy prior.
Proof.
  intros Hv Hn Hc.
  destruct (kalman_information_form m prior y Hv Hn) as (Hp & Hi & _).
  assert (Hlt : GaussianBelief.variance (update m prior y)
                < GaussianBelief.variance prior).
  { rewrite <- (Rinv_inv (GaussianBelief.variance (update m prior y))).
    rewrite <- (Rinv_inv (GaussianBelief.variance prior)).
    apply Rinv_0_lt_contravar; [now apply Rinv_0_lt_compat|].
    rewrite Hi.
    assert (0 < scale m * scale m / noise m).
    { apply Rdiv_lt_0_compat; [|exact Hn]. nra. }
    lra. }
  unfold GaussianBelief.entropy.
  assert (Hk : 0 < 2 * PI * exp 1).
  { pose proof PI_RGT_0. pose proof (exp_pos 1). nra. }
  assert (ln (2 * PI * exp 1 * GaussianBelief.variance (update m prior y))
          < ln (2 * PI * exp 1 * GaussianBelief.variance prior)).
  { apply ln_increasing; nra. }
  lra.
Qed.

End KalmanMore.

Lemma kalman_variance_invariant_witness :
  0 < GaussianBelief.variance
        (GaussianObservation.update kalman_example_model
           kalman_example_prior (32 / 10))
  <= 1 / 10.
Proof.
  apply (kalman_variance_invariant kalman_example_model kalman_example_prior
           (32 / 10)); simpl; lra.
Defined.

Lemma kalman_updates_commute_witness :
  GaussianObservation.update kalman_example_model
    (GaussianObservation.update kalman_example_model kalman_example_prior 3) 1
  = GaussianObservation.update kalman_example_model
      (GaussianObservation.update kalman_example_model kalman_example_prior 1)
      3.
Proof.
  apply kalman_updates_commute; simpl; lra.
Defined.

Lemma kalman_update_reduces_entropy_witness :
  GaussianBelief.entropy
    (GaussianObservation.update kalman_example_model kalman_example_prior
       (32 / 10))
  < GaussianBelief.entropy kalman_example_prior.
Proof.
  apply kalman_update_reduces_entropy; simpl; lra.
Defined.

(** ** DirichletObservation: constructor, normalisation, cache *)

Module DirichletObservationMore.
Import DirichletObservation.

Lemma tabulate_own_rows {V} (g : V -> V) (d : V) (o : Obj V) :
  wf o ->
  (forall k v, get o k = Some v -> g v = v) ->
  map (fun k => (k, g (nullish (get o k) d))) (keys o) = o.
Proof.
  unfold wf. induction o as [|[k v] o IH]; intros Hnd Hg; simpl; [reflexivity|].
  inversion Hnd as [|? ? Hnotin Hnd']; subst.
  destruct (string_dec k k) as [_|N]; [|congruence]. simpl.
  rewrite (Hg k v) by apply get_cons_head. f_equal.
  rewrite <- (IH Hnd') at 2.
  - apply map_ext_in. intros k' Hk'.
    destruct (string_dec k k') as [E|_]; [subst; contradiction|reflexivity].
  - intros k' v' Hk'. apply (Hg k' v').
    rewrite get_cons_tail; [exact Hk'|].
    intro E. subst. apply Hnotin. eapply get_some_in_keys; eauto.
Qed.

(** The last write to a key wins. *)
Lemma get_fold_set_in {V} (f : string -> V) (l : list string) k :
  In k l ->
  forall acc : Obj V,
    get (fold_left (fun o x => set o x (f x)) l acc) k = Some (f k).
Proof.
  induction l as [|x l IH]; intros Hin acc; simpl; [destruct Hin|].
  destruct (in_dec string_dec k l) as [Hl|Hl].
  - now apply IH.
  - destruct Hin as [<-|Hin]; [|contradiction].
    rewrite get_fold_set_other by assumption. apply get_set_same.
Qed.

(** The entry [normalize] computes for (o, s). *)
Definition normalized_cell (m : t) (o s : string) : R :=
  if Rlt_dec 0 (colSum m s)
  then cell (concentrations m) o s / colSum m s
  else 0.

Lemma normalize_entry (m : t) (o s : string) :
  In o (observations m) -> In s (states m) ->
  matrix_probability (normalize m) o s = normalized_cell m o s.
Proof.
  intros Ho Hs. unfold matrix_probability, normalize.
  rewrite (get_fold_set_in
             (fun o =>
                fold_left
                  (fun row s =>
                     set row s
                       (if Rlt_dec 0 (colSum m s)
                        then cell (concentrations m) o s / colSum m s
                        else 0))
                  (states m) [])) by assumption.
  rewrite (get_fold_set_in (fun s => normalized_cell m o s)) by assumption.
  reflexivity.
Qed.

Lemma colSum_as_sum (m : t) (s : string) :
  colSum m s = sum_over (observations m) (fun o => cell (concentrations m) o s).
Proof.
  unfold colSum.
  rewrite (fold_left_plus_sum_over (fun o => cell (concentrations m) o s)).
  lra.
Qed.

(** A raise in the loop of [learn] happens before any write. *)
Lemma learn_loop_throw_unchanged (observation : string)
  (posteriorBelief : Distribution) (sts : list string) :
  forall c e c',
    learn_loop observation posteriorBelief c sts = (Throw e, c') ->
    c' = c /\ get c observation = None.
Proof.
  induction sts as [|s rest IH]; intros c e c' Hl; simpl in Hl; [discriminate|].
  unfold learn_step, read in Hl.
  destruct (get c observation) as [row|] eqn:Er.
  - apply IH in Hl. destruct Hl as [_ Hnone].
    rewrite get_set_same in Hnone. discriminate.
  - destruct (inherited observation).
    + destruct (String.eqb observation "__proto__").
      * apply IH in Hl. destruct Hl as [-> _]. split; reflexivity.
      * destruct (function_guarded s).
        -- injection Hl as _ <-. split; reflexivity.
        -- apply IH in Hl. destruct Hl as [-> _]. split; reflexivity.
    + injection Hl as _ <-. split; reflexivity.
Qed.

Lemma matrix_value (m : t) : cache_ok m -> fst (matrix m) = normalize m.
Proof.
  intro Hc. unfold matrix. destruct (_matrix m) as [cached|] eqn:E; simpl.
  - now apply Hc.
  - reflexivity.
Qed.

End DirichletObservationMore.

Import DirichletObservationMore.

(** X15.  The constructor's deep copy holds the concentrations it was
    given, key for key and in the same order, and starts with an empty
    cache. *)
Theorem dirichlet_constructor_copies
  (c : DirichletObservation.ObservationConcentrations) :
  wf c ->
  (forall o row, get c o = Some row -> wf row) ->
  DirichletObservation.concentrations (DirichletObservation.constructor c) = c
  /\ DirichletObservation._matrix (DirichletObservation.constructor c) = None.
Proof.
  intros Hwf Hrows. split; [|reflexivity].
  unfold DirichletObservation.constructor. simpl.
  rewrite (build_fresh
             (fun obs => DiscreteBelief.spread (nullish (get c obs) []))
             (keys c) []) by exact Hwf.
  simpl. apply tabulate_own_rows; [exact Hwf|].
  intros k v Hk. apply spread_id. eapply Hrows; eauto.
Qed.

Lemma dirichlet_constructor_copies_witness :
  DirichletObservation.constructor
    (DirichletObservation.concentrations learn_example_model)
  = learn_example_model.
Proof.
  destruct (dirichlet_constructor_copies
              (DirichletObservation.concentrations learn_example_model))
    as [Hc Hm].
  - apply learn_example_well_formed.
  - intros o row Hrow. now apply (proj2 learn_example_well_formed o row).
  - destruct (DirichletObservation.constructor _) as [c' m'].
    simpl in Hc, Hm. subst. reflexivity.
Defined.

(** X16.  On a well-formed model (every row carries every state),
    every column of the derived matrix is a distribution or empty: for
    a state s of the model, the probabilities P(o|s) over the
    configured observations sum to 1 when the column of concentrations
    has a positive sum, and are all 0 otherwise. *)
Theorem dirichlet_columns_normalized (m : DirichletObservation.t) (s : string) :
  well_formed m ->
  cache_ok m ->
  In s (DirichletObservation.states m) ->
  (0 < DirichletObservation.colSum m s ->
   sum_over (DirichletObservation.observations m)
     (fun o => fst (DirichletObservation.probability m o s)) = 1) /\
  (DirichletObservation.colSum m s <= 0 ->
   forall o, In o (DirichletObservation.observations m) ->
             fst (DirichletObservation.probability m o s) = 0).
Proof.
  intros Hshape Hc Hs.
  assert (Hp : forall o, In o (DirichletObservation.observations m) ->
            fst (DirichletObservation.probability m o s)
            = normalized_cell m o s).
  { intros o Ho. unfold DirichletObservation.probability.
    pose proof (matrix_value m Hc) as Hv.
    destruct (DirichletObservation.matrix m) as [mat m']. simpl in *.
    subst mat. now apply normalize_entry. }
  split.
  - intro Hpos. rewrite (sum_over_ext _ _ _ Hp).
    unfold normalized_cell.
    destruct (Rlt_dec 0 (DirichletObservation.colSum m s)) as [_|N];
      [|contradiction].
    rewrite (sum_over_scale
               (fun o => DirichletObservation.cell
                           (DirichletObservation.concentrations m) o s)
               (/ DirichletObservation.colSum m s)).
    rewrite <- colSum_as_sum. field. lra.
  - intros Hle o Ho. rewrite (Hp o Ho). unfold normalized_cell.
    destruct (Rlt_dec 0 (DirichletObservation.colSum m s)); [lra|reflexivity].
Qed.

Lemma dirichlet_columns_normalized_witness :
  sum_over (DirichletObservation.observations learn_example_model)
    (fun o => fst (DirichletObservation.probability learn_example_model o "safe"))
  = 1.
Proof.
  apply (dirichlet_columns_normalized learn_example_model "safe").
  - exact learn_example_well_formed.
  - intros mat Hm. discriminate.
  - simpl. now left.
  - unfold DirichletObservation.colSum, DirichletObservation.cell. simpl. lra.
Defined.

(** X17.  The cache never goes stale: on a model whose cache is
    consistent, reading the matrix returns the normalisation of the
    current concentrations and leaves a consistent model behind, and so
    does reading it after any [learn], completed or raised. *)
Theorem dirichlet_cache_coherent (m : DirichletObservation.t)
  (observation : string) (posteriorBelief : Distribution) :
  cache_ok m ->
  fst (DirichletObservation.matrix m) = DirichletObservation.normalize m /\
  cache_ok (snd (DirichletObservation.matrix m)) /\
  DirichletObservation.concentrations (snd (DirichletObservation.matrix m))
  = DirichletObservation.concentrations m /\
  let m' := snd (DirichletObservation.learn m observation posteriorBelief) in
  cache_ok m' /\
  fst (DirichletObservation.matrix m') = DirichletObservation.normalize m'.
Proof.
  intro Hc. split; [now apply matrix_value|].
  assert (Hm : cache_ok (snd (DirichletObservation.matrix m)) /\
               DirichletObservation.concentrations
                 (snd (DirichletObservation.matrix m))
               = DirichletObservation.concentrations m).
  { unfold DirichletObservation.matrix.
    destruct (DirichletObservation._matrix m) as [cached|] eqn:E; simpl.
    - split; [exact Hc|reflexivity].
    - split; [|reflexivity]. intros mat Hmat. simpl in Hmat.
      injection Hmat as <-. reflexivity. }
  split; [apply Hm|]. split; [apply Hm|].
  intro m'.
  assert (Hc' : cache_ok m').
  { unfold m', DirichletObservation.learn.
    destruct (DirichletObservation.learn_loop observation posteriorBelief
                (DirichletObservation.concentrations m)
                (DirichletObservation.states m)) as [[u|e] c] eqn:El; simpl.
    - intros mat Hmat. discriminate.
    - apply learn_loop_throw_unchanged in El. destruct El as [-> _].
      intros mat Hmat. simpl in Hmat.
      assert (Hn : DirichletObservation.normalize
                     {| DirichletObservation.concentrations :=
                          DirichletObservation.concentrations m;
                        DirichletObservation._matrix :=
                          DirichletObservation._matrix m |}
                   = DirichletObservation.normalize m) by reflexivity.
      rewrite Hn. now apply Hc. }
  split; [exact Hc'|now apply matrix_value].
Qed.

Lemma dirichlet_cache_coherent_witness :
  fst (DirichletObservation.matrix
         (snd (DirichletObservation.learn learn_example_model "see_safe"
                 learn_example_posterior)))
  = DirichletObservation.normalize
      (snd (DirichletObservation.learn learn_example_model "see_safe"
              learn_example_posterior)).
Proof.
  apply (dirichlet_cache_coherent learn_example_model "see_safe"
           learn_example_posterior).
  intros mat Hm. discriminate.
Defined.

(** ** DirichletObservation.learn and the derived probabilities *)

Lemma sum_over_point_update (f g : string -> R) (k : string) (d : R)
  (l : list string) :
  NoDup l -> In k l ->
  (forall x, x <> k -> g x = f x) -> g k = f k + d ->
  sum_over l g = sum_over l f + d.
Proof.
  intros Hnd Hin Hoth Hk.
  induction l as [|x l IH]; [destruct Hin|].
  inversion Hnd as [|? ? Hnotin Hnd']; subst. simpl.
  destruct Hin as [->|Hin].
  - rewrite Hk. rewrite (sum_over_ext g f l); [lra|].
    intros y Hy. apply Hoth. intro E. subst. contradiction.
  - rewrite (IH Hnd' Hin). rewrite (Hoth x); [lra|].
    intro E. subst. contradiction.
Qed.

(** What a completed [learn] leaves, cell by cell. *)
Lemma learn_cells (m : DirichletObservation.t) (observation : string)
  (posteriorBelief : Distribution) :
  well_formed m ->
  In observation (DirichletObservation.observations m) ->
  exists m',
    DirichletObservation.learn m observation posteriorBelief = (Ok tt, m') /\
    DirichletObservation._matrix m' = None /\
    DirichletObservation.observations m' = DirichletObservation.observations m /\
    DirichletObservation.states m' = DirichletObservation.states m /\
    (forall s, In s (DirichletObservation.states m) ->
       DirichletObservation.cell (DirichletObservation.concentrations m')
         observation s
       = DirichletObservation.cell (DirichletObservation.concentrations m)
           observation s
         + nullish (get posteriorBelief s) 0) /\
    (forall o s, o <> observation ->
       DirichletObservation.cell (DirichletObservation.concentrations m') o s
       = DirichletObservation.cell (DirichletObservation.concentrations m) o s).
Proof.
  intros Hwf Hin.
  destruct (in_keys_get _ _ Hin) as [row Hrow].
  pose proof (states_nodup m Hwf) as Hnd.
  destruct Hwf as [Hwfc Hrows].
  destruct (Hrows _ _ Hrow) as [Hwfrow Hkeys].
  destruct (learn_loop_present observation posteriorBelief
              (DirichletObservation.states m)
              (DirichletObservation.concentrations m) row Hrow Hnd)
    as (c' & row' & Hl & Hkc & Hg & Hoth & Hkr & Hinc & Hout).
  { intros s Hs. now apply Hkeys. }
  exists {| DirichletObservation.concentrations := c';
            DirichletObservation._matrix := None |}.
  unfold DirichletObservation.learn. rewrite Hl. simpl.
  split; [reflexivity|]. split; [reflexivity|]. split; [exact Hkc|].
  split; [|split].
  - unfold DirichletObservation.states, DirichletObservation.observations.
    simpl. rewrite Hkc.
    destruct (keys (DirichletObservation.concentrations m)) as [|f l];
      [reflexivity|].
    destruct (string_dec f observation) as [->|N].
    + rewrite Hg, Hrow. simpl. exact Hkr.
    + now rewrite Hoth.
  - intros s Hs. unfold DirichletObservation.cell.
    rewrite Hg, Hrow. simpl. now rewrite Hinc.
  - intros o s Ho. unfold DirichletObservation.cell. now rewrite Hoth.
Qed.

(** X18.  Learning reinforces what was observed: after [learn(o*, q)]
    with q(s) > 0, at a state s whose column has a positive sum not
    carried by o* alone, P(o*|s) is strictly higher than before and
    P(o|s) is strictly lower for every other observation with a
    positive concentration at s. *)
Theorem dirichlet_learning_shifts_probability
  (m : DirichletObservation.t) (observation : string)
  (posteriorBelief : Distribution) (s : string) :
  well_formed m -> cache_ok m ->
  In observation (DirichletObservation.observations m) ->
  In s (DirichletObservation.states m) ->
  0 < nullish (get posteriorBelief s) 0 ->
  0 < DirichletObservation.colSum m s ->
  DirichletObservation.cell (DirichletObservation.concentrations m)
    observation s < DirichletObservation.colSum m s ->
  exists m',
    DirichletObservation.learn m observation posteriorBelief = (Ok tt, m') /\
    fst (DirichletObservation.probability m observation s)
    < fst (DirichletObservation.probability m' observation s) /\
    (forall o, In o (DirichletObservation.observations m) ->
       o <> observation ->
       0 < DirichletObservation.cell (DirichletObservation.concentrations m) o s ->
       fst (DirichletObservation.probability m' o s)
       < fst (DirichletObservation.probability m o s)).
Proof.
  intros Hwf Hc Hin Hs Hq Hsum Hlt.
  destruct (learn_cells m observation posteriorBelief Hwf Hin)
    as (m' & Hl & Hcache & Hobs & Hst & Hinc & Hoth).
  exists m'. split; [exact Hl|].
  set (d := nullish (get posteriorBelief s) 0) in *.
  assert (Hc' : cache_ok m') by (intros mat Hm; congruence).
  assert (Hcol : DirichletObservation.colSum m' s
                 = DirichletObservation.colSum m s + d).
  { rewrite !colSum_as_sum, Hobs.
    apply (sum_over_point_update _ _ observation).
    - apply Hwf.
    - exact Hin.
    - intros o Ho. now apply Hoth.
    - now apply Hinc. }
  assert (Hp : forall (x : DirichletObservation.t) o,
            cache_ok x ->
            In o (DirichletObservation.observations x) ->
            In s (DirichletObservation.states x) ->
            fst (DirichletObservation.probability x o s)
            = normalized_cell x o s).
  { intros x o Hx Ho Hsx. unfold DirichletObservation.probability.
    pose proof (matrix_value x Hx) as Hv.
    destruct (DirichletObservation.matrix x) as [mat x']. simpl in *.
    subst mat. now apply normalize_entry. }
  assert (Hs' : In s (DirichletObservation.states m')) by now rewrite Hst.
  assert (Hnew : 0 < DirichletObservation.colSum m s + d) by lra.
  split.
  - rewrite (Hp m observation Hc Hin Hs).
    rewrite (Hp m' observation Hc') by (rewrite ?Hobs; assumption).
    unfold normalized_cell. rewrite Hcol.
    destruct (Rlt_dec 0 (DirichletObservation.colSum m s)); [|contradiction].
    destruct (Rlt_dec 0 (DirichletObservation.colSum m s + d));
      [|contradiction].
    rewrite (Hinc s Hs). fold d.
    set (c := DirichletObservation.cell _ observation s) in *.
    set (S := DirichletObservation.colSum m s) in *.
    apply (Rmult_lt_reg_r (S * (S + d))); [nra|].
    replace (c / S * (S * (S + d))) with (c * (S + d)) by (field; lra).
    replace ((c + d) / (S + d) * (S * (S + d))) with ((c + d) * S)
      by (field; lra).
    nra.
  - intros o Ho Hne Hpos.
    rewrite (Hp m o Hc Ho Hs).
    rewrite (Hp m' o Hc') by (rewrite ?Hobs; assumption).
    unfold normalized_cell. rewrite Hcol.
    destruct (Rlt_dec 0 (DirichletObservation.colSum m s)); [|contradiction].
    destruct (Rlt_dec 0 (DirichletObservation.colSum m s + d));
      [|contradiction].
    rewrite (Hoth o s Hne).
    set (c := DirichletObservation.cell _ o s) in *.
    set (S := DirichletObservation.colSum m s) in *.
    apply (Rmult_lt_reg_r (S * (S + d))); [nra|].
    replace (c / S * (S * (S + d))) with (c * (S + d)) by (field; lra).
    replace (c / (S + d) * (S * (S + d))) with (c * S) by (field; lra).
    nra.
Qed.

Lemma dirichlet_learning_shifts_probability_witness :
  exists m',
    DirichletObservation.learn learn_example_model "see_safe"
      learn_example_posterior = (Ok tt, m') /\
    fst (DirichletObservation.probability learn_example_model
           "see_safe" "safe")
    < fst (DirichletObservation.probability m' "see_safe" "safe").
Proof.
  destruct (dirichlet_learning_shifts_probability learn_example_model
              "see_safe" learn_example_posterior "safe")
    as (m' & Hl & Hup & _).
  - exact learn_example_well_formed.
  - intros mat Hm. discriminate.
  - simpl. now left.
  - simpl. now left.
  - simpl. lra.
  - unfold DirichletObservation.colSum, DirichletObservation.cell. simpl. lra.
  - unfold DirichletObservation.colSum, DirichletObservation.cell. simpl. lra.
  - exists m'. split; assumption.
Defined.

(** ** DiscreteTransition.predict *)

Module DiscreteTransitionFacts.
Import DiscreteTransition.

(** The inner loop: every listed key of an object is incremented. *)
Lemma accumulate_keys (f : string -> R) (ks : list string) :
  forall nd : Obj R,
    (forall k, In k ks -> In k (keys nd)) ->
    NoDup ks ->
    let nd' :=
      fold_left (fun nd k => set nd k (to_number (get nd k) + f k)) ks nd in
    keys nd' = keys nd /\
    forall k,
      to_number (get nd' k)
      = to_number (get nd k) + (if in_dec string_dec k ks then f k else 0).
Proof.
  induction ks as [|x ks IH]; intros nd Hsub Hnd; simpl.
  - split; [reflexivity|]. intro k. lra.
  - inversion Hnd as [|? ? Hnotin Hnd']; subst.
    set (nd1 := set nd x (to_number (get nd x) + f x)).
    assert (Hk1 : keys nd1 = keys nd)
      by (apply keys_set_present, Hsub; now left).
    destruct (IH nd1) as [Hkeys Hval].
    { intros k Hk. rewrite Hk1. apply Hsub. now right. }
    { exact Hnd'. }
    split; [now rewrite Hkeys|].
    intro k. rewrite Hval.
    destruct (string_dec x k) as [->|N].
    + unfold nd1. rewrite get_set_same.
      destruct (in_dec string_dec k ks); [contradiction|]. simpl. lra.
    + unfold nd1. rewrite get_set_other by assumption.
      destruct (in_dec string_dec k ks); lra.
Qed.

Section Predict.
Context {B : Type} `{Belief B}.
Variable m : t.
Variable belief : B.
Variable action : string.

(** P(s'|s, action) as [predict] reads it. *)
Definition transition_prob (current next : string) : R :=
  to_number (get (getTransition m current action) next).

(** Every transition row used is a well-formed object over the
    model's states. *)
Definition rows_ok : Prop :=
  NoDup (states m) /\
  forall current,
    In current (belief_states belief) ->
    wf (getTransition m current action) /\
    forall k, In k (keys (getTransition m current action)) -> In k (states m).

Lemma predict_outer (currents : list string) :
  (forall current, In current currents ->
     wf (getTransition m current action) /\
     forall k, In k (keys (getTransition m current action)) ->
               In k (states m)) ->
  forall nd : Obj R,
    keys nd = states m ->
    let nd' :=
      fold_left
        (fun nd currentState =>
           let transition := getTransition m currentState action in
           let currentProb := probability belief currentState in
           fold_left
             (fun nd nextState =>
                set nd nextState
                  (to_number (get nd nextState)
                   + to_number (get transition nextState) * currentProb))
             (keys transition) nd)
        currents nd in
    keys nd' = states m /\
    forall k,
      to_number (get nd' k)
      = to_number (get nd k)
        + sum_over currents
            (fun current => transition_prob current k
                            * probability belief current).
Proof.
  induction currents as [|cur currents IH]; intros Hok nd Hkeys; simpl.
  - split; [exact Hkeys|]. intro k. lra.
  - destruct (Hok cur (or_introl eq_refl)) as [Hwf Hsub].
    destruct (accumulate_keys
                (fun k => to_number (get (getTransition m cur action) k)
                          * probability belief cur)
                (keys (getTransition m cur action)) nd) as [Hk1 Hv1].
    { intros k Hk. rewrite Hkeys. now apply Hsub. }
    { exact Hwf. }
    destruct (IH (fun c Hc => Hok c (or_intror Hc)) _
                (eq_trans Hk1 Hkeys)) as [Hk2 Hv2].
    split; [exact Hk2|].
    intro k. rewrite Hv2, Hv1. unfold transition_prob.
    destruct (in_dec string_dec k (keys (getTransition m cur action)))
      as [Hin|Hnin]; [lra|].
    apply get_none_not_in in Hnin. rewrite Hnin. simpl. lra.
Qed.

Lemma predict_value :
  rows_ok ->
  DiscreteBelief.states (predict m belief action) = states m /\
  forall k,
    DiscreteBelief.probability (predict m belief action) k
    = sum_over (belief_states belief)
        (fun current => transition_prob current k
                        * probability belief current).
Proof.
  intros [Hnd Hok]. unfold predict.
  rewrite (build_fresh (fun _ => 0) (states m) []) by exact Hnd.
  simpl app.
  destruct (predict_outer (belief_states belief) Hok
              (map (fun k => (k, 0)) (states m))
              (keys_tabulate (fun _ => 0) (states m))) as [Hk Hv].
  split; [exact Hk|].
  intro k. specialize (Hv k).
  unfold DiscreteBelief.probability. simpl.
  unfold to_number in Hv at 1. rewrite Hv.
  rewrite get_tabulate. destruct (in_dec string_dec k (states m)); simpl; lra.
Qed.

End Predict.
End DiscreteTransitionFacts.

Lemma sum_over_plus (f g : string -> R) (l : list string) :
  sum_over l (fun s => f s + g s) = sum_over l f + sum_over l g.
Proof. induction l as [|s l IH]; simpl; [lra|]. rewrite IH. lra. Qed.

Lemma sum_over_swap (f : string -> string -> R) (l1 l2 : list string) :
  sum_over l1 (fun a => sum_over l2 (fun b => f a b))
  = sum_over l2 (fun b => sum_over l1 (fun a => f a b)).
Proof.
  induction l1 as [|a l1 IH]; simpl.
  - induction l2 as [|b l2 IH2]; simpl; [reflexivity|]. rewrite <- IH2. lra.
  - rewrite IH. now rewrite <- sum_over_plus.
Qed.

(** X19.  [predict] propagates the belief through the transition rows:
    the predicted belief ranges over the model's states, with
    P(s') = Σ_s P(s'|s, a)·P(s); when every row used sums to 1 and the
    belief sums to 1, so does the prediction. *)
Theorem discrete_predict_propagates {B : Type} `{Belief B}
  (m : DiscreteTransition.t) (belief : B) (action : string) :
  DiscreteTransitionFacts.rows_ok m belief action ->
  let predicted := DiscreteTransition.predict m belief action in
  DiscreteBelief.states predicted = DiscreteTransition.states m /\
  (forall next,
     DiscreteBelief.probability predicted next
     = sum_over (states belief)
         (fun current =>
            DiscreteTransitionFacts.transition_prob m action current next
            * probability belief current)) /\
  ((forall current, In current (states belief) ->
      sum_over (DiscreteTransition.states m)
        (DiscreteTransitionFacts.transition_prob m action current) = 1) ->
   sum_over (states belief) (probability belief) = 1 ->
   sum_over (DiscreteBelief.states predicted)
     (DiscreteBelief.probability predicted) = 1).
Proof.
  intros Hok predicted.
  destruct (DiscreteTransitionFacts.predict_value m belief action Hok)
    as [Hst Hval].
  fold predicted in Hst, Hval.
  split; [exact Hst|]. split; [exact Hval|].
  intros Hrows Hsum. rewrite Hst.
  rewrite (sum_over_ext _ _ _ (fun k _ => Hval k)).
  unfold DiscreteTransition.belief_states.
  rewrite sum_over_swap.
  rewrite (sum_over_ext _ (probability belief)); [exact Hsum|].
  intros current Hc. rewrite sum_over_scale. rewrite (Hrows current Hc). lra.
Qed.


Lemma example_rows_ok :
  DiscreteTransitionFacts.rows_ok Example.transition Example.prior "go".
Proof.
  split.
  - simpl. nodup_strings.
  - intros current [<-|[<-|[]]]; simpl;
      (split; [unfold wf; simpl; nodup_strings|intros k Hk; exact Hk]).
Qed.

Lemma discrete_predict_propagates_witness :
  DiscreteBelief.states
    (DiscreteTransition.predict Example.transition Example.prior "go")
  = ["l"; "r"]%string /\
  sum_over
    (DiscreteBelief.states
       (DiscreteTransition.predict Example.transition Example.prior "go"))
    (DiscreteBelief.probability
       (DiscreteTransition.predict Example.transition Example.prior "go"))
  = 1.
Proof.
  destruct (discrete_predict_propagates Example.transition Example.prior "go"
              example_rows_ok) as (Hst & _ & Hsum).
  split; [exact Hst|]. apply Hsum.
  - intros current [<-|[<-|[]]];
      unfold DiscreteTransitionFacts.transition_prob; simpl; lra.
  - unfold Example.prior. belief_total.
    unfold DiscreteBelief.probability. simpl. lra.
Defined.


(** ** Pruning and the width of the search *)

From Stdlib Require Import Sorted.

Section Pruning.
Variables B Obs W : Type.
Variable models : Agent.Models B Obs W.

Local Notation "'efe_le'" :=
  (fun a b : Agent.Beam B => Agent.efe B a <= Agent.efe B b).

Lemma insertBeam_permutation (x : Agent.Beam B) (l : list (Agent.Beam B)) :
  Permutation (Agent.insertBeam B x l) (x :: l).
Proof.
  induction l as [|y l IH]; simpl; [reflexivity|].
  destruct (Rle_dec (Agent.efe B x) (Agent.efe B y)); [reflexivity|].
  rewrite IH. apply perm_swap.
Qed.

Lemma sortBeams_permutation (l : list (Agent.Beam B)) :
  Permutation (Agent.sortBeams B l) l.
Proof.
  induction l as [|x l IH]; simpl; [reflexivity|].
  rewrite insertBeam_permutation. now constructor.
Qed.

Lemma insertBeam_sorted (x : Agent.Beam B) (l : list (Agent.Beam B)) :
  StronglySorted efe_le l -> StronglySorted efe_le (Agent.insertBeam B x l).
Proof.
  induction 1 as [|y l Hs IH Hall]; simpl.
  - repeat constructor.
  - destruct (Rle_dec (Agent.efe B x) (Agent.efe B y)) as [Hle|Hgt].
    + constructor; [now constructor|].
      constructor; [exact Hle|].
      rewrite Forall_forall in Hall |- *. intros z Hz.
      specialize (Hall z Hz). simpl in *. lra.
    + constructor; [exact IH|].
      rewrite Forall_forall in Hall |- *. intros z Hz.
      apply in_insertBeam in Hz. destruct Hz as [->|Hz].
      * simpl. lra.
      * now apply Hall.
Qed.

Lemma sortBeams_sorted (l : list (Agent.Beam B)) :
  StronglySorted efe_le (Agent.sortBeams B l).
Proof.
  induction l as [|x l IH]; simpl; [constructor|].
  now apply insertBeam_sorted.
Qed.

Lemma in_skipn_list {T} (n : nat) (l : list T) (x : T) :
  In x (skipn n l) -> In x l.
Proof.
  revert l. induction n as [|n IH]; intros l Hx; [exact Hx|].
  destruct l as [|z l]; [destruct Hx|]. right. now apply IH.
Qed.

Lemma sorted_firstn_skipn (n : nat) (l : list (Agent.Beam B)) :
  StronglySorted efe_le l ->
  forall k d, In k (firstn n l) -> In d (skipn n l) ->
              Agent.efe B k <= Agent.efe B d.
Proof.
  intro Hs. revert n. induction Hs as [|y l Hs IH Hall]; intros n k d Hk Hd.
  - destruct n; destruct Hk.
  - destruct n as [|n]; simpl in *; [destruct Hk|].
    destruct Hk as [<-|Hk].
    + rewrite Forall_forall in Hall. apply Hall.
      now apply (in_skipn_list n).
    + now apply (IH n).
Qed.

(** X21.  When a positive beam width is exceeded, [prune] keeps exactly
    that many beams, the kept and the dropped beams together are the
    expanded beams, and no kept beam has a higher cumulative EFE than a
    dropped one; otherwise it keeps every beam. *)
Theorem prune_keeps_lowest (beamWidth : Z) (nextBeams : list (Agent.Beam B)) :
  ((0 < beamWidth < Z.of_nat (List.length nextBeams))%Z ->
   let kept := Agent.prune B beamWidth nextBeams in
   List.length kept = Z.to_nat beamWidth /\
   exists dropped,
     Permutation (kept ++ dropped) nextBeams /\
     forall k d, In k kept -> In d dropped ->
                 Agent.efe B k <= Agent.efe B d) /\
  (~ (0 < beamWidth < Z.of_nat (List.length nextBeams))%Z ->
   Agent.prune B beamWidth nextBeams = nextBeams).
Proof.
  split.
  - intros [Hpos Hlt] kept.
    assert (Hk : kept = firstn (Z.to_nat beamWidth) (Agent.sortBeams B nextBeams)).
    { unfold kept, Agent.prune.
      destruct (0 <? beamWidth)%Z eqn:E1; [|apply Z.ltb_ge in E1; lia].
      destruct (beamWidth <? Z.of_nat (List.length nextBeams))%Z eqn:E2;
        [|apply Z.ltb_ge in E2; lia].
      reflexivity. }
    rewrite Hk. split.
    + rewrite length_firstn.
      rewrite (Permutation_length (sortBeams_permutation nextBeams)). lia.
    + exists (skipn (Z.to_nat beamWidth) (Agent.sortBeams B nextBeams)).
      split.
      * rewrite firstn_skipn. apply sortBeams_permutation.
      * apply sorted_firstn_skipn, sortBeams_sorted.
  - intro Hn. unfold Agent.prune.
    destruct (0 <? beamWidth)%Z eqn:E1; [|reflexivity].
    destruct (beamWidth <? Z.of_nat (List.length nextBeams))%Z eqn:E2;
      [|reflexivity].
    apply Z.ltb_lt in E1. apply Z.ltb_lt in E2. lia.
Qed.

Lemma prune_length_le (beamWidth : Z) (l : list (Agent.Beam B)) :
  (0 < beamWidth)%Z ->
  (Z.of_nat (List.length (Agent.prune B beamWidth l)) <= beamWidth)%Z.
Proof.
  intro Hpos. unfold Agent.prune.
  destruct (0 <? beamWidth)%Z eqn:E1; [|apply Z.ltb_ge in E1; lia].
  destruct (beamWidth <? Z.of_nat (List.length l))%Z eqn:E2; simpl.
  - rewrite length_firstn. lia.
  - apply Z.ltb_ge in E2. exact E2.
Qed.

Lemma searchLoop_policy_length (w : W) (beamWidth : Z) (n : nat) :
  forall (beams : list (Agent.Beam B)) (k : nat),
    (forall b, In b beams -> List.length (Agent.policy B b) = k) ->
    forall b,
      In b (Agent.searchLoop B Obs W models w beamWidth n beams) ->
      List.length (Agent.policy B b) = (k + n)%nat.
Proof.
  induction n as [|n IH]; intros beams k Hlen b Hb; simpl in Hb.
  - rewrite Nat.add_0_r. now apply Hlen.
  - replace (k + S n)%nat with (S k + n)%nat by lia.
    apply (IH (Agent.prune B beamWidth (Agent.expand B Obs W models w beams)));
      [|exact Hb].
    intros b' Hb'. apply in_prune in Hb'.
    unfold Agent.expand in Hb'. apply in_flat_map in Hb'.
    destruct Hb' as (b0 & Hb0 & Hb').
    apply in_map_iff in Hb'. destruct Hb' as (a & <- & _).
    simpl. rewrite length_app, (Hlen b0 Hb0). simpl. lia.
Qed.

Lemma searchLoop_width (w : W) (beamWidth : Z) (n : nat) :
  (0 < beamWidth)%Z ->
  forall beams : list (Agent.Beam B),
    (Z.of_nat (List.length
                 (Agent.searchLoop B Obs W models w beamWidth (S n) beams))
     <= beamWidth)%Z.
Proof.
  intro Hpos. induction n as [|n IH]; intro beams.
  - simpl. now apply prune_length_le.
  - change (Agent.searchLoop B Obs W models w beamWidth (S (S n)) beams)
      with (Agent.searchLoop B Obs W models w beamWidth (S n)
              (Agent.prune B beamWidth (Agent.expand B Obs W models w beams))).
    apply IH.
Qed.

(** X22.  Every policy the search ends with has the length of the
    planning horizon, and with a positive beam width and a horizon of
    at least 2 no more beams than the width survive. *)
Theorem search_respects_horizon_and_width (ag : Agent.t B) (w : W) :
  (1 <= Agent._planningHorizon B ag)%Z ->
  (forall beam,
     In beam (Agent.search B Obs W models ag w) ->
     Z.of_nat (List.length (Agent.policy B beam))
     = Agent._planningHorizon B ag) /\
  ((0 < Agent._beamWidth B ag)%Z ->
   (2 <= Agent._planningHorizon B ag)%Z ->
   (Z.of_nat (List.length (Agent.search B Obs W models ag w))
    <= Agent._beamWidth B ag)%Z).
Proof.
  intro Hh. split.
  - intros beam Hb. unfold Agent.search in Hb.
    assert (Hinit : forall b,
              In b (Agent.initialBeams B Obs W models ag w) ->
              List.length (Agent.policy B b) = 1%nat).
    { intros b Hin. unfold Agent.initialBeams in Hin.
      apply in_map_iff in Hin. destruct Hin as (a & <- & _). reflexivity. }
    rewrite (searchLoop_policy_length w _ _ _ 1%nat Hinit beam Hb). lia.
  - intros Hw H2. unfold Agent.search.
    destruct (Z.to_nat (Agent._planningHorizon B ag - 1)) as [|n] eqn:En;
      [lia|].
    now apply searchLoop_width.
Qed.

End Pruning.

Definition pruning_example_beams : list (Agent.Beam unit) :=
  [ {| Agent.policy := ["a"%string]; Agent.efe := 3; Agent.beam_belief := tt |};
    {| Agent.policy := ["b"%string]; Agent.efe := 1; Agent.beam_belief := tt |};
    {| Agent.policy := ["c"%string]; Agent.efe := 2; Agent.beam_belief := tt |} ].

Lemma prune_keeps_lowest_witness :
  List.length (Agent.prune unit 2 pruning_example_beams) = 2%nat.
Proof.
  apply (proj1 (prune_keeps_lowest unit 2 pruning_example_beams)).
  simpl. lia.
Defined.

(** The example agent planning three steps ahead with two beams. *)
Definition pruning_example_agent : Agent.t DiscreteBelief.t :=
  Agent.constructor DiscreteBelief.t string unit Example.models Example.prior
    (Some (Random.constructor 42)) 0 3 1 [] 2.

Lemma search_respects_horizon_and_width_witness :
  (Z.of_nat
     (List.length
        (Agent.search DiscreteBelief.t string unit Example.models
           pruning_example_agent tt)) <= 2)%Z.
Proof.
  apply (proj2 (search_respects_horizon_and_width DiscreteBelief.t string unit
                  Example.models pruning_example_agent tt
                  ltac:(simpl; lia))); simpl; lia.
Defined.

(** ** sampleIndex *)

Lemma sampleLoop_finds (rand : R) (probs : list R) :
  forall (start : Z) (c : R),
    c <= rand -> rand < c + total_of probs ->
    exists j : nat,
      Selection.sampleLoop rand probs start c = Some (start + Z.of_nat j)%Z /\
      (j < List.length probs)%nat /\
      c + total_of (firstn j probs) <= rand
      < c + total_of (firstn (S j) probs).
Proof.
  induction probs as [|p probs IH]; intros start c Hlo Hhi; simpl in *.
  - lra.
  - destruct (Rlt_dec rand (c + p)) as [Hlt|Hge].
    + exists 0%nat. split; [f_equal; lia|]. split; [lia|].
      simpl. lra.
    + destruct (IH (start + 1)%Z (c + p)) as (j & Hj & Hlen & Hb); [lra|lra|].
      exists (S j). split; [rewrite Hj; f_equal; lia|]. split; [lia|].
      simpl. lra.
Qed.

(** X23.  [sampleIndex] inverts the cumulative distribution: when the
    weights sum to at least 1, the index returned is the first one
    whose cumulative weight exceeds the draw (the fallback to the last
    index is not used), and the generator moves on by one draw. *)
Theorem sampleIndex_inverse_cdf (random : Random.t) (probs : list R) :
  1 <= total_of probs ->
  let rand := fst (Random.next random) in
  exists i : nat,
    Selection.sampleIndex random probs
    = (Z.of_nat i, snd (Random.next random)) /\
    (i < List.length probs)%nat /\
    total_of (firstn i probs) <= rand < total_of (firstn (S i) probs).
Proof.
  intros Hsum rand.
  assert (Hr : 0 <= rand < 1).
  { unfold rand.
    change (fst (Random.next random))
      with (IZR (Random.output (Random.state (Random.advance random)))
            / 4294967296).
    pose proof (RandomFacts.output_range
                  (Random.state (Random.advance random))) as [Hlo Hhi].
    apply IZR_le in Hlo. apply IZR_lt in Hhi.
    set (u := IZR (Random.output (Random.state (Random.advance random)))) in *.
    split.
    - apply Rmult_le_pos; [exact Hlo|].
      apply Rlt_le, Rinv_0_lt_compat. lra.
    - apply (Rmult_lt_reg_r 4294967296); [lra|].
      unfold Rdiv. rewrite Rmult_assoc, Rinv_l by lra. lra. }
  destruct (sampleLoop_finds rand probs 0%Z 0) as (j & Hj & Hlen & Hb);
    [lra|lra|].
  exists j. split; [|split; [exact Hlen|lra]].
  unfold Selection.sampleIndex. unfold rand in Hj.
  destruct (Random.next random) as [r0 r1]. simpl in Hj |- *.
  rewrite Hj. reflexivity.
Qed.

Lemma sampleIndex_inverse_cdf_witness :
  fst (Selection.sampleIndex (Random.constructor 42) [0; 1; 0]) = 1%Z.
Proof.
  destruct (sampleIndex_inverse_cdf (Random.constructor 42) [0; 1; 0])
    as (i & Hi & Hlen & Hlo & Hhi).
  - simpl. lra.
  - rewrite Hi. simpl fst.
    destruct i as [|[|[|i]]]; simpl in *; first [lra | lia].
Defined.

(** ** The perception-action cycle *)

Section StepCycle.
Variables B Obs W : Type.
Variable models : Agent.Models B Obs W.

(** What the learning callback of [step] is called with and returns. *)
Definition step_callback (ag : Agent.t B) (w : W) (observation : Obs)
  : result unit * W :=
  match Agent.afterObserve B Obs W models with
  | None => (Ok tt, w)
  | Some f =>
      f observation
        (Agent.om_update B Obs W models w (Agent._belief B ag) observation)
        (Agent._previousAction B ag) (Agent._previousBelief B ag) w
  end.

(** X24.  One [step]: the belief is updated with the models as they
    are before learning; the callback sees that posterior together with
    the action and belief recorded by the previous step; the action is
    then chosen with the models as the callback left them, and the
    posterior and the action are recorded for the next step.  A raise
    in the callback, or an empty action set, leaves the updated belief
    in place, draws nothing and records nothing. *)
Theorem step_cycle (ag : Agent.t B) (w : W) (observation : Obs) :
  let observed := Agent.observe B Obs W models ag w observation in
  let cb := step_callback ag w observation in
  (forall e, fst cb = Throw e ->
     Agent.step B Obs W models ag w observation
     = (Throw e, observed, snd cb)) /\
  (fst cb = Ok tt ->
   Agent.actions B Obs W models (snd cb) = [] ->
   Agent.step B Obs W models ag w observation
   = (Throw TypeError, observed, snd cb)) /\
  (fst cb = Ok tt ->
   Agent.actions B Obs W models (snd cb) <> [] ->
   exists a,
     In a (Agent.actions B Obs W models (snd cb)) /\
     Agent.step B Obs W models ag w observation
     = (Ok (Some a),
        Agent.with_previous B
          (Agent.with_random B observed
             (snd (Random.next (Agent._random B ag))))
          (Some (Agent.om_update B Obs W models w (Agent._belief B ag)
                   observation))
          (Some a),
        snd cb)).
Proof.
  intros observed cb.
  assert (Hstep : Agent.step B Obs W models ag w observation
                  = match fst cb with
                    | Throw e => (Throw e, observed, snd cb)
                    | Ok _ =>
                        match Agent.act B Obs W models observed (snd cb) with
                        | (Throw e, ag') => (Throw e, ag', snd cb)
                        | (Ok action, ag') =>
                            (Ok action,
                             Agent.with_previous B ag'
                               (Some (Agent._belief B ag')) action, snd cb)
                        end
                    end).
  { unfold Agent.step, cb, step_callback. fold observed.
    destruct (Agent.afterObserve B Obs W models) as [f|]; simpl.
    - change (Agent.om_update B Obs W models w (Agent._belief B ag) observation)
        with (Agent._belief B observed).
      change (Agent._previousAction B ag)
        with (Agent._previousAction B observed).
      change (Agent._previousBelief B ag)
        with (Agent._previousBelief B observed).
      destruct (f observation (Agent._belief B observed)
                  (Agent._previousAction B observed)
                  (Agent._previousBelief B observed) w) as [[u|e] w'];
        reflexivity.
    - reflexivity. }
  split; [|split].
  - intros e He. rewrite Hstep, He. reflexivity.
  - intros Hok Hacts. rewrite Hstep, Hok.
    now rewrite (act_no_actions B Obs W models observed (snd cb) Hacts).
  - intros Hok Hacts. rewrite Hstep, Hok.
    destruct (act_with_actions B Obs W models observed (snd cb) Hacts)
      as (a & Hin & Hact).
    exists a. split; [exact Hin|]. rewrite Hact. reflexivity.
Qed.

End StepCycle.

Lemma step_cycle_witness :
  exists a,
    In a ["stay"; "go"]%string /\
    fst (fst (Agent.step DiscreteBelief.t string unit Example.models
                Example.agent tt "see_l"%string))
    = Ok (Some a).
Proof.
  destruct (step_cycle DiscreteBelief.t string unit Example.models
              Example.agent tt "see_l"%string) as (_ & _ & H).
  destruct H as (a & Hin & Hs).
  - reflexivity.
  - simpl. discriminate.
  - exists a. split; [exact Hin|]. rewrite Hs. reflexivity.
Defined.

(** ** Sign of the discrete EFE terms *)

Lemma fold_left_ge {T} (F : R -> T -> R) (l : list T) :
  (forall a x, a <= F a x) -> forall a, a <= fold_left F l a.
Proof.
  intro HF. induction l as [|x l IH]; intro a; simpl; [lra|].
  specialize (HF a x). specialize (IH (F a x)). lra.
Qed.

Lemma fold_left_fixed {T} (F : R -> T -> R) (l : list T) :
  (forall a x, F a x = a) -> forall a, fold_left F l a = a.
Proof.
  intro HF. induction l as [|x l IH]; intro a; simpl; [reflexivity|].
  now rewrite HF.
Qed.

Section EFESign.
Context {B : Type} `{Belief B} {M : Type} `{IObservationModel M}.

(** X25.  When no observation probability exceeds 1 the ambiguity is
    non-negative, and it is 0 for a sensor whose probabilities are all
    0 or 1; when moreover no configured preference is positive and no
    observation without a preference carries the name of a member of
    [Object.prototype], the risk is a non-negative number and so is
    the EFE the discrete agent scores with. *)
Theorem discrete_efe_terms_nonnegative (predicted : B) (observationModel : M)
  (preferences : Preferences) :
  (forall o s, om_probability observationModel o s <= 1) ->
  0 <= Factory.computeAmbiguity predicted observationModel /\
  ((forall o s, om_probability observationModel o s = 0 \/
                om_probability observationModel o s = 1) ->
   Factory.computeAmbiguity predicted observationModel = 0) /\
  ((forall o v, get preferences o = Some v -> v <= 0) ->
   (forall o, In o (observations observationModel) ->
              get preferences o = None -> inherited o = false) ->
   exists risk,
     Factory.computeRisk predicted observationModel preferences = Num risk /\
     0 <= risk /\
     0 <= Factory.discreteEFE observationModel preferences predicted).
Proof.
  intro Hle.
  assert (Hamb : 0 <= Factory.computeAmbiguity predicted observationModel).
  { unfold Factory.computeAmbiguity. apply fold_left_ge.
    intros a s. apply fold_left_ge. intros a' o.
    destruct (Rlt_dec 0 (om_probability observationModel o s)) as [Hp|Hn];
      [|lra].
    destruct (Rlt_dec 0 (probability predicted s)) as [Hq|Hnq]; [|lra].
    assert (ln (om_probability observationModel o s) <= 0).
    { destruct (Req_dec (om_probability observationModel o s) 1) as [E|N].
      - rewrite E, ln_1. lra.
      - rewrite <- ln_1. apply Rlt_le, ln_increasing; [exact Hp|].
        specialize (Hle o s). lra. }
    assert (0 <= probability predicted s * om_probability observationModel o s)
      by nra.
    nra. }
  split; [exact Hamb|]. split.
  - intro Hdet. unfold Factory.computeAmbiguity. apply fold_left_fixed.
    intros a s. apply fold_left_fixed. intros a' o.
    destruct (Rlt_dec 0 (om_probability observationModel o s)) as [Hp|Hn];
      [|reflexivity].
    destruct (Rlt_dec 0 (probability predicted s)) as [Hq|Hnq]; [|reflexivity].
    destruct (Hdet o s) as [E|E]; [lra|]. rewrite E, ln_1. lra.
  - intros Hpref Hnames.
    assert (Hrisk : forall l a,
              (forall o, In o l -> In o (observations observationModel)) ->
              exists risk,
                fold_left
                  (fun risk obs =>
                     let e :=
                       Factory.expectedObsProb predicted observationModel obs in
                     let preferredLogProb :=
                       Factory.preferredLogProb preferences obs in
                     if Rlt_dec 0 e
                     then number_minus risk (number_times e preferredLogProb)
                     else risk) l (Num a)
                = Num risk /\ a <= risk).
    { induction l as [|o l IH]; intros a Hsub; simpl.
      - exists a. split; [reflexivity|lra].
      - assert (Hrest : forall o', In o' l ->
                                   In o' (observations observationModel))
          by (intros o' Ho'; apply Hsub; now right).
        destruct (Rlt_dec 0 (Factory.expectedObsProb predicted
                               observationModel o)) as [He|Hn].
        + assert (Hv : exists v, Factory.preferredLogProb preferences o = Num v
                                 /\ v <= 0).
          { unfold Factory.preferredLogProb, read.
            destruct (get preferences o) as [v|] eqn:E.
            - exists v. split; [reflexivity|]. now apply (Hpref o).
            - rewrite (Hnames o) by (try apply Hsub; auto; now left).
              exists (-10). split; [reflexivity|lra]. }
          destruct Hv as (v & -> & Hv). simpl.
          destruct (IH (a - Factory.expectedObsProb predicted observationModel o
                            * v) Hrest) as (risk & Hr & Hle').
          exists risk. split; [exact Hr|]. nra.
        + apply IH. exact Hrest. }
    destruct (Hrisk (observations observationModel) 0 (fun o Ho => Ho))
      as (risk & Hr & Hpos).
    exists risk. split; [exact Hr|]. split; [exact Hpos|].
    unfold Factory.discreteEFE.
    unfold Factory.computeRisk in Hr |- *. rewrite Hr. simpl. lra.
Qed.

End EFESign.

Lemma discrete_efe_terms_nonnegative_witness :
  Factory.computeAmbiguity risk_example_belief risk_example_model = 0 /\
  exists risk,
    Factory.computeRisk risk_example_belief risk_example_model
      risk_example_preferences = Num risk /\
    0 <= risk.
Proof.
  destruct (discrete_efe_terms_nonnegative risk_example_belief
              risk_example_model risk_example_preferences) as (_ & Hz & Hr).
  - intros o s. unfold risk_example_model. risk_example_probability o s.
  - split.
    + apply Hz. intros o s.
      cbv [om_probability DiscreteObservation_model
           DiscreteObservation.probability
           matrix_probability risk_example_model DiscreteObservation.matrix
           DiscreteObservation.constructor get nullish].
      repeat match goal with
             | |- context [string_dec ?k o] => destruct (string_dec k o)
             | |- context [string_dec ?k s] => destruct (string_dec k s)
             end; auto.
    + destruct Hr as (risk & Hrisk & Hpos & _).
      * intros o v Hv. cbv [risk_example_preferences get] in Hv.
        destruct (string_dec "o1" o); [|discriminate].
        injection Hv as <-. lra.
      * intros o Hin _. simpl in Hin.
        destruct Hin as [<-|[<-|[]]]; reflexivity.
      * exists risk. split; assumption.
Defined.

(** ** transition/gaussian.transition.ts *)

Module GaussianTransition.

(** [interface GaussianActionModel] *)
Record GaussianActionModel : Type := { fn : R -> R; noise : R }.

Definition GaussianTransitionConfig : Type := Obj GaussianActionModel.

Record t : Type := {
  config : GaussianTransitionConfig;
  _actions : list string
}.

Definition constructor (c : GaussianTransitionConfig) : t :=
  {| config := c; _actions := keys c |}.

Definition actions (m : t) : list string := _actions m.

(** The step of the finite difference. *)
Definition h : R := 1 / 100000.

(** [predict]: reading [fn] of a missing action model raises. *)
Definition predict (m : t) (belief : GaussianBelief.t) (action : string)
  : result GaussianBelief.t :=
  match get (config m) action with
  | None => Throw TypeError
  | Some model =>
      let newMean := fn model (GaussianBelief.mean belief) in
      let derivative :=
        (fn model (GaussianBelief.mean belief + h)
         - fn model (GaussianBelief.mean belief - h)) / (2 * h) in
      let newVariance :=
        derivative * derivative * GaussianBelief.variance belief
        + noise model in
      Ok (GaussianBelief.constructor newMean newVariance)
  end.

End GaussianTransition.

(** X26.  [predict] of the Gaussian transition raises for an action
    that is not configured.  For a configured action it moves the mean
    through the action's function and returns a variance that is at
    least the process noise (the prior variance being non-negative);
    for an affine function x ↦ a·x + k the finite difference is exact
    and the variance is a²·σ² + noise. *)
Theorem gaussian_predict_variance (m : GaussianTransition.t)
  (belief : GaussianBelief.t) (action : string) :
  (get (GaussianTransition.config m) action = None ->
   GaussianTransition.predict m belief action = Throw TypeError) /\
  (forall model,
     get (GaussianTransition.config m) action = Some model ->
     exists predicted,
       GaussianTransition.predict m belief action = Ok predicted /\
       GaussianBelief.mean predicted
       = GaussianTransition.fn model (GaussianBelief.mean belief) /\
       (0 <= GaussianBelief.variance belief ->
        GaussianTransition.noise model <= GaussianBelief.variance predicted) /\
       (forall a k,
          (forall x, GaussianTransition.fn model x = a * x + k) ->
          GaussianBelief.variance predicted
          = a * a * GaussianBelief.variance belief
            + GaussianTransition.noise model)).
Proof.
  split.
  - intro Hn. unfold GaussianTransition.predict. now rewrite Hn.
  - intros model Hm. unfold GaussianTransition.predict. rewrite Hm.
    eexists. split; [reflexivity|]. simpl. split; [reflexivity|]. split.
    + intro Hv.
      set (d := (GaussianTransition.fn model (GaussianBelief.mean belief
                                               + GaussianTransition.h)
                 - GaussianTransition.fn model (GaussianBelief.mean belief
                                                - GaussianTransition.h))
                / (2 * GaussianTransition.h)).
      assert (0 <= d * d) by nra.
      assert (0 <= d * d * GaussianBelief.variance belief)
        by (apply Rmult_le_pos; assumption).
      lra.
    + intros a k Hfn. rewrite !Hfn. unfold GaussianTransition.h.
      set (mu := GaussianBelief.mean belief).
      assert (Hd : (a * (mu + 1 / 100000) + k - (a * (mu - 1 / 100000) + k))
                   / (2 * (1 / 100000)) = a) by field.
      rewrite Hd. reflexivity.
Qed.

(** Accelerate by one with process noise 0.1. *)
Definition gaussian_example_transition : GaussianTransition.t :=
  GaussianTransition.constructor
    [("accelerate"%string,
      {| GaussianTransition.fn := fun x => 1 * x + 1;
         GaussianTransition.noise := 1 / 10 |})].

Lemma gaussian_predict_variance_witness :
  exists predicted,
    GaussianTransition.predict gaussian_example_transition
      kalman_example_prior "accelerate" = Ok predicted /\
    GaussianBelief.variance predicted = 1 * 1 * (1 / 10) + 1 / 10.
Proof.
  destruct (proj2 (gaussian_predict_variance gaussian_example_transition
                     kalman_example_prior "accelerate")
              {| GaussianTransition.fn := fun x => 1 * x + 1;
                 GaussianTransition.noise := 1 / 10 |} eq_refl)
    as (predicted & Hp & _ & _ & Haff).
  exists predicted. split; [exact Hp|].
  apply (Haff 1 1). intro x. reflexivity.
Defined.

(** ** preferences/dirichlet.preferences.ts *)

Module DirichletPreferences.

Definition PreferenceConcentrations : Type := Obj R.

Record t : Type := {
  concentrations : PreferenceConcentrations;
  _preferences : option (Obj R)
}.

Definition constructor (c : PreferenceConcentrations) : t :=
  {| concentrations := DiscreteBelief.spread c; _preferences := None |}.

Definition observations (m : t) : list string := keys (concentrations m).

(** The floor of [Math.max(p, 1e-16)]. *)
Definition floor : R := 1 / 10000000000000000.

(** First loop of [normalize]. *)
Definition total (m : t) : R :=
  fold_left (fun sum o => sum + to_number (get (concentrations m) o))
    (observations m) 0.

Definition normalize (m : t) : Obj R :=
  fold_left
    (fun result o =>
       let p := to_number (get (concentrations m) o) / total m in
       set result o (ln (Rmax p floor)))
    (observations m) [].

(** The [preferences] getter: fills the cache on first read. *)
Definition preferences (m : t) : Obj R * t :=
  match _preferences m with
  | Some cached => (cached, m)
  | None =>
      let computed := normalize m in
      (computed,
       {| concentrations := concentrations m; _preferences := Some computed |})
  end.

(** [learn(observation, amount = 1)] *)
Definition learn (m : t) (observation : string) (amount : option R) : t :=
  {| concentrations :=
       set (concentrations m) observation
         (to_number (get (concentrations m) observation) + nullish amount 1);
     _preferences := None |}.

End DirichletPreferences.

Module DirichletPreferencesFacts.
Import DirichletPreferences.

Lemma ln_le_compat (x y : R) : 0 < x -> x <= y -> ln x <= ln y.
Proof.
  intros Hx [Hlt|Heq].
  - apply Rlt_le. now apply ln_increasing.
  - rewrite Heq. lra.
Qed.

Lemma floor_pos : 0 < floor.
Proof. unfold floor. lra. Qed.

(** The log-preference is monotone in the probability it is taken of. *)
Lemma floored_log_monotone (p q : R) :
  p <= q -> ln (Rmax p floor) <= ln (Rmax q floor).
Proof.
  intro Hpq. pose proof floor_pos. apply ln_le_compat.
  - apply Rlt_le_trans with floor; [assumption|apply Rmax_r].
  - apply Rmax_lub; [|apply Rmax_r].
    apply Rle_trans with q; [exact Hpq|apply Rmax_l].
Qed.

Lemma total_as_sum (m : t) :
  total m
  = sum_over (observations m) (fun o => to_number (get (concentrations m) o)).
Proof.
  unfold total.
  rewrite (fold_left_plus_sum_over
             (fun o => to_number (get (concentrations m) o))).
  lra.
Qed.

Lemma preference_entry (m : t) (o : string) :
  In o (observations m) ->
  get (normalize m) o
  = Some (ln (Rmax (to_number (get (concentrations m) o) / total m) floor)).
Proof.
  intro Ho. unfold normalize.
  now rewrite (get_fold_set_in
                 (fun o => ln (Rmax (to_number (get (concentrations m) o)
                                     / total m) floor))).
Qed.

Lemma sum_over_ge_member (f : string -> R) (l : list string) (k : string) :
  In k l -> (forall x, In x l -> 0 <= f x) -> f k <= sum_over l f.
Proof.
  induction l as [|x l IH]; intros Hin Hnn; [destruct Hin|]. simpl.
  assert (0 <= f x) by (apply Hnn; now left).
  assert (0 <= sum_over l f)
    by (apply sum_over_nonneg; intros; apply Hnn; now right).
  destruct Hin as [->|Hin]; [lra|].
  assert (f k <= sum_over l f) by (apply IH; auto; intros; apply Hnn; now right).
  lra.
Qed.

End DirichletPreferencesFacts.

(** X27.  The derived log-preferences are log-probabilities with a
    floor: for non-negative concentrations with a positive sum, every
    configured observation gets a value between ln(1e-16) and 0, and an
    observation that is not configured gets no entry. *)
Theorem dirichlet_preferences_bounds (m : DirichletPreferences.t) :
  (forall o, In o (DirichletPreferences.observations m) ->
             0 <= to_number (get (DirichletPreferences.concentrations m) o)) ->
  0 < DirichletPreferences.total m ->
  (forall o, In o (DirichletPreferences.observations m) ->
     exists v,
       get (DirichletPreferences.normalize m) o = Some v /\
       ln DirichletPreferences.floor <= v <= 0) /\
  (forall o, ~ In o (DirichletPreferences.observations m) ->
     get (DirichletPreferences.normalize m) o = None).
Proof.
  intros Hnn Hpos. split.
  - intros o Ho. eexists. split;
      [now apply DirichletPreferencesFacts.preference_entry|].
    pose proof DirichletPreferencesFacts.floor_pos as Hf.
    set (p := to_number (get (DirichletPreferences.concentrations m) o)
              / DirichletPreferences.total m).
    assert (Hp1 : p <= 1).
    { unfold p. apply (Rmult_le_reg_r (DirichletPreferences.total m));
        [exact Hpos|].
      unfold Rdiv. rewrite Rmult_assoc, Rinv_l, Rmult_1_r, Rmult_1_l by lra.
      rewrite DirichletPreferencesFacts.total_as_sum.
      now apply (DirichletPreferencesFacts.sum_over_ge_member
                   (fun o => to_number
                               (get (DirichletPreferences.concentrations m) o))). }
    split.
    + apply DirichletPreferencesFacts.ln_le_compat; [exact Hf|apply Rmax_r].
    + rewrite <- ln_1. apply DirichletPreferencesFacts.ln_le_compat.
      * apply Rlt_le_trans with DirichletPreferences.floor;
          [exact Hf|apply Rmax_r].
      * apply Rmax_lub; [exact Hp1|].
        unfold DirichletPreferences.floor. lra.
  - intros o Ho. unfold DirichletPreferences.normalize.
    now rewrite (get_fold_set_other
                   (fun o =>
                      ln (Rmax
                            (to_number
                               (get (DirichletPreferences.concentrations m) o)
                             / DirichletPreferences.total m)
                            DirichletPreferences.floor))).
Qed.

(** X28.  Reinforcing a configured observation by a positive amount
    never lowers its log-preference and never raises that of another
    configured observation (concentrations non-negative with a positive
    sum); the cache is dropped. *)
Theorem dirichlet_preferences_learn_monotone (m : DirichletPreferences.t)
  (observation : string) (amount : R) :
  wf (DirichletPreferences.concentrations m) ->
  In observation (DirichletPreferences.observations m) ->
  (forall o, In o (DirichletPreferences.observations m) ->
             0 <= to_number (get (DirichletPreferences.concentrations m) o)) ->
  0 < DirichletPreferences.total m ->
  0 < amount ->
  let m' := DirichletPreferences.learn m observation (Some amount) in
  DirichletPreferences._preferences m' = None /\
  DirichletPreferences.observations m' = DirichletPreferences.observations m /\
  forall o v v',
    In o (DirichletPreferences.observations m) ->
    get (DirichletPreferences.normalize m) o = Some v ->
    get (DirichletPreferences.normalize m') o = Some v' ->
    (o = observation -> v <= v') /\ (o <> observation -> v' <= v).
Proof.
  intros Hwf Hin Hnn Hpos Ha m'.
  set (c := DirichletPreferences.concentrations m) in *.
  assert (Hk : DirichletPreferences.observations m'
               = DirichletPreferences.observations m).
  { unfold DirichletPreferences.observations, m'. simpl.
    now apply keys_set_present. }
  assert (Hsame : to_number (get (DirichletPreferences.concentrations m')
                               observation)
                  = to_number (get c observation) + amount).
  { unfold m'. simpl. now rewrite get_set_same. }
  assert (Hoth : forall o, o <> observation ->
            to_number (get (DirichletPreferences.concentrations m') o)
            = to_number (get c o)).
  { intros o Ho. unfold m'. simpl. rewrite get_set_other; [reflexivity|].
    congruence. }
  assert (Htot : DirichletPreferences.total m'
                 = DirichletPreferences.total m + amount).
  { rewrite !DirichletPreferencesFacts.total_as_sum, Hk.
    apply (sum_over_point_update _ _ observation); auto. }
  split; [reflexivity|]. split; [exact Hk|].
  intros o v v' Ho Hv Hv'.
  rewrite DirichletPreferencesFacts.preference_entry in Hv by exact Ho.
  rewrite DirichletPreferencesFacts.preference_entry in Hv'
    by (rewrite Hk; exact Ho).
  injection Hv as <-. injection Hv' as <-.
  rewrite Htot. fold c.
  set (S := DirichletPreferences.total m) in *.
  assert (Hle : to_number (get c o) <= S).
  { unfold S. rewrite DirichletPreferencesFacts.total_as_sum.
    now apply (DirichletPreferencesFacts.sum_over_ge_member
                 (fun o => to_number (get c o))). }
  pose proof (Hnn o Ho) as H0. fold c in H0.
  split.
  - intros ->.
    unfold m' in Hsame. simpl DirichletPreferences.concentrations in Hsame.
    fold c in Hsame. rewrite Hsame.
    apply DirichletPreferencesFacts.floored_log_monotone.
    set (x := to_number (get c observation)) in *.
    apply (Rmult_le_reg_r (S * (S + amount))); [nra|].
    replace (x / S * (S * (S + amount))) with (x * (S + amount))
      by (field; lra).
    replace ((x + amount) / (S + amount) * (S * (S + amount)))
      with ((x + amount) * S) by (field; lra).
    nra.
  - intro Hne. specialize (Hoth o Hne).
    unfold m' in Hoth. simpl DirichletPreferences.concentrations in Hoth.
    fold c in Hoth. rewrite Hoth.
    apply DirichletPreferencesFacts.floored_log_monotone.
    set (x := to_number (get c o)) in *.
    apply (Rmult_le_reg_r (S * (S + amount))); [nra|].
    replace (x / S * (S * (S + amount))) with (x * (S + amount))
      by (field; lra).
    replace (x / (S + amount) * (S * (S + amount))) with (x * S)
      by (field; lra).
    nra.
Qed.

(** The preferences of the class documentation. *)
Definition preferences_example : DirichletPreferences.t :=
  {| DirichletPreferences.concentrations :=
       [("reward"%string, 10); ("no_reward"%string, 1)];
     DirichletPreferences._preferences := None |}.

Lemma preferences_example_nonneg :
  forall o,
    In o (DirichletPreferences.observations preferences_example) ->
    0 <= to_number
           (get (DirichletPreferences.concentrations preferences_example) o).
Proof. intros o [<-|[<-|[]]]; simpl; lra. Qed.

Lemma preferences_example_total :
  0 < DirichletPreferences.total preferences_example.
Proof. unfold DirichletPreferences.total. simpl. lra. Qed.

Lemma dirichlet_preferences_bounds_witness :
  exists v,
    get (DirichletPreferences.normalize preferences_example) "reward" = Some v
    /\ ln DirichletPreferences.floor <= v <= 0.
Proof.
  apply (proj1 (dirichlet_preferences_bounds preferences_example
                  preferences_example_nonneg preferences_example_total)).
  simpl. now left.
Defined.

Lemma dirichlet_preferences_learn_monotone_witness :
  exists v v',
    get (DirichletPreferences.normalize preferences_example) "no_reward"
    = Some v /\
    get (DirichletPreferences.normalize
           (DirichletPreferences.learn preferences_example "reward" (Some 1)))
      "no_reward" = Some v' /\
    v' <= v.
Proof.
  destruct (dirichlet_preferences_learn_monotone preferences_example
              "reward" 1) as (_ & _ & H).
  - unfold wf. simpl. nodup_strings.
  - simpl. now left.
  - exact preferences_example_nonneg.
  - exact preferences_example_total.
  - lra.
  - eexists. eexists. split; [reflexivity|]. split; [reflexivity|].
    refine (proj2 (H "no_reward"%string _ _ _ eq_refl eq_refl) _).
    + simpl. right. now left.
    + discriminate.
Defined.

(** ** transition/dirichlet.transition.ts: concentrations and learn *)

Module DirichletTransition.

Definition TransitionConcentrations : Type := Obj (Obj (Obj R)).

(** [concentrations] and the private cache [_matrix] ([None] = null). *)
Record t : Type := {
  concentrations : TransitionConcentrations;
  _matrix : option (Obj (Obj (Obj R)))
}.

(** The constructor rebuilds both outer levels and spreads every row. *)
Definition constructor (concentrations : TransitionConcentrations) : t :=
  {| concentrations :=
       fold_left
         (fun acc a =>
            let rows := nullish (get concentrations a) [] in
            set acc a
              (fold_left
                 (fun accRows s =>
                    set accRows s
                      (DiscreteBelief.spread (nullish (get rows s) [])))
                 (keys rows) []))
         (keys concentrations) [];
     _matrix := None |}.

Definition actions (m : t) : list string := keys (concentrations m).

Definition states (m : t) : list string :=
  match actions m with
  | [] => []
  | firstAction :: _ => keys (nullish (get (concentrations m) firstAction) [])
  end.

(** [this.concentrations[a][s][s']] read as a number. *)
Definition cell (c : TransitionConcentrations) (a s s' : string) : R :=
  to_number (get (nullish (get (nullish (get c a) []) s) []) s').

(** The body of the inner loop of [learn]:
    [this.concentrations[action][s][sPrime] += ...]; reading through a
    missing action or a missing row raises. *)
Definition learn_step (action : string) (priorBelief posteriorBelief : Distribution)
  (c : TransitionConcentrations) (s sPrime : string)
  : result TransitionConcentrations :=
  match get c action with
  | None => Throw TypeError
  | Some rows =>
      match get rows s with
      | None => Throw TypeError
      | Some row =>
          Ok (set c action
                (set rows s
                   (set row sPrime
                      (to_number (get row sPrime)
                       + nullish (get priorBelief s) 0
                         * nullish (get posteriorBelief sPrime) 0))))
      end
  end.

Fixpoint learn_inner (action : string) (priorBelief posteriorBelief : Distribution)
  (s : string) (c : TransitionConcentrations) (sPrimes : list string)
  : result unit * TransitionConcentrations :=
  match sPrimes with
  | [] => (Ok tt, c)
  | sPrime :: rest =>
      match learn_step action priorBelief posteriorBelief c s sPrime with
      | Throw e => (Throw e, c)
      | Ok c' => learn_inner action priorBelief posteriorBelief s c' rest
      end
  end.

Fixpoint learn_outer (action : string) (priorBelief posteriorBelief : Distribution)
  (sts : list string) (c : TransitionConcentrations) (ss : list string)
  : result unit * TransitionConcentrations :=
  match ss with
  | [] => (Ok tt, c)
  | s :: rest =>
      match learn_inner action priorBelief posteriorBelief s c sts with
      | (Throw e, c') => (Throw e, c')
      | (Ok _, c') =>
          learn_outer action priorBelief posteriorBelief sts c' rest
      end
  end.

(** [learn]: the outcome and the object as the call leaves it; the
    cache is dropped only when both loops complete. *)
Definition learn (m : t) (action : string)
  (priorBelief posteriorBelief : Distribution) : result unit * t :=
  match learn_outer action priorBelief posteriorBelief (states m)
          (concentrations m) (states m)
  with
  | (Ok _, c) => (Ok tt, {| concentrations := c; _matrix := None |})
  | (Throw e, c) => (Throw e, {| concentrations := c; _matrix := _matrix m |})
  end.

End DirichletTransition.

Module DirichletTransitionFacts.
Import DirichletTransition.

Lemma set_set {V} (o : Obj V) k v v' : set (set o k v) k v' = set o k v'.
Proof.
  induction o as [|[k0 v0] o IH]; simpl.
  - destruct (string_dec k k); congruence.
  - destruct (string_dec k0 k) as [E|N]; simpl.
    + destruct (string_dec k0 k); congruence.
    + destruct (string_dec k0 k); [contradiction|]. now rewrite IH.
Qed.

Lemma set_same {V} (o : Obj V) k v : get o k = Some v -> set o k v = o.
Proof.
  induction o as [|[k0 v0] o IH]; simpl; [discriminate|].
  destruct (string_dec k0 k) as [E|N].
  - intro H. injection H as ->. reflexivity.
  - intro H. now rewrite IH.
Qed.

Section Learn.
Variable action : string.
Variables priorBelief posteriorBelief : Distribution.

(** The amount added to b[action][s][s']. *)
Definition increment (s s' : string) : R :=
  nullish (get priorBelief s) 0 * nullish (get posteriorBelief s') 0.

(** The inner loop on one row. *)
Definition bump_row (s : string) (sPrimes : list string) (row : Obj R) : Obj R :=
  fold_left (fun r k => set r k (to_number (get r k) + increment s k))
    sPrimes row.

Lemma bump_row_keys (s : string) (sPrimes : list string) :
  forall row, (forall k, In k sPrimes -> In k (keys row)) ->
              keys (bump_row s sPrimes row) = keys row.
Proof.
  induction sPrimes as [|k ks IH]; intros row Hsub; [reflexivity|].
  assert (Hk : keys (set row k (to_number (get row k) + increment s k))
               = keys row) by (apply keys_set_present, Hsub; now left).
  change (bump_row s (k :: ks) row)
    with (bump_row s ks (set row k (to_number (get row k) + increment s k))).
  rewrite IH; [exact Hk|].
  intros k' Hk'. rewrite Hk. apply Hsub. now right.
Qed.

Lemma learn_inner_ok (s : string) (sPrimes : list string) :
  forall c rows row,
    get c action = Some rows -> get rows s = Some row ->
    learn_inner action priorBelief posteriorBelief s c sPrimes
    = (Ok tt, set c action (set rows s (bump_row s sPrimes row))).
Proof.
  induction sPrimes as [|k ks IH]; intros c rows row Hrows Hrow; simpl.
  - rewrite (set_same rows s row Hrow). now rewrite (set_same c action rows Hrows).
  - unfold learn_step. rewrite Hrows, Hrow.
    set (row1 := set row k _).
    rewrite (IH _ (set rows s row1) row1);
      [|apply get_set_same|apply get_set_same].
    now rewrite !set_set.
Qed.

(** The outer loop on the rows of the action. *)
Definition bump_rows (sts ss : list string) (rows : Obj (Obj R)) : Obj (Obj R) :=
  fold_left (fun rs s => set rs s (bump_row s sts (nullish (get rs s) [])))
    ss rows.

Lemma learn_outer_ok (sts ss : list string) :
  forall c rows,
    get c action = Some rows ->
    (forall s, In s ss -> In s (keys rows)) ->
    learn_outer action priorBelief posteriorBelief sts c ss
    = (Ok tt, set c action (bump_rows sts ss rows)).
Proof.
  induction ss as [|s ss IH]; intros c rows Hrows Hsub; simpl.
  - now rewrite (set_same c action rows Hrows).
  - assert (Hs : In s (keys rows)) by (apply Hsub; now left).
    apply get_in_keys in Hs.
    destruct (get rows s) as [row|] eqn:Hrow; [|congruence].
    rewrite (learn_inner_ok s sts c rows row Hrows Hrow).
    rewrite (IH _ (set rows s (bump_row s sts row))).
    + rewrite set_set.
      change (bump_rows sts (s :: ss) rows)
        with (bump_rows sts ss
                (set rows s (bump_row s sts (nullish (get rows s) [])))).
      pose proof (f_equal (fun x => nullish x ([] : Obj R)) Hrow) as E.
      simpl in E. do 5 f_equal. symmetry. exact E.
    + apply get_set_same.
    + intros s' Hs'. rewrite keys_set_present.
      * apply Hsub. now right.
      * eapply get_some_in_keys; eauto.
Qed.

Lemma bump_rows_get (sts ss : list string) :
  NoDup ss ->
  forall rows s,
    get (bump_rows sts ss rows) s
    = if in_dec string_dec s ss
      then Some (bump_row s sts (nullish (get rows s) []))
      else get rows s.
Proof.
  induction 1 as [|x ss Hx Hnd IH]; intros rows s; simpl; [reflexivity|].
  unfold bump_rows in *. simpl. rewrite IH.
  destruct (string_dec x s) as [->|N].
  - destruct (in_dec string_dec s ss); [contradiction|]. apply get_set_same.
  - destruct (in_dec string_dec s ss).
    + now rewrite get_set_other.
    + now apply get_set_other.
Qed.

Lemma bump_row_get (s : string) (sPrimes : list string) (row : Obj R) :
  NoDup sPrimes -> (forall k, In k sPrimes -> In k (keys row)) ->
  forall k,
    to_number (get (bump_row s sPrimes row) k)
    = to_number (get row k)
      + (if in_dec string_dec k sPrimes then increment s k else 0).
Proof.
  intros Hnd Hsub.
  apply (DiscreteTransitionFacts.accumulate_keys (increment s) sPrimes row
           Hsub Hnd).
Qed.

End Learn.

(** The rows of the action cover the model's states. *)
Definition action_rows_ok (m : t) (action : string) : Prop :=
  NoDup (states m) /\
  exists rows,
    get (concentrations m) action = Some rows /\
    forall s, In s (states m) ->
      exists row, get rows s = Some row /\
                  forall k, In k (states m) -> In k (keys row).

End DirichletTransitionFacts.

Import DirichletTransitionFacts.

(** X29.  [learn] of the Dirichlet transition adds the outer product of
    the two beliefs to the rows of the action taken:
    b[a][s][s'] += prior(s)·posterior(s') for all states s, s', leaving
    the other actions untouched and dropping the cache.  For an action
    that is not configured (the model having at least one state) it
    raises at the first increment and changes nothing. *)
Theorem dirichlet_transition_learn (m : DirichletTransition.t)
  (action : string) (priorBelief posteriorBelief : Distribution) :
  (action_rows_ok m action ->
   exists m',
     DirichletTransition.learn m action priorBelief posteriorBelief
     = (Ok tt, m') /\
     DirichletTransition._matrix m' = None /\
     DirichletTransition.actions m' = DirichletTransition.actions m /\
     (forall s s',
        In s (DirichletTransition.states m) ->
        In s' (DirichletTransition.states m) ->
        DirichletTransition.cell (DirichletTransition.concentrations m')
          action s s'
        = DirichletTransition.cell (DirichletTransition.concentrations m)
            action s s'
          + nullish (get priorBelief s) 0 * nullish (get posteriorBelief s') 0)
     /\
     (forall a, a <> action ->
        get (DirichletTransition.concentrations m') a
        = get (DirichletTransition.concentrations m) a)) /\
  (~ In action (DirichletTransition.actions m) ->
   DirichletTransition.states m <> [] ->
   DirichletTransition.learn m action priorBelief posteriorBelief
   = (Throw TypeError, m)).
Proof.
  split.
  - intros (Hnd & rows & Hrows & Hcover).
    set (sts := DirichletTransition.states m) in *.
    assert (Hsub : forall s, In s sts -> In s (keys rows)).
    { intros s Hs. destruct (Hcover s Hs) as (row & Hrow & _).
      eapply get_some_in_keys; eauto. }
    pose proof (learn_outer_ok action priorBelief posteriorBelief sts sts
                  (DirichletTransition.concentrations m) rows Hrows Hsub)
      as Hl.
    eexists. unfold DirichletTransition.learn. fold sts. rewrite Hl.
    split; [reflexivity|]. simpl. split; [reflexivity|]. split.
    { unfold DirichletTransition.actions. simpl.
      apply keys_set_present. eapply get_some_in_keys; eauto. }
    split.
    + intros s s' Hs Hs'.
      destruct (Hcover s Hs) as (row & Hrow & Hkeys).
      unfold DirichletTransition.cell.
      rewrite get_set_same, Hrows. simpl.
      pose proof (bump_rows_get priorBelief posteriorBelief sts sts Hnd rows s)
        as Hg.
      destruct (in_dec string_dec s sts) as [_|N]; [|contradiction].
      pose proof (f_equal (fun x => nullish x ([] : Obj R)) Hrow) as E.
      simpl in E.
      pose proof (f_equal (fun x => nullish x ([] : Obj R)) Hg) as Eg.
      simpl in Eg.
      etransitivity; [exact (f_equal (fun r => to_number (get r s')) Eg)|].
      etransitivity;
        [exact (f_equal
                  (fun r => to_number
                              (get (bump_row priorBelief posteriorBelief
                                      s sts r) s')) E)|].
      rewrite (bump_row_get priorBelief posteriorBelief s sts row Hnd Hkeys).
      destruct (in_dec string_dec s' sts) as [_|N]; [|contradiction].
      unfold increment.
      exact (f_equal
               (fun r => to_number (get r s')
                         + nullish (get priorBelief s) 0
                           * nullish (get posteriorBelief s') 0)
               (eq_sym E)).
    + intros a Ha. apply get_set_other. congruence.
  - intros Habs Hne.
    apply get_none_not_in in Habs.
    unfold DirichletTransition.learn.
    destruct (DirichletTransition.states m) as [|s rest]; [congruence|].
    simpl. unfold DirichletTransition.learn_step.
    replace (get (DirichletTransition.concentrations m) action)
      with (@None (Obj (Obj R))) by (symmetry; exact Habs).
    destruct m; reflexivity.
Qed.

Definition transition_learn_example : DirichletTransition.t :=
  {| DirichletTransition.concentrations :=
       [("move"%string,
         [("here"%string, [("here"%string, 1); ("there"%string, 1)]);
          ("there"%string, [("here"%string, 1); ("there"%string, 1)])])];
     DirichletTransition._matrix := None |}.

Lemma transition_learn_example_ok :
  action_rows_ok transition_learn_example "move".
Proof.
  split.
  - simpl. nodup_strings.
  - eexists. split; [reflexivity|].
    intros s [<-|[<-|[]]]; eexists; (split; [reflexivity|]);
      intros k Hk; exact Hk.
Qed.

Lemma dirichlet_transition_learn_witness :
  exists m',
    DirichletTransition.learn transition_learn_example "move"
      [("here"%string, 1)] [("there"%string, 1)] = (Ok tt, m') /\
    DirichletTransition.cell (DirichletTransition.concentrations m')
      "move" "here" "there" = 2.
Proof.
  destruct (proj1 (dirichlet_transition_learn transition_learn_example "move"
                     [("here"%string, 1)] [("there"%string, 1)])
              transition_learn_example_ok)
    as (m' & Hl & _ & _ & Hcell & _).
  exists m'. split; [exact Hl|].
  rewrite Hcell by (simpl; tauto).
  unfold DirichletTransition.cell. simpl. lra.
Defined.

(** ** models/gaussian-agent.model.ts *)

Module GaussianAgent.

(** The private fields and the constructor's parameter properties. *)
Record t : Type := {
  _belief : GaussianBelief.t;
  _random : Random.t;
  _planningHorizon : Z;
  _precision : R;
  transitionModel : GaussianTransition.t;
  observationModel : GaussianObservation.t;
  preferences : R -> R
}.

Definition constructor (belief : GaussianBelief.t)
  (transitionModel : GaussianTransition.t)
  (observationModel : GaussianObservation.t) (preferences : R -> R)
  (random : option Random.t) (now : Z) (planningHorizon : Z) (precision : R)
  : t :=
  {| _belief := GaussianBelief.copy belief;
     _random := nullish random (Random.constructor now);
     _planningHorizon := Z.max 1 planningHorizon;
     _precision := Rmax 0 precision;
     transitionModel := transitionModel;
     observationModel := observationModel;
     preferences := preferences |}.

Definition with_belief (ag : t) (b : GaussianBelief.t) : t :=
  {| _belief := b;
     _random := _random ag;
     _planningHorizon := _planningHorizon ag;
     _precision := _precision ag;
     transitionModel := transitionModel ag;
     observationModel := observationModel ag;
     preferences := preferences ag |}.

Definition with_random (ag : t) (r : Random.t) : t :=
  {| _belief := _belief ag;
     _random := r;
     _planningHorizon := _planningHorizon ag;
     _precision := _precision ag;
     transitionModel := transitionModel ag;
     observationModel := observationModel ag;
     preferences := preferences ag |}.

Definition state (ag : t) : R := GaussianBelief.mean (_belief ag).

Definition uncertainty (ag : t) : R := GaussianBelief.variance (_belief ag).

Definition observe (ag : t) (observation : R) : t :=
  with_belief ag
    (GaussianObservation.update (observationModel ag) (_belief ag) observation).

Definition resetBelief (ag : t) (b : GaussianBelief.t) : t :=
  with_belief ag (GaussianBelief.copy b).

Definition exportBelief (ag : t) : R * R :=
  (GaussianBelief.mean (_belief ag), GaussianBelief.variance (_belief ag)).

Definition computeRisk (ag : t) (predicted : GaussianBelief.t) : R :=
  - preferences ag
      (GaussianObservation.expectedObservation (observationModel ag) predicted).

(** A loop that pushes one result per element and is abandoned by the
    first raise. *)
Fixpoint collect {X Y : Type} (f : X -> result Y) (l : list X)
  : result (list Y) :=
  match l with
  | [] => Ok []
  | x :: rest =>
      match f x with
      | Throw e => Throw e
      | Ok y =>
          match collect f rest with
          | Throw e => Throw e
          | Ok ys => Ok (y :: ys)
          end
      end
  end.

Definition Beam : Type := Agent.Beam GaussianBelief.t.

Definition initialBeams (ag : t) : result (list Beam) :=
  collect
    (fun action =>
       match GaussianTransition.predict (transitionModel ag) (_belief ag) action
       with
       | Throw e => Throw e
       | Ok predicted =>
           Ok {| Agent.policy := [action];
                 Agent.efe := computeRisk ag predicted;
                 Agent.beam_belief := predicted |}
       end)
    (GaussianTransition.actions (transitionModel ag)).

Definition expand (ag : t) (beams : list Beam) : result (list Beam) :=
  match
    collect
      (fun beam : Beam =>
         collect
           (fun action =>
              match GaussianTransition.predict (transitionModel ag)
                      (Agent.beam_belief GaussianBelief.t beam) action
              with
              | Throw e => Throw e
              | Ok predicted =>
                  Ok {| Agent.policy :=
                          Agent.policy GaussianBelief.t beam ++ [action];
                        Agent.efe :=
                          Agent.efe GaussianBelief.t beam
                          + computeRisk ag predicted;
                        Agent.beam_belief := predicted |}
              end)
           (GaussianTransition.actions (transitionModel ag)))
      beams
  with
  | Throw e => Throw e
  | Ok perBeam => Ok (List.concat perBeam)
  end.

Fixpoint searchLoop (ag : t) (iterations : nat) (beams : list Beam)
  : result (list Beam) :=
  match iterations with
  | 0%nat => Ok beams
  | S n =>
      match expand ag beams with
      | Throw e => Throw e
      | Ok nextBeams => searchLoop ag n nextBeams
      end
  end.

Definition act (ag : t) : result (option string) * t :=
  match initialBeams ag with
  | Throw e => (Throw e, ag)
  | Ok beams =>
      match searchLoop ag (Z.to_nat (_planningHorizon ag - 1)) beams with
      | Throw e => (Throw e, ag)
      | Ok beams =>
          let policyEFEs := map (Agent.efe GaussianBelief.t) beams in
          match LinearAlgebra.softmin policyEFEs (_precision ag) with
          | Throw e => (Throw e, ag)
          | Ok policyProbs =>
              let '(idx, random') :=
                Selection.sampleIndex (_random ag) policyProbs in
              match Selection.index beams idx with
              | None => (Throw TypeError, with_random ag random')
              | Some beam =>
                  (Ok (hd_error (Agent.policy GaussianBelief.t beam)),
                   with_random ag random')
              end
          end
      end
  end.

Definition step (ag : t) (observation : R) : result (option string) * t :=
  act (observe ag observation).

End GaussianAgent.

(** ** factory.ts: createGaussianAgent *)

Module CreateGaussian.

(** [predict] as the generic agent calls it, on the model's own
    actions (where it does not raise). *)
Definition predictOwn (tm : GaussianTransition.t) (b : GaussianBelief.t)
  (action : string) : GaussianBelief.t :=
  match GaussianTransition.predict tm b action with
  | Ok predicted => predicted
  | Throw _ => b
  end.

(** The models and scorer [createGaussianAgent] hands to [Agent]:
    EFE = −C(E[y]), no learning callback. *)
Definition gaussianModels (tm : GaussianTransition.t)
  (om : GaussianObservation.t) (preferences : R -> R)
  : Agent.Models GaussianBelief.t R unit :=
  {| Agent.belief_copy := GaussianBelief.copy;
     Agent.actions := fun _ => GaussianTransition.actions tm;
     Agent.predict := fun _ b a => predictOwn tm b a;
     Agent.om_update := fun _ b y => GaussianObservation.update om b y;
     Agent.computeEFE :=
       fun _ predicted =>
         - preferences (GaussianObservation.expectedObservation om predicted);
     Agent.afterObserve := None |}.

Definition createGaussianAgent (belief : GaussianBelief.t)
  (tm : GaussianTransition.t) (om : GaussianObservation.t)
  (preferences : R -> R) (seed : option Z) (now : Z)
  (planningHorizon : option Z) (precision : option R)
  : Agent.t GaussianBelief.t :=
  Agent.constructor GaussianBelief.t R unit (gaussianModels tm om preferences)
    belief
    (Some (Create.newRandom seed now)) now
    (nullish planningHorizon 1%Z)
    (nullish precision 1)
    [] 0%Z.

End CreateGaussian.

Module GaussianAgentFacts.

Lemma collect_ok {X Y : Type} (f : X -> result Y) (g : X -> Y) (l : list X) :
  (forall x, In x l -> f x = Ok (g x)) ->
  GaussianAgent.collect f l = Ok (map g l).
Proof.
  induction l as [|x l IH]; intro Hf; simpl; [reflexivity|].
  rewrite (Hf x) by now left.
  rewrite IH by (intros y Hy; apply Hf; now right). reflexivity.
Qed.

Lemma predict_own (tm : GaussianTransition.t) (b : GaussianBelief.t)
  (action : string) :
  In action (keys (GaussianTransition.config tm)) ->
  GaussianTransition.predict tm b action
  = Ok (CreateGaussian.predictOwn tm b action).
Proof.
  intro Hin. apply in_keys_get in Hin. destruct Hin as [model Hm].
  unfold CreateGaussian.predictOwn, GaussianTransition.predict.
  rewrite Hm. reflexivity.
Qed.

Lemma index_map {X Y : Type} (f : X -> Y) (l : list X) (idx : Z) :
  Selection.index (map f l) idx = option_map f (Selection.index l idx).
Proof.
  unfold Selection.index. destruct (idx <? 0)%Z; [reflexivity|].
  apply nth_error_map.
Qed.

(** The dedicated agent and the generic one hold the same belief,
    generator and settings; the generic one has neither habits nor a
    beam width, and the transition model lists its configured
    actions. *)
Definition agree (ag : GaussianAgent.t) (gen : Agent.t GaussianBelief.t)
  : Prop :=
  GaussianAgent._belief ag = Agent._belief GaussianBelief.t gen /\
  GaussianAgent._random ag = Agent._random GaussianBelief.t gen /\
  GaussianAgent._planningHorizon ag
  = Agent._planningHorizon GaussianBelief.t gen /\
  GaussianAgent._precision ag = Agent._precision GaussianBelief.t gen /\
  Agent._habits GaussianBelief.t gen = [] /\
  Agent._beamWidth GaussianBelief.t gen = 0%Z /\
  GaussianTransition.actions (GaussianAgent.transitionModel ag)
  = keys (GaussianTransition.config (GaussianAgent.transitionModel ag)).

Section Agreement.
Variable ag : GaussianAgent.t.

Local Notation "'models'" :=
  (CreateGaussian.gaussianModels (GaussianAgent.transitionModel ag)
     (GaussianAgent.observationModel ag) (GaussianAgent.preferences ag)).

Hypothesis Hactions :
  GaussianTransition.actions (GaussianAgent.transitionModel ag)
  = keys (GaussianTransition.config (GaussianAgent.transitionModel ag)).

Lemma initialBeams_agree (gen : Agent.t GaussianBelief.t) :
  GaussianAgent._belief ag = Agent._belief GaussianBelief.t gen ->
  GaussianAgent.initialBeams ag
  = Ok (Agent.initialBeams GaussianBelief.t R unit models gen tt).
Proof.
  intro Hb. unfold GaussianAgent.initialBeams, Agent.initialBeams.
  apply collect_ok. intros action Hin.
  simpl Agent.actions in Hin. rewrite Hactions in Hin.
  rewrite (predict_own _ _ _ Hin). rewrite Hb. reflexivity.
Qed.

Lemma expand_agree (beams : list GaussianAgent.Beam) :
  GaussianAgent.expand ag beams
  = Ok (Agent.expand GaussianBelief.t R unit models tt beams).
Proof.
  unfold GaussianAgent.expand, Agent.expand.
  rewrite (collect_ok _
             (fun beam : GaussianAgent.Beam =>
                map (fun action =>
                       let predicted :=
                         CreateGaussian.predictOwn
                           (GaussianAgent.transitionModel ag)
                           (Agent.beam_belief GaussianBelief.t beam) action in
                       {| Agent.policy :=
                            Agent.policy GaussianBelief.t beam ++ [action];
                          Agent.efe :=
                            Agent.efe GaussianBelief.t beam
                            + GaussianAgent.computeRisk ag predicted;
                          Agent.beam_belief := predicted |})
                  (GaussianTransition.actions
                     (GaussianAgent.transitionModel ag)))).
  - rewrite <- flat_map_concat_map. reflexivity.
  - intros beam _. apply collect_ok. intros action Hin.
    rewrite Hactions in Hin. rewrite (predict_own _ _ _ Hin). reflexivity.
Qed.

Lemma searchLoop_agree (n : nat) :
  forall beams,
    GaussianAgent.searchLoop ag n beams
    = Ok (Agent.searchLoop GaussianBelief.t R unit models tt 0%Z n beams).
Proof.
  induction n as [|n IH]; intro beams; simpl; [reflexivity|].
  rewrite expand_agree. rewrite IH. reflexivity.
Qed.

Lemma act_agree (gen : Agent.t GaussianBelief.t) :
  agree ag gen ->
  fst (GaussianAgent.act ag)
  = fst (Agent.act GaussianBelief.t R unit models gen tt) /\
  agree (snd (GaussianAgent.act ag))
    (snd (Agent.act GaussianBelief.t R unit models gen tt)).
Proof.
  intros (Hb & Hr & Hh & Hp & Hhab & Hw & Ha).
  unfold GaussianAgent.act, Agent.act, Agent.search.
  rewrite (initialBeams_agree gen Hb), searchLoop_agree.
  rewrite Hw, Hhab, <- Hh, <- Hp, <- Hr.
  set (beams :=
         Agent.searchLoop GaussianBelief.t R unit models tt 0%Z
           (Z.to_nat (GaussianAgent._planningHorizon ag - 1))
           (Agent.initialBeams GaussianBelief.t R unit models gen tt)).
  unfold Selection.select. simpl keys.
  destruct (LinearAlgebra.softmin (map (Agent.efe GaussianBelief.t) beams)
              (GaussianAgent._precision ag)) as [policyProbs|e].
  - destruct (Selection.sampleIndex (GaussianAgent._random ag) policyProbs)
      as [idx random'].
    rewrite index_map. unfold GaussianAgent.Beam.
    destruct (Selection.index beams idx) as [beam|]; simpl;
      (split; [reflexivity|]); unfold agree; simpl; tauto.
  - simpl. split; [reflexivity|]. unfold agree. simpl. tauto.
Qed.

End Agreement.

End GaussianAgentFacts.

(** X30.  The dedicated [GaussianAgent] and the generic [Agent] that
    [createGaussianAgent] wires (EFE = −C(E[y]), no habits, no beam
    width, no learning callback) behave alike on a transition model
    built by its constructor: built from the same arguments they agree;
    and whenever they agree, they still agree after [observe], [act]
    returns the same action (or raises in both) and leaves them in
    agreement, and so does [step]. *)
Theorem gaussian_agent_matches_generic
  (c : GaussianTransition.GaussianTransitionConfig)
  (om : GaussianObservation.t) (prefs : R -> R) :
  let tm := GaussianTransition.constructor c in
  let models := CreateGaussian.gaussianModels tm om prefs in
  (forall belief random now horizon precision,
     GaussianAgentFacts.agree
       (GaussianAgent.constructor belief tm om prefs random now horizon
          precision)
       (Agent.constructor GaussianBelief.t R unit models belief random now
          horizon precision [] 0%Z)) /\
  (forall ag gen,
     GaussianAgent.transitionModel ag = tm ->
     GaussianAgent.observationModel ag = om ->
     GaussianAgent.preferences ag = prefs ->
     GaussianAgentFacts.agree ag gen ->
     (forall y,
        GaussianAgentFacts.agree (GaussianAgent.observe ag y)
          (Agent.observe GaussianBelief.t R unit models gen tt y)) /\
     fst (GaussianAgent.act ag)
     = fst (Agent.act GaussianBelief.t R unit models gen tt) /\
     GaussianAgentFacts.agree (snd (GaussianAgent.act ag))
       (snd (Agent.act GaussianBelief.t R unit models gen tt)) /\
     (forall y,
        fst (GaussianAgent.step ag y)
        = fst (fst (Agent.step GaussianBelief.t R unit models gen tt y)) /\
        GaussianAgentFacts.agree (snd (GaussianAgent.step ag y))
          (snd (fst (Agent.step GaussianBelief.t R unit models gen tt y))))).
Proof.
  intros tm models. split.
  - intros belief random now horizon precision.
    unfold GaussianAgentFacts.agree. simpl. tauto.
  - intros ag gen Htm Hom Hprefs Hagree.
    assert (Hobserve : forall y,
              GaussianAgentFacts.agree (GaussianAgent.observe ag y)
                (Agent.observe GaussianBelief.t R unit models gen tt y)).
    { intro y. destruct Hagree as (Hb & Hr & Hh & Hp & Hhab & Hw & Ha).
      unfold GaussianAgentFacts.agree. simpl.
      rewrite Hb, Hom. tauto. }
    assert (Hact : forall ag' gen',
              GaussianAgent.transitionModel ag' = tm ->
              GaussianAgent.observationModel ag' = om ->
              GaussianAgent.preferences ag' = prefs ->
              GaussianAgentFacts.agree ag' gen' ->
              fst (GaussianAgent.act ag')
              = fst (Agent.act GaussianBelief.t R unit models gen' tt) /\
              GaussianAgentFacts.agree (snd (GaussianAgent.act ag'))
                (snd (Agent.act GaussianBelief.t R unit models gen' tt))).
    { intros ag' gen' Htm' Hom' Hprefs' Hagree'.
      pose proof (GaussianAgentFacts.act_agree ag'
                    (proj2 (proj2 (proj2 (proj2 (proj2 (proj2 Hagree'))))))
                    gen' Hagree') as Hres.
      rewrite Htm', Hom', Hprefs' in Hres. exact Hres. }
    split; [exact Hobserve|].
    destruct (Hact ag gen Htm Hom Hprefs Hagree) as [Hfst Hsnd].
    split; [exact Hfst|]. split; [exact Hsnd|].
    intro y.
    destruct (Hact (GaussianAgent.observe ag y)
                (Agent.observe GaussianBelief.t R unit models gen tt y))
      as [Hfst' Hsnd'];
      [exact Htm | exact Hom | exact Hprefs | apply Hobserve |].
    unfold GaussianAgent.step, Agent.step. simpl Agent.afterObserve.
    cbv iota beta.
    destruct (Agent.act GaussianBelief.t R unit models
                (Agent.observe GaussianBelief.t R unit models gen tt y) tt)
      as [[action|e] gen'];
      simpl in Hfst', Hsnd' |- *; (split; [exact Hfst'|]);
      unfold GaussianAgentFacts.agree in *; simpl; tauto.
Qed.

Definition gaussian_agent_example_config
  : GaussianTransition.GaussianTransitionConfig :=
  [("push"%string,
    {| GaussianTransition.fn := fun x => x + 1;
       GaussianTransition.noise := 1 / 10 |});
   ("rest"%string,
    {| GaussianTransition.fn := fun x => x;
       GaussianTransition.noise := 1 / 100 |})].

Definition gaussian_agent_example_sensor : GaussianObservation.t :=
  GaussianObservation.constructor
    {| GaussianObservation.cfg_scale := 1;
       GaussianObservation.cfg_bias := None;
       GaussianObservation.cfg_noise := 1 / 10 |}.

Lemma gaussian_agent_matches_generic_witness :
  fst (GaussianAgent.step
         (GaussianAgent.constructor (GaussianBelief.constructor 0 1)
            (GaussianTransition.constructor gaussian_agent_example_config)
            gaussian_agent_example_sensor (fun y => - (y * y))
            (Some (Random.constructor 42)) 0%Z 2%Z 1) 3)
  = fst (fst (Agent.step GaussianBelief.t R unit
                (CreateGaussian.gaussianModels
                   (GaussianTransition.constructor
                      gaussian_agent_example_config)
                   gaussian_agent_example_sensor (fun y => - (y * y)))
                (CreateGaussian.createGaussianAgent
                   (GaussianBelief.constructor 0 1)
                   (GaussianTransition.constructor
                      gaussian_agent_example_config)
                   gaussian_agent_example_sensor (fun y => - (y * y))
                   (Some 42%Z) 0%Z (Some 2%Z) (Some 1)) tt 3)).
Proof.
  destruct (gaussian_agent_matches_generic gaussian_agent_example_config
              gaussian_agent_example_sensor (fun y => - (y * y)))
    as [Hbuilt Hrun].
  pose proof (Hbuilt (GaussianBelief.constructor 0 1)
                (Some (Random.constructor 42)) 0%Z 2%Z 1) as Hagree.
  destruct (fun Htm Hom Hprefs => Hrun _ _ Htm Hom Hprefs Hagree)
    as (_ & _ & _ & Hstep); [reflexivity | reflexivity | reflexivity |].
  exact (proj1 (Hstep 3)).
Defined.

(** ** Reproducibility of a Gaussian agent *)




